(** * CSV to Parquet conversion and label replacement: a shallow embedding

    The development follows [src/data/convert_to_parquet.py] (the chunked
    converter, the small-file converter and [main]), [src/utilites.py]
    ([get_labels_easy]) and the replacement loop of [src/preprocessing.py].

    pandas, pyarrow and the operating system are libraries of the program,
    not part of it.  Their operations appear here as small executable
    models of the behaviour the program relies on:
    - a data frame is a header and a list of rows, a row being the list of
      its cells in header order;
    - [pd.to_numeric(..., errors='coerce')] gives a column one dtype, int64
      or float64, from all its values, and reads every value in it;
      [.astype('Int64')] and boolean mask selection act cell by cell, and
      so does [Series.replace] for the string labels considered here;
    - [pa.Table.from_pandas] converts a column to the type of its field,
      or raises;
    - what a string reads as (a number, a boolean) and the size of a file
      on disk are left abstract (class [Externals]): every theorem holds
      for all of them;
    - the output directory is a finite map from paths to Parquet files. *)

From Stdlib Require Import QArith ZArith String Ascii List Lia DecimalString DecimalNat.
From stdpp Require Import gmap strings list fin_maps.

Local Open Scope string_scope.
Local Open Scope list_scope.
Local Open Scope Z_scope.

(** ** Exceptions and results *)

Inductive exn :=
| EmptyDataError        (* pd.read_csv on a file without columns *)
| ParserError           (* pd.read_csv on a malformed record *)
| TypeError             (* astype('Int64') on a value that is no integer *)
| KeyError              (* a column that is not in the frame *)
| ArrowTypeError        (* pa.Table.from_pandas: column does not fit the field *)
| ArrowInvalid          (* pa.Table.from_pandas: a value does not fit the field *)
| ArrowNotImplementedError  (* pa.Table.from_pandas: no conversion to the field *)
| ValueError            (* astype(int) on a value that is no integer *)
| OverflowError         (* astype(int) on an integer beyond int64 *)
| IndexError.           (* iloc on a position past the last column *)

Inductive result (A : Type) :=
| Ok (a : A)
| Raise (e : exn).
Arguments Ok {A} a.
Arguments Raise {A} e.

Global Instance result_ret : MRet result := fun _ a => Ok a.

Global Instance result_bind : MBind result := fun _ _ k m =>
  match m with
  | Ok a => k a
  | Raise e => Raise e
  end.

(** ** Cells, rows and frames *)

(** A cell of a pandas column.  [Text] is a [str] of a string column (what
    [dtype=str] reads), [Num] a finite float64 value and [Inf] an infinite
    one, [Int] a value of an int64 or uint64 column or of the nullable
    [Int64] extension type, [NA] the missing marker (NaN, [<NA>], None),
    [Bool] a boolean.  A column has one dtype: its cells are strings and
    missing markers, or integers, or floats and missing markers, and so
    on; the dtype is read off the cells. *)
Inductive cell :=
| Text (s : string)
| Num (q : Q)
| Int (z : Z)
| NA
| Bool (b : bool)
| Inf (negative : bool).

Abbreviation row := (list cell).

Record DataFrame := {
  columns : list string;
  values : list row
}.

(** [len(df)] *)
Definition len (df : DataFrame) : nat := length (values df).

(** [name in df.columns] *)
Definition has_column (name : string) (df : DataFrame) : bool :=
  bool_decide (name ∈ columns df).

(** Position of a column in the header (the first one of that name). *)
Fixpoint column_index (name : string) (cols : list string) : option nat :=
  match cols with
  | [] => None
  | c :: cols' =>
      if String.eqb c name then Some 0%nat
      else S <$> column_index name cols'
  end.

(** The cell of row [r] under column [name]; a record shorter than the
    header reads as missing there, as pandas pads it. *)
Definition cell_at (cols : list string) (name : string) (r : row) : cell :=
  match column_index name cols with
  | Some i => default NA (r !! i)
  | None => NA
  end.

(** [df[name] = f(df[name])] for a function [f] that acts cell by cell.
    The program assigns to columns of the frame only: it tests for the
    column first, or has read it. *)
Definition assign_column (name : string) (f : cell -> cell)
    (df : DataFrame) : DataFrame :=
  match column_index name (columns df) with
  | Some i => {| columns := columns df; values := alter f i <$> values df |}
  | None => df
  end.

(** The same when [f] may raise: the first failing cell aborts the
    assignment and the frame is left as it was. *)
Definition alterM (f : cell -> result cell) (i : nat) (r : row) : result row :=
  match r !! i with
  | Some c => c' ← f c; Ok (<[i := c']> r)
  | None => Ok r
  end.

Definition assign_columnM (name : string) (f : cell -> result cell)
    (df : DataFrame) : result DataFrame :=
  match column_index name (columns df) with
  | Some i =>
      rows ← mapM (alterM f i) (values df);
      Ok {| columns := columns df; values := rows |}
  | None => Ok df
  end.

(** [df[mask]] for a mask computed row by row. *)
Definition select_rows (keep : row -> bool) (df : DataFrame) : DataFrame :=
  {| columns := columns df; values := List.filter keep (values df) |}.

(** ** Arrow schema *)

(** The field types [pa.Table.from_pandas] gives the columns of a frame
    read by [pd.read_csv]: [Int64] and [UInt64] for its integer columns,
    [Double] for its float columns, [Boolean] for its boolean columns,
    [Utf8] for its string columns and [Null] for a column without a value
    (every column of a file that has a header only).
    [pa.types.is_integer] holds of the two integer types,
    [pa.types.is_floating] of [Double]. *)
Inductive arrow_type := Int64 | UInt64 | Double | Boolean | Utf8 | Null.

Definition is_integer (t : arrow_type) : bool :=
  match t with Int64 | UInt64 => true | _ => false end.

Definition is_floating (t : arrow_type) : bool :=
  match t with Double => true | _ => false end.

Record field := {
  name : string;
  type : arrow_type
}.

Abbreviation schema := (list field).

(** ** Paths *)

(** Split at the last occurrence of a character. *)
Fixpoint split_last (sep : ascii) (s : string) : option (string * string) :=
  match s with
  | EmptyString => None
  | String a s' =>
      match split_last sep s' with
      | Some (l, r) => Some (String a l, r)
      | None => if Ascii.eqb a sep then Some (EmptyString, s') else None
      end
  end.

(** [Path(p).name] *)
Definition path_name (p : string) : string :=
  match split_last "/" p with
  | Some (_, r) => r
  | None => p
  end.

(** [Path(p).stem]: the name without its last suffix. *)
Definition path_stem (p : string) : string :=
  let n := path_name p in
  match split_last "." n with
  | Some (l, r) =>
      if String.eqb l "" || String.eqb r "" then n else l
  | None => n
  end.

(** [f"{n:02d}"] *)
Definition decimal (n : nat) : string := NilEmpty.string_of_uint (Nat.to_uint n).

Definition format_02d (n : nat) : string :=
  if (n <? 10)%nat then "0" +:+ decimal n else decimal n.

(** [output_path / f"{base_name}_part{part_num:02d}.parquet"] *)
Definition part_path (output_dir base_name : string) (part_num : nat) : string :=
  output_dir +:+ "/" +:+ base_name +:+ "_part" +:+ format_02d part_num +:+ ".parquet".

(** [output_path / f"{base_name}.parquet"] *)
Definition single_path (output_dir base_name : string) : string :=
  output_dir +:+ "/" +:+ base_name +:+ ".parquet".

(** ** The output directory *)

(** A Parquet file: the row groups written so far, each in schema order,
    and whether its writer has been closed (footer written). *)
Record parquet_file := {
  row_groups : list (list row);
  finalized : bool
}.

(** All rows of a file, in the order they were written. *)
Definition file_rows (f : parquet_file) : list row := concat (row_groups f).

(** What the program does to the output directory, in program order. *)
Inductive event :=
| Opened (path : string)                   (* pq.ParquetWriter(path, ...) *)
| Wrote (path : string) (tbl : list row)   (* writer.write_table(tbl) *)
| Closed (path : string)                   (* writer.close() *)
| Appended (path : string).                (* output_files.append(path) *)

(** The writer protocol, read off a log from its start: which writer is
    open, which paths have been closed, and whether the last event closed
    a path.  A log leaves the protocol when it opens a writer while one is
    open or on a closed path, writes to or closes a path that is not the
    open one, or appends a path that was not closed just before. *)
Record writer_view := {
  open_path : option string;
  closed_paths : list string;
  just_closed : option string
}.

Definition view_step (v : option writer_view) (e : event) : option writer_view :=
  match v with
  | None => None
  | Some v =>
      match e with
      | Opened p =>
          if bool_decide (open_path v = None ∧ p ∉ closed_paths v)
          then Some {| open_path := Some p; closed_paths := closed_paths v;
                       just_closed := None |}
          else None
      | Wrote p _ =>
          if bool_decide (open_path v = Some p)
          then Some {| open_path := Some p; closed_paths := closed_paths v;
                       just_closed := None |}
          else None
      | Closed p =>
          if bool_decide (open_path v = Some p)
          then Some {| open_path := None; closed_paths := closed_paths v ++ [p];
                       just_closed := Some p |}
          else None
      | Appended p =>
          if bool_decide (just_closed v = Some p)
          then Some {| open_path := open_path v; closed_paths := closed_paths v;
                       just_closed := None |}
          else None
      end
  end.

Definition replay (log : list event) : option writer_view :=
  foldl view_step
        (Some {| open_path := None; closed_paths := []; just_closed := None |})
        log.

(** The writers a log leaves open: opened and not closed since. *)
Definition open_writers (log : list event) : list string :=
  foldl (fun (open : list string) e =>
           match e with
           | Opened p => open ++ [p]
           | Closed p => List.filter (fun q => negb (String.eqb q p)) open
           | Wrote _ _ | Appended _ => open
           end)
        [] log.

(** The paths a log appends to the list of output files, in order. *)
Definition appended (log : list event) : list string :=
  omap (fun e => match e with Appended p => Some p | _ => None end) log.

(** ** Module constants *)

Definition MAX_SIZE_MB : Z := 50.
Definition MAX_SIZE_BYTES : Z := MAX_SIZE_MB * 1024 * 1024.
Definition CHUNK_SIZE : Z := 100000.

(** ** Input files *)

(** What the chunked reader yields: a chunk, or an exception raised while
    the next window of the file is read. *)
Inductive read_item :=
| Chunk (df : DataFrame)
| ReadError (e : exn).

(** An input CSV file as the program sees it through [os] and [pd.read_csv]. *)
Record csv_source := {
  (* os.path.getsize(csv_path) *)
  csv_bytes : Z;
  (* pa.Table.from_pandas(pd.read_csv(csv_path, nrows=CHUNK_SIZE)).schema *)
  first_chunk_schema : result schema;
  (* pd.read_csv(csv_path, chunksize=CHUNK_SIZE, dtype=str), in order *)
  chunks : list read_item;
  (* pd.read_csv(csv_path), types inferred over the whole file *)
  whole_frame : result DataFrame
}.

(** The rows [pd.read_csv] yields over the whole chunked read. *)
Fixpoint chunk_rows (items : list read_item) : list row :=
  match items with
  | [] => []
  | Chunk df :: rest => values df ++ chunk_rows rest
  | ReadError _ :: rest => chunk_rows rest
  end.

(** ** What the libraries decide *)

(** What [pd.to_numeric] reads from a string: an integer literal, with the
    integer it denotes and the float64 it is read as in a float64 column,
    or another finite number, a float64, or an infinity. *)
Inductive literal :=
| IntLit (z : Z) (as_float : Q)
| FloatLit (q : Q)
| InfLit (negative : bool).

(** The functions of the libraries and of the operating system whose
    results the program only passes on.  Every theorem holds for all of
    them. *)
Class Externals := {
  (* pd.to_numeric on one string: what it reads, or nothing when the
     string does not parse or reads as nan *)
  read_number : string -> option literal;
  (* the boolean pyarrow reads from a string under a boolean field, or
     nothing when it refuses the string *)
  read_bool : string -> option bool;
  (* int(s) on one string: its integer, or nothing when it raises *)
  parse_int : string -> option Z;
  (* os.path.getsize of a Parquet file with the given content *)
  getsize : parquet_file -> Z
}.

(** ** The converters *)

Section Converter.

Context {ext : Externals}.

(** [get_file_size_mb] *)
Definition get_file_size_mb (f : parquet_file) : Q :=
  inject_Z (getsize f) / inject_Z (1024 * 1024).

(** *** Numeric coercion *)

(** The finite float64 a string is read as, and the integer it denotes
    when it is an integer literal. *)
Definition parse_number (s : string) : option Q :=
  match read_number s with
  | Some (IntLit _ q) | Some (FloatLit q) => Some q
  | Some (InfLit _) | None => None
  end.

Definition parse_integer (s : string) : option Z :=
  match read_number s with
  | Some (IntLit z _) => Some z
  | Some (FloatLit _) | Some (InfLit _) | None => None
  end.

Definition in_int64 (z : Z) : bool := (- 2 ^ 63 <=? z) && (z <? 2 ^ 63).

Definition in_uint64 (z : Z) : bool := (0 <=? z) && (z <? 2 ^ 64).

(** [pd.to_numeric(col, errors='coerce')] gives the column one dtype.  It
    is int64 when every value is an integer that fits int64, and uint64
    when every value is an integer that fits uint64; a value that is
    missing, does not parse or is no integer literal, an integer beyond
    both ranges, and a negative integer next to one beyond int64 make it
    float64, and every value is then read as a float64. *)
Definition fits_integers (fits : Z -> bool) (c : cell) : bool :=
  match c with
  | Text s =>
      match parse_integer s with
      | Some z => fits z
      | None => false
      end
  | Int _ => true
  | Num _ | NA | Bool _ | Inf _ => false
  end.

Definition integer_column (name : string) (df : DataFrame) : bool :=
  forallb (fun r => fits_integers in_int64 (cell_at (columns df) name r)) (values df)
  || forallb (fun r => fits_integers in_uint64 (cell_at (columns df) name r)) (values df).

(** A cell of a column that is read as integers. *)
Definition reads_as_integer (c : cell) : bool :=
  fits_integers (fun _ => true) c.

(** One cell of the column, once the dtype is fixed: [as_integers] says
    that the column is read as int64 or uint64.  A column that is numeric
    already is left as it is. *)
Definition to_numeric (as_integers : bool) (c : cell) : cell :=
  match c with
  | Text s =>
      if as_integers then
        match parse_integer s with
        | Some z => Int z
        | None => NA
        end
      else
        match read_number s with
        | Some (IntLit _ q) | Some (FloatLit q) => Num q
        | Some (InfLit n) => Inf n
        | None => NA
        end
  | Num q => Num q
  | Int z => Int z
  | NA => NA
  | Bool b => Bool b
  | Inf n => Inf n
  end.

Definition is_integral (q : Q) : bool :=
  (Qnum q mod Z.pos (Qden q) =? 0) &&
  (- 2 ^ 63 <=? Qnum q / Z.pos (Qden q)) && (Qnum q / Z.pos (Qden q) <? 2 ^ 63).

(** [col.astype('Int64')], on one cell of a numeric column: a float that is
    no 64-bit integer and an integer of a uint64 column beyond int64 cannot
    be cast safely and raise, and so the cast of the column raises when
    one of its cells does. *)
Definition astype_Int64 (c : cell) : result cell :=
  match c with
  | Num q =>
      if is_integral q then Ok (Int (Qnum q / Z.pos (Qden q)))
      else Raise TypeError
  | Int z => if in_int64 z then Ok (Int z) else Raise TypeError
  | NA => Ok NA
  | Text _ | Bool _ | Inf _ => Raise TypeError
  end.

(** *** Year filter *)

(** [col >= bound] and [col <= bound] on one cell of a numeric column: a
    comparison with a missing value is false. *)
Definition ge (c : cell) (bound : Z) : bool :=
  match c with
  | Num q => Qle_bool (inject_Z bound) q
  | Int z => bound <=? z
  | Inf negative => negb negative
  | Text _ | NA | Bool _ => false
  end.

Definition le (c : cell) (bound : Z) : bool :=
  match c with
  | Num q => Qle_bool q (inject_Z bound)
  | Int z => z <=? bound
  | Inf negative => negative
  | Text _ | NA | Bool _ => false
  end.

(** The mask of lines 54-55 on one row. *)
Definition year_mask (cols : list string) (year_filter : Z * Z) (r : row) : bool :=
  ge (cell_at cols "collision_year" r) (fst year_filter) &&
  le (cell_at cols "collision_year" r) (snd year_filter).

(** Lines 52-55: the year column is coerced as a whole, then masked. *)
Definition apply_year_filter (year_filter : Z * Z) (chunk : DataFrame) : DataFrame :=
  let as_integers := integer_column "collision_year" chunk in
  let chunk := assign_column "collision_year" (to_numeric as_integers) chunk in
  select_rows (year_mask (columns chunk) year_filter) chunk.

(** *** Coercion to the master schema (lines 63-71) *)

(** Lines 65-70 for one field: its column is coerced as a whole, in the
    chunk as it stands. *)
Definition coerce_field (chunk : DataFrame) (f : field) : result DataFrame :=
  if has_column (name f) chunk then
    let as_integers := integer_column (name f) chunk in
    if is_integer (type f) then
      assign_columnM (name f) (fun c => astype_Int64 (to_numeric as_integers c)) chunk
    else if is_floating (type f) then
      Ok (assign_column (name f) (to_numeric as_integers) chunk)
    else Ok chunk
  else Ok chunk.

Fixpoint coerce_chunk (master_schema : schema) (chunk : DataFrame) : result DataFrame :=
  match master_schema with
  | [] => Ok chunk
  | f :: fields => chunk' ← coerce_field chunk f; coerce_chunk fields chunk'
  end.

(** *** [pa.Table.from_pandas(chunk, schema=master_schema)] *)

(** The integers pyarrow converts to a double: those between -2^53 and
    2^53. *)
Definition fits_double (z : Z) : bool := (- 2 ^ 53 <=? z) && (z <=? 2 ^ 53).

(** One cell under a field of the schema.  A missing value fits every
    field.  An integer of an integer column converts to a double only
    within the range above, and to an unsigned integer only when it is not
    negative.  A string converts to a boolean when pyarrow reads one from
    it.  A number does not convert to a string field, and a string to no
    numeric field. *)
Definition conform (t : arrow_type) (c : cell) : result cell :=
  match t, c with
  | Null, _ => Raise ArrowNotImplementedError
  | _, NA => Ok NA
  | Int64, Int z => Ok (Int z)
  | UInt64, Int z => if 0 <=? z then Ok (Int z) else Raise ArrowInvalid
  | Double, Num q => Ok (Num q)
  | Double, Inf n => Ok (Inf n)
  | Double, Int z =>
      if fits_double z then Ok (Num (inject_Z z)) else Raise ArrowInvalid
  | Utf8, Text s => Ok (Text s)
  | Boolean, Text s =>
      match read_bool s with
      | Some b => Ok (Bool b)
      | None => Raise ArrowInvalid
      end
  | Boolean, Bool b => Ok (Bool b)
  | _, _ => Raise ArrowTypeError
  end.

Definition is_null (t : arrow_type) : bool :=
  match t with Null => true | _ => false end.

(** The table has the fields of the schema, in schema order; a field that
    is no column of the frame is a [KeyError].  The string columns of the
    chunk do not convert to a [Null] field, whatever they hold. *)
Definition from_pandas (chunk : DataFrame) (master_schema : schema) : result (list row) :=
  if forallb (fun f => has_column (name f) chunk) master_schema then
    if existsb (fun f => is_null (type f)) master_schema
    then Raise ArrowNotImplementedError
    else
      mapM (fun r =>
              mapM (fun f => conform (type f) (cell_at (columns chunk) (name f) r))
                   master_schema)
           (values chunk)
  else Raise KeyError.

(** *** State of [convert_large_csv_chunked] *)

(** The local variables of the function, the output directory and the log
    of what was done to it.  [current_writer] holds the path its writer was
    opened on: the source keeps that path in [current_file], and sets and
    clears the two variables together (lines 77-78 and 98-99). *)
Record state := {
  output_files : list string;
  part_num : nat;
  current_writer : option string;
  current_size : Q;
  total_rows : nat;
  filtered_rows : nat;
  rows_in_current_part : nat;
  disk : gmap string parquet_file;
  trace : list event
}.

Definition initial_state (disk0 : gmap string parquet_file) : state :=
  {| output_files := []; part_num := 1; current_writer := None;
     current_size := 0; total_rows := 0; filtered_rows := 0;
     rows_in_current_part := 0; disk := disk0; trace := [] |}.

(** The writer operations on a file of the directory. *)
Definition new_file : parquet_file := {| row_groups := []; finalized := false |}.

Definition append_group (tbl : list row) (f : parquet_file) : parquet_file :=
  {| row_groups := row_groups f ++ [tbl]; finalized := finalized f |}.

Definition finalize (f : parquet_file) : parquet_file :=
  {| row_groups := row_groups f; finalized := true |}.

(** Line 56: [filtered_rows += original_len - len(chunk)]. *)
Definition count_filtered (n : nat) (st : state) : state :=
  {| output_files := output_files st; part_num := part_num st;
     current_writer := current_writer st; current_size := current_size st;
     total_rows := total_rows st; filtered_rows := filtered_rows st + n;
     rows_in_current_part := rows_in_current_part st;
     disk := disk st; trace := trace st |}.

(** Line 73: [total_rows += len(chunk)]. *)
Definition count_total (n : nat) (st : state) : state :=
  {| output_files := output_files st; part_num := part_num st;
     current_writer := current_writer st; current_size := current_size st;
     total_rows := total_rows st + n; filtered_rows := filtered_rows st;
     rows_in_current_part := rows_in_current_part st;
     disk := disk st; trace := trace st |}.

(** The rows of the shards a state has produced: those of the recorded
    files in order, then those of the file still open. *)
Definition rows_at (dsk : gmap string parquet_file) (path : string) : list row :=
  from_option file_rows [] (dsk !! path).

Definition shard_rows (st : state) : list row :=
  concat (rows_at (disk st) <$> output_files st)
  ++ from_option (rows_at (disk st)) [] (current_writer st).

(** *** The loop of [convert_large_csv_chunked] (lines 49-103) *)

Section Loop.

Variable output_path : string.
Variable base_name : string.
Variable master_schema : schema.
Variable year_filter : option (Z * Z).

(** Lines 76-79: [pq.ParquetWriter] creates (or truncates) the file. *)
Definition open_writer (st : state) : state :=
  match current_writer st with
  | Some _ => st
  | None =>
      let current_file := part_path output_path base_name (part_num st) in
      {| output_files := output_files st; part_num := part_num st;
         current_writer := Some current_file; current_size := current_size st;
         total_rows := total_rows st; filtered_rows := filtered_rows st;
         rows_in_current_part := 0;
         disk := <[current_file := new_file]> (disk st);
         trace := trace st ++ [Opened current_file] |}
  end.

(** Lines 83-84: [current_writer.write_table(arrow_table)]. *)
Definition write_table (current_file : string) (tbl : list row) (st : state) : state :=
  {| output_files := output_files st; part_num := part_num st;
     current_writer := current_writer st; current_size := current_size st;
     total_rows := total_rows st; filtered_rows := filtered_rows st;
     rows_in_current_part := rows_in_current_part st + length tbl;
     disk := alter (append_group tbl) current_file (disk st);
     trace := trace st ++ [Wrote current_file tbl] |}.

(** Lines 92-99: close the writer, record the path, move to the next part. *)
Definition seal (current_file : string) (size : Q) (st : state) : state :=
  {| output_files := output_files st ++ [current_file];
     part_num := S (part_num st);
     current_writer := None; current_size := size;
     total_rows := total_rows st; filtered_rows := filtered_rows st;
     rows_in_current_part := rows_in_current_part st;
     disk := alter finalize current_file (disk st);
     trace := trace st ++ [Closed current_file; Appended current_file] |}.

Definition set_current_size (size : Q) (st : state) : state :=
  {| output_files := output_files st; part_num := part_num st;
     current_writer := current_writer st; current_size := size;
     total_rows := total_rows st; filtered_rows := filtered_rows st;
     rows_in_current_part := rows_in_current_part st;
     disk := disk st; trace := trace st |}.

(** Lines 87-99: the size check after a write.  [MAX_SIZE_MB * 0.9] is 45,
    exactly, also in floating point. *)
Definition check_size (current_file : string) (st : state) : state :=
  match disk st !! current_file with
  | Some f =>
      let size := get_file_size_mb f in
      if Qle_bool (inject_Z MAX_SIZE_MB * (9 # 10)) size
      then seal current_file size st
      else set_current_size size st
  | None => st
  end.

(** What one iteration does to the control flow: go on with the next
    chunk, or raise out of the loop. *)
Inductive flow :=
| Next (st : state)
| Abort (st : state) (e : exn).

(** Lines 51-60: the filtered chunk and the updated counter, or nothing
    when the iteration ends at [continue]. *)
Definition filter_step (st : state) (chunk : DataFrame) : state * option DataFrame :=
  match year_filter with
  | Some yf =>
      if has_column "collision_year" chunk then
        let original_len := len chunk in
        let chunk := apply_year_filter yf chunk in
        let st := count_filtered (original_len - len chunk) st in
        if (len chunk =? 0)%nat then (st, None) else (st, Some chunk)
      else (st, Some chunk)
  | None => (st, Some chunk)
  end.

(** Lines 73-99, once the chunk is coerced.  After [open_writer] a writer
    is open; the last branch is there for totality only. *)
Definition write_step (st : state) (chunk : DataFrame) : flow :=
  let st := count_total (len chunk) st in
  let st := open_writer st in
  match current_writer st with
  | Some current_file =>
      match from_pandas chunk master_schema with
      | Ok arrow_table =>
          let st := write_table current_file arrow_table st in
          Next (check_size current_file st)
      | Raise e => Abort st e
      end
  | None => Next st
  end.

(** The body of the loop for one chunk. *)
Definition process_chunk (st : state) (chunk : DataFrame) : flow :=
  match filter_step st chunk with
  | (st, None) => Next st
  | (st, Some chunk) =>
      match coerce_chunk master_schema chunk with
      | Ok chunk => write_step st chunk
      | Raise e => Abort st e
      end
  end.

(** The loop over the chunked reader: the first exception ends it. *)
Fixpoint for_chunks (st : state) (items : list read_item) : flow :=
  match items with
  | [] => Next st
  | ReadError e :: _ => Abort st e
  | Chunk chunk :: rest =>
      match process_chunk st chunk with
      | Next st' => for_chunks st' rest
      | Abort st' e => Abort st' e
      end
  end.

(** Lines 106-110: close the last file. *)
Definition close_last (st : state) : state :=
  match current_writer st with
  | Some current_file =>
      {| output_files := output_files st ++ [current_file];
         part_num := part_num st;
         current_writer := current_writer st; current_size := current_size st;
         total_rows := total_rows st; filtered_rows := filtered_rows st;
         rows_in_current_part := rows_in_current_part st;
         disk := alter finalize current_file (disk st);
         trace := trace st ++ [Closed current_file; Appended current_file] |}
  | None => st
  end.

(** Lines 119-123: the handler closes an open writer before it raises again. *)
Definition clean_up (st : state) : state :=
  match current_writer st with
  | Some current_file =>
      {| output_files := output_files st; part_num := part_num st;
         current_writer := current_writer st; current_size := current_size st;
         total_rows := total_rows st; filtered_rows := filtered_rows st;
         rows_in_current_part := rows_in_current_part st;
         disk := alter finalize current_file (disk st);
         trace := trace st ++ [Closed current_file] |}
  | None => st
  end.

(** Lines 48-123. *)
Definition try_block (st : state) (items : list read_item) : state * result (list string) :=
  match for_chunks st items with
  | Next st =>
      let st := close_last st in
      (st, Ok (output_files st))
  | Abort st e => (clean_up st, Raise e)
  end.

(** *** Invariants of the loop *)

(** What holds of the state whenever the loop body is entered or left:
    parts are numbered from 1, the recorded files are the parts before the
    current one and are finalized on disk, an open writer is on the current
    part and its file is not finalized, the log follows the writer
    protocol, and the paths it appends are the recorded files. *)
Record well_formed (st : state) : Prop := {
  wf_part : (1 <= part_num st)%nat;
  wf_outputs :
    output_files st = part_path output_path base_name <$> seq 1 (part_num st - 1);
  wf_writer : ∀ p, current_writer st = Some p →
    p = part_path output_path base_name (part_num st) ∧
    ∃ f, disk st !! p = Some f ∧ finalized f = false;
  wf_sealed : ∀ p, p ∈ output_files st →
    ∃ f, disk st !! p = Some f ∧ finalized f = true;
  wf_trace :
    replay (trace st) =
      Some {| open_path := current_writer st; closed_paths := output_files st;
              just_closed := None |};
  wf_appended : appended (trace st) = output_files st
}.

(** The open shard, if any, is below the rollover threshold. *)
Definition below_threshold (st : state) : Prop :=
  ∀ p f, current_writer st = Some p → disk st !! p = Some f →
    Qle_bool (inject_Z MAX_SIZE_MB * (9 # 10)) (get_file_size_mb f) = false.

(** [st'] continues [st]: its shards hold the rows of [st] followed by
    [rows], the files recorded by [st] are as they were, and the list of
    recorded files and the log have only grown. *)
Record extends (st st' : state) (rows : list row) : Prop := {
  ext_rows : shard_rows st' = shard_rows st ++ rows;
  ext_sealed : ∀ p, p ∈ output_files st → disk st' !! p = disk st !! p;
  ext_outputs : output_files st `prefix_of` output_files st';
  ext_trace : trace st `prefix_of` trace st'
}.

End Loop.

(** [convert_large_csv_chunked(csv_path, output_dir, year_filter)], run on
    the directory [disk0]: the final state and what the call returns or
    raises.  Reading the first chunk happens before the [try]. *)
Definition convert_large_csv_chunked (csv_path : string) (src : csv_source)
    (output_dir : string) (year_filter : option (Z * Z))
    (disk0 : gmap string parquet_file) : state * result (list string) :=
  let base_name := path_stem csv_path in
  match first_chunk_schema src with
  | Raise e => (initial_state disk0, Raise e)
  | Ok master_schema =>
      try_block output_dir base_name master_schema year_filter
                (initial_state disk0) (chunks src)
  end.

(** *** [convert_small_csv] (lines 125-172) *)

(** [df.to_parquet(path)]: one finished file holding the rows of [df]. *)
Definition to_parquet (rows : list row) : parquet_file :=
  {| row_groups := [rows]; finalized := true |}.

(** [df.iloc[start_idx:end_idx]] *)
Definition iloc (start_idx end_idx : nat) (rows : list row) : list row :=
  take (end_idx - start_idx) (drop start_idx rows).

(** [int(x)] on a float: truncation towards zero. *)
Definition int_of (x : Q) : Z := Z.quot (Qnum x) (Z.pos (Qden x)).

(** Lines 157-170, for the indices of [range(num_splits)] still to come. *)
Fixpoint write_splits (output_path base_name : string) (rows : list row)
    (rows_per_split : nat) (indices : list nat)
    (dsk : gmap string parquet_file) (output_files : list string)
    : gmap string parquet_file * list string :=
  match indices with
  | [] => (dsk, output_files)
  | i :: indices' =>
      let start_idx := (i * rows_per_split)%nat in
      let end_idx := Nat.min ((i + 1) * rows_per_split) (length rows) in
      if (length rows <=? start_idx)%nat then (dsk, output_files)
      else
        let chunk := iloc start_idx end_idx rows in
        let output_file := part_path output_path base_name (i + 1) in
        write_splits output_path base_name rows rows_per_split indices'
          (<[output_file := to_parquet chunk]> dsk)
          (output_files ++ [output_file])
  end.

Definition convert_small_csv (csv_path : string) (src : csv_source)
    (output_dir : string) (disk0 : gmap string parquet_file)
    : gmap string parquet_file * result (list string) :=
  let base_name := path_stem csv_path in
  match whole_frame src with
  | Raise e => (disk0, Raise e)
  | Ok df =>
      let temp_parquet := single_path output_dir base_name in
      let dsk := <[temp_parquet := to_parquet (values df)]> disk0 in
      let file_size_mb := get_file_size_mb (to_parquet (values df)) in
      if Qle_bool file_size_mb (inject_Z MAX_SIZE_MB) then
        (dsk, Ok [temp_parquet])
      else
        let dsk := delete temp_parquet dsk in
        let num_splits := (Z.to_nat (int_of (file_size_mb / inject_Z MAX_SIZE_MB)) + 1)%nat in
        let rows_per_split := (len df / num_splits + 1)%nat in
        let '(dsk, output_files) :=
          write_splits output_dir base_name (values df) rows_per_split
                       (seq 0 num_splits) dsk [] in
        (dsk, Ok output_files)
  end.

(** *** [main] (lines 174-225) *)

(** The lines [main] prints about a file. *)
Inductive message :=
| NotFound (csv_file : string)                 (* line 208 *)
| CsvSize (csv_file : string) (mb : Q)         (* line 214 *)
| ErrorConverting (csv_file : string) (e : exn).  (* lines 223-225 *)

Record main_state := {
  all_output_files : list string;
  parquet_dir : gmap string parquet_file;
  messages : list message
}.

(** Lines 181-192. *)
Definition csv_files : list (string * list string) :=
  [ ("2025_dataset",
     [ "data/2025_dataset/collision-provisional-2025.csv";
       "data/2025_dataset/vehicle-provisional-2025.csv";
       "data/2025_dataset/casualty-provisional-2025.csv" ]);
    ("2024_prior",
     [ "data/2024_prior/collision-1979-2024.csv";
       "data/2024_prior/vehicle-1979-2024.csv";
       "data/2024_prior/casualty-1979-2024.csv" ]) ].

(** Line 204. *)
Definition year_filter_of (category : string) : option (Z * Z) :=
  if String.eqb category "2024_prior" then Some (2015, 2024) else None.

(** Lines 212-219: the body of the [try]. *)
Definition convert (csv_file : string) (src : csv_source) (output_dir : string)
    (year_filter : option (Z * Z)) (dsk : gmap string parquet_file)
    : gmap string parquet_file * result (list string) :=
  let file_size_mb := (inject_Z (csv_bytes src) / inject_Z (1024 * 1024))%Q in
  if negb (Qle_bool file_size_mb 500) then
    let '(st, r) := convert_large_csv_chunked csv_file src output_dir year_filter dsk in
    (disk st, r)
  else convert_small_csv csv_file src output_dir dsk.

(** Lines 206-225: one input file.  [inputs] holds the CSV files that
    exist. *)
Definition main_file (inputs : gmap string csv_source) (category : string)
    (ms : main_state) (csv_file : string) : main_state :=
  let output_dir := "data/parquet/" +:+ category in
  let year_filter := year_filter_of category in
  match inputs !! csv_file with
  | None =>
      {| all_output_files := all_output_files ms;
         parquet_dir := parquet_dir ms;
         messages := messages ms ++ [NotFound csv_file] |}
  | Some src =>
      let size := CsvSize csv_file (inject_Z (csv_bytes src) / inject_Z (1024 * 1024))%Q in
      match convert csv_file src output_dir year_filter (parquet_dir ms) with
      | (dsk, Ok output_files) =>
          {| all_output_files := all_output_files ms ++ output_files;
             parquet_dir := dsk;
             messages := messages ms ++ [size] |}
      | (dsk, Raise e) =>
          {| all_output_files := all_output_files ms;
             parquet_dir := dsk;
             messages := messages ms ++ [size; ErrorConverting csv_file e] |}
      end
  end.

(** Lines 196-225: one category. *)
Definition main_category (inputs : gmap string csv_source) (ms : main_state)
    (entry : string * list string) : main_state :=
  foldl (main_file inputs (fst entry)) ms (snd entry).

(** The conversion loop of [main] over a table of input files. *)
Definition main_loop (table : list (string * list string))
    (inputs : gmap string csv_source) (disk0 : gmap string parquet_file) : main_state :=
  foldl (main_category inputs)
        {| all_output_files := []; parquet_dir := disk0; messages := [] |}
        table.

(** The input files of a table with their categories, in the order [main]
    visits them. *)
Definition jobs (table : list (string * list string)) : list (string * string) :=
  concat ((fun entry : string * list string =>
             (fun csv_file => (fst entry, csv_file)) <$> snd entry) <$> table).

(** The file a message opens the report of, if it opens one. *)
Definition announced (m : message) : option string :=
  match m with
  | NotFound csv_file | CsvSize csv_file _ => Some csv_file
  | ErrorConverting _ _ => None
  end.

(** [main], up to its summary (lines 227-242), which only prints. *)
Definition main (inputs : gmap string csv_source)
    (disk0 : gmap string parquet_file) : main_state :=
  main_loop csv_files inputs disk0.

(** *** The summary of [main] (lines 227-242) *)

(** [sub in s] on strings. *)
Fixpoint starts_with (sub s : string) : bool :=
  match sub, s with
  | EmptyString, _ => true
  | String c sub', String d s' => Ascii.eqb c d && starts_with sub' s'
  | String _ _, EmptyString => false
  end.

Fixpoint contains (sub s : string) : bool :=
  starts_with sub s ||
  match s with
  | EmptyString => false
  | String _ s' => contains sub s'
  end.

(** Line 236. *)
Definition category_files (category : string) (ms : main_state) : list string :=
  List.filter (contains ("parquet/" +:+ category +:+ "/")) (all_output_files ms).

(** Lines 240-242: the name and the size the summary prints for a file;
    [os.path.getsize] raises when the file does not exist. *)
Definition summary_line (ms : main_state) (f : string) : option (string * Q) :=
  file ← parquet_dir ms !! f;
  Some (path_name f, get_file_size_mb file).

(** Lines 235-242: what the summary prints, category by category, or
    nothing when it raises.  A category without files is not printed. *)
Definition summary (ms : main_state) : option (list (string * list (string * Q))) :=
  listed ← mapM (fun category =>
                   lines ← mapM (summary_line ms) (category_files category ms);
                   Some (category, lines))
                ["2025_dataset"; "2024_prior"];
  Some (List.filter (fun entry => negb (bool_decide (entry.2 = []))) listed).

(** *** The specification's reading of the data path *)

(** The type the Master Schema declares for a column, if it lists it. *)
Fixpoint declared_type (master_schema : schema) (n : string) : option arrow_type :=
  match master_schema with
  | [] => None
  | f :: fields =>
      if String.eqb (name f) n then Some (type f) else declared_type fields n
  end.

(** Coercion of one cell by declared type, in the specification's words:
    integer columns by numeric coercion into the nullable integer type,
    floating columns by numeric coercion, every other column unchanged.
    [as_integers] is the dtype the numeric coercion gives the column of the
    cell. *)
Definition coerced_cell (as_integers : bool) (t : option arrow_type) (c : cell) :
    result cell :=
  match t with
  | Some Int64 | Some UInt64 => astype_Int64 (to_numeric as_integers c)
  | Some Double => Ok (to_numeric as_integers c)
  | Some Utf8 | Some Boolean | Some Null | None => Ok c
  end.

(** The number a cell holds, if it holds one. *)
Definition numeric_value (c : cell) : option Q :=
  match c with
  | Num q => Some q
  | Int z => Some (inject_Z z)
  | Text _ | NA | Bool _ | Inf _ => None
  end.

(** A year cell as read from the file lies within the bounds: it parses,
    and to a number between them.  [as_integers] is the dtype the numeric
    coercion gives the year column of the chunk. *)
Definition year_within (as_integers : bool) (year_filter : Z * Z) (c : cell) : bool :=
  match numeric_value (to_numeric as_integers c) with
  | Some q =>
      Qle_bool (inject_Z (fst year_filter)) q && Qle_bool q (inject_Z (snd year_filter))
  | None => false
  end.

(** The condition of line 51: a filter is set and the chunk has a year
    column. *)
Definition filter_applies (year_filter : option (Z * Z)) (chunk : DataFrame) : bool :=
  match year_filter with
  | Some _ => has_column "collision_year" chunk
  | None => false
  end.

(** The chunk an item of the reader holds, if it holds one, has a year
    column. *)
Definition has_year_column (item : read_item) : bool :=
  match item with
  | Chunk df => has_column "collision_year" df
  | ReadError _ => true
  end.

(** A row of a shard has its year within the bounds: the cell under the
    year field of the schema, if the schema has one, holds a number
    between them. *)
Definition year_in_bounds (year_filter : Z * Z) (master_schema : schema)
    (out : row) : bool :=
  match column_index "collision_year" (name <$> master_schema) with
  | Some k =>
      match out !! k ≫= numeric_value with
      | Some q =>
          Qle_bool (inject_Z (fst year_filter)) q &&
          Qle_bool q (inject_Z (snd year_filter))
      | None => false
      end
  | None => true
  end.

(** The rows of a chunk the year filter keeps: all of them when no filter
    is set or the chunk has no year column. *)
Definition kept (year_filter : option (Z * Z)) (chunk : DataFrame) (r : row) : bool :=
  match year_filter with
  | Some yf =>
      if has_column "collision_year" chunk
      then year_within (integer_column "collision_year" chunk) yf
             (cell_at (columns chunk) "collision_year" r)
      else true
  | None => true
  end.

Definition kept_rows (year_filter : option (Z * Z)) (chunk : DataFrame) : DataFrame :=
  {| columns := columns chunk;
     values := List.filter (kept year_filter chunk) (values chunk) |}.

(** The dtype the numeric coercion gives a column of a chunk: the year
    column is coerced with all rows of the chunk when the filter applies,
    every other column with the kept rows. *)
Definition reads_integers (year_filter : option (Z * Z)) (chunk : DataFrame)
    (n : string) : bool :=
  if filter_applies year_filter chunk && String.eqb n "collision_year"
  then integer_column n chunk
  else integer_column n (kept_rows year_filter chunk).

(** The value of a cell of the file under a type of the Master Schema, in
    a column read with the given dtype. *)
Definition typed_cell (as_integers : bool) (t : arrow_type) (c : cell) : cell :=
  match t with
  | Int64 | UInt64 =>
      match to_numeric as_integers c with
      | Num q => Int (Qnum q / Z.pos (Qden q))
      | c' => c'
      end
  | Double =>
      match to_numeric as_integers c with
      | Int z => Num (inject_Z z)
      | c' => c'
      end
  | Boolean =>
      match c with
      | Text s =>
          match read_bool s with
          | Some b => Bool b
          | None => c
          end
      | _ => c
      end
  | Utf8 | Null => c
  end.

(** A row of a chunk under the Master Schema: its fields in schema order. *)
Definition typed_row (master_schema : schema) (year_filter : option (Z * Z))
    (chunk : DataFrame) (r : row) : row :=
  (fun f => typed_cell (reads_integers year_filter chunk (name f)) (type f)
              (cell_at (columns chunk) (name f) r)) <$> master_schema.

(** The rows the shards of a file are expected to hold, in order. *)
Fixpoint expected_rows (master_schema : schema) (year_filter : option (Z * Z))
    (items : list read_item) : list row :=
  match items with
  | [] => []
  | Chunk df :: rest =>
      (typed_row master_schema year_filter df <$>
         List.filter (kept year_filter df) (values df))
      ++ expected_rows master_schema year_filter rest
  | ReadError _ :: rest => expected_rows master_schema year_filter rest
  end.

(** The value of a cell of the file under a type of the Master Schema, read
    on its own: an integer literal under an integer field is the integer it
    denotes. *)
Definition exact_cell (t : arrow_type) (c : cell) : cell :=
  match t, c with
  | (Int64 | UInt64), Text s =>
      match read_number s with
      | Some (IntLit z _) => Int z
      | Some (FloatLit q) => Int (Qnum q / Z.pos (Qden q))
      | Some (InfLit n) => Inf n
      | None => NA
      end
  | Double, Text s =>
      match read_number s with
      | Some (IntLit z _) => Num (inject_Z z)
      | Some (FloatLit q) => Num q
      | Some (InfLit n) => Inf n
      | None => NA
      end
  | _, _ => typed_cell false t c
  end.

Definition exact_row (master_schema : schema) (cols : list string) (r : row) : row :=
  (fun f => exact_cell (type f) (cell_at cols (name f) r)) <$> master_schema.

(** The number a cell of the file holds, read on its own. *)
Definition exact_value (c : cell) : option Q :=
  match c with
  | Text s =>
      match read_number s with
      | Some (IntLit z _) => Some (inject_Z z)
      | Some (FloatLit q) => Some q
      | Some (InfLit _) | None => None
      end
  | _ => numeric_value c
  end.

(** The rows whose year, read on its own, lies within the bounds. *)
Definition exact_kept (year_filter : option (Z * Z)) (cols : list string)
    (r : row) : bool :=
  match year_filter with
  | Some yf =>
      if bool_decide ("collision_year" ∈ cols)
      then match exact_value (cell_at cols "collision_year" r) with
           | Some q => Qle_bool (inject_Z (fst yf)) q && Qle_bool q (inject_Z (snd yf))
           | None => false
           end
      else true
  | None => true
  end.

(** The rows of the file the filter keeps, each cell read on its own. *)
Fixpoint exact_rows (master_schema : schema) (year_filter : option (Z * Z))
    (items : list read_item) : list row :=
  match items with
  | [] => []
  | Chunk df :: rest =>
      (exact_row master_schema (columns df) <$>
         List.filter (exact_kept year_filter (columns df)) (values df))
      ++ exact_rows master_schema year_filter rest
  | ReadError _ :: rest => exact_rows master_schema year_filter rest
  end.

(** An integer literal is read exactly when the column is read as float64:
    the float is the integer.  This holds of every integer between -2^53
    and 2^53. *)
Definition exact_literal (c : cell) : Prop :=
  ∀ s z q, c = Text s → read_number s = Some (IntLit z q) → q = inject_Z z.

End Converter.

(** ** Label replacement ([src/utilites.py], [src/preprocessing.py]) *)

Section Labels.

Context {ext : Externals}.

(** [col.astype(int)], on one cell.  A string is converted with [int], and
    an integer beyond int64 does not fit the column.  A float is truncated;
    beyond int64 the cast gives the least 64-bit integer.  An integer of a
    uint64 column beyond int64 wraps around.  A missing value and an
    infinity are no integers. *)
Definition astype_int (c : cell) : result Z :=
  match c with
  | Int z => if in_int64 z then Ok z else Ok (z - 2 ^ 64)
  | Num q => if in_int64 (int_of q) then Ok (int_of q) else Ok (- 2 ^ 63)
  | Text s =>
      match parse_int s with
      | Some z => if in_int64 z then Ok z else Raise OverflowError
      | None => Raise ValueError
      end
  | NA | Inf _ => Raise ValueError
  | Bool b => Ok (if b then 1 else 0)
  end.

(** A code is missing, infinite or a string [int] does not read; a code is
    a string [int] reads as an integer beyond int64. *)
Definition no_integer (c : cell) : Prop :=
  c = NA ∨ (∃ n, c = Inf n) ∨ ∃ s, c = Text s ∧ parse_int s = None.

Definition too_large (c : cell) : Prop :=
  ∃ s z, c = Text s ∧ parse_int s = Some z ∧ in_int64 z = false.

(** [dataframe['field name'] == field_name], on one cell. *)
Definition eq_text (c : cell) (s : string) : bool :=
  match c with
  | Text s' => String.eqb s' s
  | _ => false
  end.

(** [dict(zip(keys, values))]: a later pair overrides an earlier one. *)
Definition dict_zip (keys : list Z) (vals : list cell) : gmap Z cell :=
  foldl (fun d kv => <[kv.1 := kv.2]> d) ∅ (zip keys vals).

(** Line 9 selects the rows of the field and the columns at positions 2
    and 3, as far as the table has them.  Line 10 takes the first of them,
    casts it, and only then takes the second. *)
Definition get_labels_easy (dataframe : DataFrame) (field_name : string)
    : result (gmap Z cell) :=
  if negb (has_column "field name" dataframe) then Raise KeyError
  else
    let labels :=
      List.filter (fun r => eq_text (cell_at (columns dataframe) "field name" r) field_name)
                  (values dataframe) in
    if (length (columns dataframe) <? 3)%nat then Raise IndexError
    else
      codes ← mapM (fun r => astype_int (default NA (r !! 2%nat))) labels;
      if (length (columns dataframe) <? 4)%nat then Raise IndexError
      else Ok (dict_zip codes ((fun r => default NA (r !! 3%nat)) <$> labels)).

(** Line 11 of [preprocessing.py]. *)
Definition field_names : list string :=
  [ "urban_or_rural_area"; "carriageway_hazards"; "special_conditions_at_site";
    "road_surface_conditions"; "weather_conditions"; "light_conditions";
    "pedestrian_crossing_human_control"; "pedestrian_crossing_physical_facilities";
    "second_road_class"; "junction_control"; "road_type"; "first_road_class";
    "junction_detail"; "day_of_week"; "accident_severity" ].

(** [isinstance(v, float)]: a float64 value, NaN among them. *)
Definition isinstance_float (v : cell) : bool :=
  match v with
  | Num _ | NA | Inf _ => true
  | Text _ | Int _ | Bool _ => false
  end.

(** Lines 19-20. *)
Definition none_label (field_labels : gmap Z cell) : gmap Z cell :=
  match field_labels !! 0 with
  | Some v =>
      if isinstance_float v then <[0 := Text "None"]> field_labels
      else field_labels
  | None => field_labels
  end.

(** The key a cell is equal to, if any: an integer, or a float that is
    one. *)
Definition key_of (c : cell) : option Z :=
  match c with
  | Int z => Some z
  | Num q =>
      if Qnum q mod Z.pos (Qden q) =? 0 then Some (Qnum q / Z.pos (Qden q))
      else None
  | Text _ | NA | Bool _ | Inf _ => None
  end.

(** [col.replace(field_labels)], on one cell, for labels that are strings:
    the cells that are equal to a code are given its label, and the others
    stay what they are.  (A label that is a number or is missing would
    change the dtype of the column, and with it the other cells.) *)
Definition replace (field_labels : gmap Z cell) (c : cell) : cell :=
  match key_of c with
  | Some k => default c (field_labels !! k)
  | None => c
  end.

(** Lines 18-21: the body of the loop. *)
Definition replace_field (accidents_lookups : DataFrame) (accidents : DataFrame)
    (field : string) : result DataFrame :=
  field_labels ← get_labels_easy accidents_lookups field;
  let field_labels := none_label field_labels in
  if has_column field accidents
  then Ok (assign_column field (replace field_labels) accidents)
  else Raise KeyError.

(** Lines 17-21. *)
Fixpoint replace_fields (accidents_lookups : DataFrame) (fields : list string)
    (accidents : DataFrame) : result DataFrame :=
  match fields with
  | [] => Ok accidents
  | field :: fields' =>
      accidents' ← replace_field accidents_lookups accidents field;
      replace_fields accidents_lookups fields' accidents'
  end.

Definition replace_labels (accidents accidents_lookups : DataFrame) : result DataFrame :=
  replace_fields accidents_lookups field_names accidents.


(** The rows of the lookup table for a field, and their (code, label)
    columns. *)
Definition field_rows (dataframe : DataFrame) (field_name : string) : list row :=
  List.filter (fun r => eq_text (cell_at (columns dataframe) "field name" r) field_name)
              (values dataframe).

End Labels.

(** ** Sample inputs *)

(** A reader of unsigned decimal literals, standing for [pd.to_numeric] and
    [int] where a concrete run is evaluated. *)
Definition digit_of (a : ascii) : option Z :=
  let n := Z.of_nat (nat_of_ascii a) in
  if (48 <=? n) && (n <=? 57) then Some (n - 48) else None.

Fixpoint read_digits (s : string) (acc : Z) : option Z :=
  match s with
  | EmptyString => Some acc
  | String a s' =>
      match digit_of a with
      | Some d => read_digits s' (10 * acc + d)
      | None => None
      end
  end.

Definition read_nat (s : string) : option Z :=
  if String.eqb s "" then None else read_digits s 0.

(** The float64 nearest to a natural number, ties to even: the number
    keeps its 53 leading bits. *)
Definition round_to_double (z : Z) : Z :=
  let e := Z.log2 z - 52 in
  if e <=? 0 then z
  else
    let m := Z.shiftr z e in
    let rest := Z.land z (Z.ones e) in
    let half := Z.shiftl 1 (e - 1) in
    Z.shiftl (if (half <? rest) || ((rest =? half) && Z.odd m) then m + 1 else m) e.

(** Decimal fractions are kept as they are written. *)
Definition parse_decimal (s : string) : option literal :=
  match split_last "." s with
  | Some (l, r) =>
      match read_nat l, read_nat r with
      | Some a, Some b =>
          let scale := 10 ^ Z.of_nat (String.length r) in
          Some (FloatLit (Qmake (a * scale + b) (Z.to_pos scale)))
      | _, _ => None
      end
  | None =>
      if String.eqb s "inf" then Some (InfLit false)
      else (fun z => IntLit z (inject_Z (round_to_double z))) <$> read_nat s
  end.

Definition parse_bool (s : string) : option bool :=
  if String.eqb s "True" then Some true
  else if String.eqb s "False" then Some false
  else None.

(** A file system on which every row takes twenty million bytes. *)
Definition size_by_rows (f : parquet_file) : Z :=
  20000000 * Z.of_nat (length (file_rows f)).

(** The libraries of the sample runs. *)
Definition sample_externals : Externals :=
  {| read_number := parse_decimal; read_bool := parse_bool; parse_int := read_nat;
     getsize := size_by_rows |}.

(** A collision file read in three chunks.  The first chunk fixes the
    schema; the second has a row whose year does not parse. *)
Definition sample_columns : list string :=
  ["collision_index"; "collision_year"; "speed_limit"].

Definition sample_schema : schema :=
  [ {| name := "collision_index"; type := Utf8 |};
    {| name := "collision_year"; type := Int64 |};
    {| name := "speed_limit"; type := Double |} ].

Definition sample_chunk1 : DataFrame :=
  {| columns := sample_columns;
     values := [ [Text "a1"; Text "2014"; Text "30"];
                 [Text "a2"; Text "2015"; NA];
                 [Text "a3"; Text "2016"; Text "40.5"] ] |}.

Definition sample_chunk2 : DataFrame :=
  {| columns := sample_columns;
     values := [ [Text "b1"; Text "2020"; NA];
                 [Text "b2"; Text "abc"; Text "20"];
                 [Text "b3"; Text "2024"; Text "60"];
                 [Text "b4"; Text "2025"; Text "70"] ] |}.

Definition sample_chunk3 : DataFrame :=
  {| columns := sample_columns;
     values := [ [Text "c1"; Text "2019"; Text "50"] ] |}.

Definition sample_frame : DataFrame :=
  {| columns := sample_columns;
     values := [ [Text "a1"; Int 2014; Num 30];
                 [Text "a2"; Int 2015; NA];
                 [Text "a3"; Int 2016; Num (81 # 2)] ] |}.

Definition sample_source : csv_source :=
  {| csv_bytes := 600000000;
     first_chunk_schema := Ok sample_schema;
     chunks := [Chunk sample_chunk1; Chunk sample_chunk2; Chunk sample_chunk3];
     whole_frame := Ok sample_frame |}.

(** The same file when reading its second chunk fails. *)
Definition broken_source : csv_source :=
  {| csv_bytes := 600000000;
     first_chunk_schema := Ok sample_schema;
     chunks := [Chunk sample_chunk1; ReadError ParserError];
     whole_frame := Raise ParserError |}.

(** A file of codes read in two chunks.  The first chunk makes the code an
    integer field; the second holds the integer 2^53 + 1 next to a value
    that does not parse. *)
Definition codes_schema : schema :=
  [ {| name := "id"; type := Utf8 |}; {| name := "code"; type := Int64 |} ].

Definition codes_source : csv_source :=
  {| csv_bytes := 600000000;
     first_chunk_schema := Ok codes_schema;
     chunks := [ Chunk {| columns := ["id"; "code"];
                          values := [ [Text "a"; Text "1"] ] |};
                 Chunk {| columns := ["id"; "code"];
                          values := [ [Text "b"; Text "9007199254740993"];
                                      [Text "c"; Text "x"] ] |} ];
     whole_frame := Ok {| columns := ["id"; "code"];
                          values := [ [Text "a"; Text "1"];
                                      [Text "b"; Text "9007199254740993"];
                                      [Text "c"; Text "x"] ] |} |}.

(** A file system on which every row takes thirty million bytes. *)
Definition heavy_externals : Externals :=
  {| read_number := parse_decimal; read_bool := parse_bool; parse_int := read_nat;
     getsize := fun f => 30000000 * Z.of_nat (length (file_rows f)) |}.

(** Two small files, of four rows and of two rows. *)
Definition four_frame : DataFrame :=
  {| columns := ["collision_index"; "casualty_class"];
     values := [ [Text "a1"; Int 1]; [Text "a2"; Int 2];
                 [Text "a3"; Int 3]; [Text "a4"; Int 1] ] |}.

Definition four_rows : csv_source :=
  {| csv_bytes := 1000;
     first_chunk_schema := Ok [ {| name := "collision_index"; type := Utf8 |};
                                {| name := "casualty_class"; type := Int64 |} ];
     chunks := [ Chunk {| columns := ["collision_index"; "casualty_class"];
                          values := [ [Text "a1"; Text "1"]; [Text "a2"; Text "2"];
                                      [Text "a3"; Text "3"]; [Text "a4"; Text "1"] ] |} ];
     whole_frame := Ok four_frame |}.

Definition two_frame : DataFrame :=
  {| columns := ["collision_index"; "casualty_class"];
     values := [ [Text "a1"; Int 1]; [Text "a2"; Int 2] ] |}.

Definition two_rows : csv_source :=
  {| csv_bytes := 1000;
     first_chunk_schema := Ok [ {| name := "collision_index"; type := Utf8 |};
                                {| name := "casualty_class"; type := Int64 |} ];
     chunks := [ Chunk {| columns := ["collision_index"; "casualty_class"];
                          values := [ [Text "a1"; Text "1"]; [Text "a2"; Text "2"] ] |} ];
     whole_frame := Ok two_frame |}.

(** A file below the routing threshold of [main]. *)
Definition small_source : csv_source :=
  {| csv_bytes := 1000;
     first_chunk_schema := Ok sample_schema;
     chunks := [Chunk sample_chunk1];
     whole_frame := Ok sample_frame |}.

Definition sample_path : string := "data/2024_prior/collision-1979-2024.csv".


Definition sample_accidents : DataFrame :=
  {| columns := field_names;
     values := [ (fun _ => Int 0) <$> field_names;
                 (fun _ => Int 1) <$> field_names;
                 (fun _ => Int 7) <$> field_names ] |}.

(** A lookup table whose first code is 2^63. *)
Definition huge_code_lookups : DataFrame :=
  {| columns := ["table"; "field name"; "code/format"; "label"];
     values := [ [Text "Accident"; Text "urban_or_rural_area";
                  Text "9223372036854775808"; Text "Huge"] ] |}.

(** A vehicle file: it has no year column.  In the second source a code
    of the second chunk is no integer. *)
Definition vehicle_schema : schema :=
  [ {| name := "collision_index"; type := Utf8 |};
    {| name := "vehicle_type"; type := Int64 |} ].

Definition vehicle_chunk : DataFrame :=
  {| columns := ["collision_index"; "vehicle_type"];
     values := [ [Text "a1"; Text "9"]; [Text "a2"; Text "1"] ] |}.

Definition vehicle_source : csv_source :=
  {| csv_bytes := 700000000;
     first_chunk_schema := Ok vehicle_schema;
     chunks := [Chunk vehicle_chunk];
     whole_frame := Ok {| columns := ["collision_index"; "vehicle_type"];
                          values := [ [Text "a1"; Int 9]; [Text "a2"; Int 1] ] |} |}.


(** The input files of a run of [main]: a large collision file and a
    small vehicle file; the other four are missing. *)
Definition sample_inputs : gmap string csv_source :=
  <[sample_path := sample_source]>
    (<["data/2025_dataset/vehicle-provisional-2025.csv" := small_source]> ∅).

(** An output directory that holds a part of an earlier run. *)
Definition stale_directory : gmap string parquet_file :=
  {[ "out/collision-1979-2024_part07.parquet" :=
       {| row_groups := [ [ [Text "old"] ] ]; finalized := true |} ]}.

(** ** Accounts of a run *)

(** The paths a log opens a writer on, in order. *)
Definition opened (log : list event) : list string :=
  omap (fun e => match e with Opened p => Some p | _ => None end) log.

(** The test of line 91 on a file: its size is at least 90% of
    [MAX_SIZE_MB]. *)
Definition reached {ext : Externals} (f : parquet_file) : bool :=
  Qle_bool (inject_Z MAX_SIZE_MB * (9 # 10)) (get_file_size_mb f).

(** Two states of the chunked converter that differ at most in the files
    the run has not written: the local variables and the log are the same,
    and so are the recorded files and the open one. *)
Definition same_run (st1 st2 : state) : Prop :=
  output_files st1 = output_files st2 ∧ part_num st1 = part_num st2 ∧
  current_writer st1 = current_writer st2 ∧ current_size st1 = current_size st2 ∧
  total_rows st1 = total_rows st2 ∧ filtered_rows st1 = filtered_rows st2 ∧
  rows_in_current_part st1 = rows_in_current_part st2 ∧
  trace st1 = trace st2 ∧
  ∀ q, q ∈ output_files st1 ∨ current_writer st1 = Some q →
       disk st1 !! q = disk st2 !! q.

(** The paths a job of [main] (a category and an input file) may write:
    the single file and the parts of the input's stem in the directory of
    the category. *)
Definition owned (job : string * string) (q : string) : Prop :=
  q = single_path ("data/parquet/" +:+ job.1) (path_stem job.2) ∨
  ∃ n, q = part_path ("data/parquet/" +:+ job.1) (path_stem job.2) n.

(** What every path of a job starts with. *)
Definition job_prefix (job : string * string) : string :=
  ("data/parquet/" +:+ job.1) +:+ "/" +:+ path_stem job.2.

(** Two strings differ at a position both have. *)
Fixpoint diverge (a b : string) : bool :=
  match a, b with
  | String c a', String d b' => if Ascii.eqb c d then diverge a' b' else true
  | _, _ => false
  end.

(** The prefixes of the jobs of a list diverge pairwise. *)
Fixpoint separate (todo : list (string * string)) : bool :=
  match todo with
  | [] => true
  | job :: rest =>
      forallb (fun job' => diverge (job_prefix job) (job_prefix job')) rest
      && separate rest
  end.

(** A string without a slash. *)
Fixpoint no_slash (s : string) : bool :=
  match s with
  | EmptyString => true
  | String c s' => negb (Ascii.eqb c "/") && no_slash s'
  end.

(** A cell of the file converts under a field of the schema, in a column
    read with the given dtype: it is a string or missing (the file is read
    with [dtype=str]); under an integer field the number it is read as is
    a 64-bit integer, and not negative when the field is unsigned; under a
    floating field an integer of a column read as integers converts to a
    double; under a boolean field pyarrow reads a boolean from it. *)
Definition convertible {ext : Externals} (as_integers : bool) (t : arrow_type)
    (c : cell) : Prop :=
  match c with
  | NA => True
  | Text s =>
      match t with
      | Int64 | UInt64 =>
          match read_number s with
          | Some (IntLit z q) =>
              if as_integers
              then in_int64 z = true ∧ (t = UInt64 → 0 <= z)
              else is_integral q = true ∧ (t = UInt64 → 0 <= Qnum q / Z.pos (Qden q))
          | Some (FloatLit q) =>
              is_integral q = true ∧ (t = UInt64 → 0 <= Qnum q / Z.pos (Qden q))
          | Some (InfLit _) => False
          | None => True
          end
      | Double =>
          as_integers = true → ∀ z, parse_integer s = Some z → fits_double z = true
      | Boolean => is_Some (read_bool s)
      | Utf8 => True
      | Null => False
      end
  | Num _ | Int _ | Bool _ | Inf _ => False
  end.

(** A chunk as the chunked reader yields it fits a schema: the schema has
    no field without a type, the chunk has the columns of the schema, and
    its cells under them convert. *)
Definition fits {ext : Externals} (ms : schema) (year_filter : option (Z * Z))
    (chunk : DataFrame) : Prop :=
  ∀ f, f ∈ ms →
    type f ≠ Null ∧
    has_column (name f) chunk = true ∧
    ∀ r, r ∈ values chunk →
      convertible (reads_integers year_filter chunk (name f)) (type f)
                  (cell_at (columns chunk) (name f) r).

(** * Properties *)

(** ** The result monad *)

Lemma bind_Ok {A B} (m : result A) (k : A -> result B) (b : B) :
  (m ≫= k) = Ok b ↔ ∃ a, m = Ok a ∧ k a = Ok b.
Proof.
  destruct m as [a|e]; simpl; split.
  - intros H. by exists a.
  - by intros (a' & [= ->] & H).
  - discriminate.
  - by intros (a' & [=] & _).
Qed.

Lemma mapM_Ok {A B} (f : A -> result B) (l : list A) (k : list B) :
  mapM f l = Ok k ↔ Forall2 (fun x y => f x = Ok y) l k.
Proof.
  revert k. induction l as [|x l IH]; intros k; simpl.
  - split; [intros [= <-]; constructor | by inversion 1].
  - split.
    + intros H. apply bind_Ok in H as (y & Hy & H).
      apply bind_Ok in H as (ys & Hys & [= <-]).
      constructor; [done | by apply IH].
    + inversion 1 as [|? y ? ys Hy Hys]; subst.
      apply bind_Ok. exists y. split; [done|].
      apply bind_Ok. exists ys. split; [by apply IH | done].
Qed.

Lemma mapM_total {A B} (f : A -> result B) (l : list A) :
  Forall (fun x => ∃ y, f x = Ok y) l → ∃ k, mapM f l = Ok k.
Proof.
  induction 1 as [|x l [y Hy] _ [k Hk]].
  - by exists [].
  - exists (y :: k). apply mapM_Ok. constructor; [done | by apply mapM_Ok].
Qed.

Lemma mapM_pure {A B} (f : A -> B) (l : list A) :
  mapM (fun x => Ok (f x)) l = Ok (f <$> l).
Proof. apply mapM_Ok. induction l; constructor; auto. Qed.

(** ** Columns and cells *)

Lemma column_index_lookup (n : string) (cols : list string) (i : nat) :
  column_index n cols = Some i → cols !! i = Some n.
Proof.
  revert i. induction cols as [|c cols IH]; intros i; simpl; [done|].
  destruct (String.eqb_spec c n) as [->|Hne].
  - by intros [= <-].
  - destruct (column_index n cols) as [j|]; simpl; [|done].
    intros [= <-]. by apply IH.
Qed.

Lemma column_index_None (n : string) (cols : list string) :
  column_index n cols = None ↔ n ∉ cols.
Proof.
  induction cols as [|c cols IH]; simpl.
  - split; [intros _; apply not_elem_of_nil | done].
  - destruct (String.eqb_spec c n) as [->|Hne].
    + split; [done | intros H; destruct H; left].
    + rewrite not_elem_of_cons, <- IH.
      destruct (column_index n cols); simpl; split; try done.
      by intros [_ ?].
Qed.

Lemma has_column_index (n : string) (df : DataFrame) :
  has_column n df = true ↔ is_Some (column_index n (columns df)).
Proof.
  unfold has_column. rewrite bool_decide_eq_true.
  destruct (column_index n (columns df)) as [i|] eqn:E.
  - split; [eauto | intros _].
    apply column_index_lookup in E. by eapply list_elem_of_lookup_2.
  - apply column_index_None in E. split; [done | by intros [? [=]]].
Qed.

Lemma column_index_inj (a b : string) (cols : list string) (i : nat) :
  column_index a cols = Some i → column_index b cols = Some i → a = b.
Proof.
  intros Ha%column_index_lookup Hb%column_index_lookup. congruence.
Qed.

(** A cell seen by name after one column of the row was rewritten. *)
Lemma cell_at_alter (cols : list string) (n m : string) (f : cell -> cell)
    (i : nat) (r : row) :
  f NA = NA →
  column_index m cols = Some i →
  cell_at cols n (alter f i r) =
    if String.eqb n m then f (cell_at cols n r) else cell_at cols n r.
Proof.
  intros HNA Hm. unfold cell_at.
  destruct (String.eqb_spec n m) as [->|Hne].
  - rewrite Hm, list_lookup_alter_eq. by destruct (r !! i).
  - destruct (column_index n cols) as [j|] eqn:Hn; [|done].
    rewrite list_lookup_alter_ne; [done|].
    intros ->. apply Hne. eauto using column_index_inj.
Qed.

Lemma cell_at_alterM (cols : list string) (n m : string) (g : cell -> result cell)
    (i : nat) (r r' : row) :
  g NA = Ok NA →
  column_index m cols = Some i →
  alterM g i r = Ok r' →
  Ok (cell_at cols n r') =
    if String.eqb n m then g (cell_at cols n r) else Ok (cell_at cols n r).
Proof.
  intros HNA Hm Hr. unfold alterM in Hr. unfold cell_at.
  destruct (String.eqb_spec n m) as [->|Hne].
  - rewrite Hm. destruct (r !! i) as [c|] eqn:Hc; simpl in *.
    + apply bind_Ok in Hr as (c' & Hc' & [= <-]).
      rewrite list_lookup_insert_eq by (by eapply lookup_lt_Some).
      by rewrite Hc'.
    + injection Hr as <-. by rewrite Hc, HNA.
  - destruct (column_index n cols) as [j|] eqn:Hn; [|done].
    assert (i ≠ j) by (intros ->; apply Hne; eauto using column_index_inj).
    destruct (r !! i) as [c|] eqn:Hc; simpl in *.
    + apply bind_Ok in Hr as (c' & Hc' & [= <-]).
      by rewrite list_lookup_insert_ne.
    + by injection Hr as <-.
Qed.

Lemma filter_fmap {A B} (p : B -> bool) (f : A -> B) (l : list A) :
  List.filter p (f <$> l) = f <$> List.filter (fun x => p (f x)) l.
Proof.
  induction l as [|x l IH]; [done|].
  rewrite fmap_cons. simpl. rewrite IH.
  by destruct (p (f x)).
Qed.

Lemma Forall2_compose {A B C} (P : A -> B -> Prop) (Q : B -> C -> Prop)
    (R : A -> C -> Prop) (l : list A) (k : list B) (m : list C) :
  (∀ x y z, P x y → Q y z → R x z) →
  Forall2 P l k → Forall2 Q k m → Forall2 R l m.
Proof.
  intros HR HP. revert m. induction HP; inversion 1; subst; constructor; eauto.
Qed.

Lemma Qle_bool_inject_Z (a b : Z) : Qle_bool (inject_Z a) (inject_Z b) = (a <=? b).
Proof. unfold Qle_bool. simpl. by rewrite !Z.mul_1_r. Qed.

(** ** Coercion and the year filter *)

Section Facts.

Context {ext : Externals}.

Lemma to_numeric_NA (b : bool) : to_numeric b NA = NA.
Proof. done. Qed.

Lemma to_numeric_not_Text (b : bool) (c : cell) (s : string) : to_numeric b c ≠ Text s.
Proof.
  destruct c as [s'| | | | |]; simpl; try done.
  destruct b; [by destruct (parse_integer s') | by destruct (read_number s') as [[| |]|]].
Qed.

(** A column that is numeric is left as it is, whatever its dtype. *)
Lemma to_numeric_idem (b b' : bool) (c : cell) :
  to_numeric b' (to_numeric b c) = to_numeric b c.
Proof.
  pose proof (to_numeric_not_Text b c) as H.
  destruct (to_numeric b c); simpl; try done. by destruct (H s).
Qed.

Lemma coerced_cell_NA (b : bool) (t : option arrow_type) : coerced_cell b t NA = Ok NA.
Proof. by destruct t as [[]|]. Qed.

Lemma year_mask_within (b : bool) (yf : Z * Z) (c : cell) :
  ge (to_numeric b c) (fst yf) && le (to_numeric b c) (snd yf) = year_within b yf c.
Proof.
  unfold year_within. destruct (to_numeric b c) as [s|q|z| |d|n]; simpl; try done.
  - by rewrite !Qle_bool_inject_Z.
  - by destruct n.
Qed.

(** The dtype of a column depends on its cells only. *)
Lemma integer_column_ext (n : string) (df df' : DataFrame) :
  Forall2 (fun r r' => cell_at (columns df) n r = cell_at (columns df') n r')
          (values df) (values df') →
  integer_column n df = integer_column n df'.
Proof.
  unfold integer_column. intros H. f_equal.
  - induction H as [|r r' rs rs' Hr _ IH]; [done|]. simpl. by rewrite Hr, IH.
  - induction H as [|r r' rs rs' Hr _ IH]; [done|]. simpl. by rewrite Hr, IH.
Qed.

Lemma assign_column_cells (m : string) (f : cell -> cell) (df : DataFrame) :
  f NA = NA →
  columns (assign_column m f df) = columns df ∧
  Forall2 (fun r r' => ∀ n,
             cell_at (columns df) n r' =
               if String.eqb n m then f (cell_at (columns df) n r)
               else cell_at (columns df) n r)
          (values df) (values (assign_column m f df)).
Proof.
  intros HNA. unfold assign_column.
  destruct (column_index m (columns df)) as [i|] eqn:Hi; simpl.
  - split; [done|]. apply Forall2_fmap_r, Forall_Forall2_diag, Forall_forall.
    intros r _ n. by apply cell_at_alter.
  - split; [done|]. apply Forall_Forall2_diag, Forall_forall. intros r _ n.
    destruct (String.eqb_spec n m) as [->|]; [|done].
    unfold cell_at. by rewrite Hi, HNA.
Qed.

Lemma assign_columnM_cells (m : string) (g : cell -> result cell) (df df' : DataFrame) :
  g NA = Ok NA →
  assign_columnM m g df = Ok df' →
  columns df' = columns df ∧
  Forall2 (fun r r' => ∀ n,
             Ok (cell_at (columns df) n r') =
               if String.eqb n m then g (cell_at (columns df) n r)
               else Ok (cell_at (columns df) n r))
          (values df) (values df').
Proof.
  intros HNA. unfold assign_columnM.
  destruct (column_index m (columns df)) as [i|] eqn:Hi.
  - intros (rows & Hrows & [= <-])%bind_Ok. simpl. split; [done|].
    apply mapM_Ok in Hrows. eapply Forall2_impl; [exact Hrows|].
    intros r r' Hr n. by eapply cell_at_alterM.
  - intros [= <-]. split; [done|].
    apply Forall_Forall2_diag, Forall_forall. intros r _ n.
    destruct (String.eqb_spec n m) as [->|]; [|done].
    unfold cell_at. by rewrite Hi, HNA.
Qed.

Lemma integer_column_elem (n : string) (df : DataFrame) (r : row) :
  integer_column n df = true → r ∈ values df →
  reads_as_integer (cell_at (columns df) n r) = true.
Proof.
  unfold integer_column, reads_as_integer. intros Hall Hr%list_elem_of_In.
  assert (∀ fits c, fits_integers fits c = true →
            fits_integers (fun _ => true) c = true) as Hweak.
  { intros fits [s| | | | |]; simpl; try done. by destruct (parse_integer s). }
  apply orb_prop in Hall as [Hall|Hall]; rewrite forallb_forall in Hall;
    eapply Hweak, Hall, Hr.
Qed.

(** One field of the schema: its column is coerced, the others are kept. *)
Lemma coerce_field_cells (chunk chunk' : DataFrame) (f : field) :
  coerce_field chunk f = Ok chunk' →
  columns chunk' = columns chunk ∧
  Forall2 (fun r r' => ∀ n,
             Ok (cell_at (columns chunk) n r') =
               if String.eqb n (name f)
               then coerced_cell (integer_column n chunk) (Some (type f))
                      (cell_at (columns chunk) n r)
               else Ok (cell_at (columns chunk) n r))
          (values chunk) (values chunk').
Proof.
  unfold coerce_field. intros H.
  assert (Hid : ∀ b, is_integer (type f) = false → is_floating (type f) = false →
    columns chunk = columns chunk ∧
    Forall2 (fun r r' : row => ∀ n, Ok (cell_at (columns chunk) n r') =
               if String.eqb n (name f)
               then coerced_cell b (Some (type f)) (cell_at (columns chunk) n r)
               else Ok (cell_at (columns chunk) n r))
            (values chunk) (values chunk)).
  { intros b Hi Hf. split; [done|]. apply Forall_Forall2_diag, Forall_forall.
    intros r _ n. destruct (String.eqb n (name f)); [|done].
    by destruct (type f). }
  assert (Hsame : ∀ g : bool → cell → result cell,
    Forall2 (fun r r' : row => ∀ n, Ok (cell_at (columns chunk) n r') =
               if String.eqb n (name f)
               then g (integer_column (name f) chunk) (cell_at (columns chunk) n r)
               else Ok (cell_at (columns chunk) n r))
            (values chunk) (values chunk') →
    Forall2 (fun r r' : row => ∀ n, Ok (cell_at (columns chunk) n r') =
               if String.eqb n (name f)
               then g (integer_column n chunk) (cell_at (columns chunk) n r)
               else Ok (cell_at (columns chunk) n r))
            (values chunk) (values chunk')).
  { intros g Hg. eapply Forall2_impl; [exact Hg|]. intros r r' Hr n.
    rewrite (Hr n). by destruct (String.eqb_spec n (name f)) as [->|]. }
  destruct (has_column (name f) chunk) eqn:Hcol.
  - destruct (type f) eqn:Ht; simpl in H.
    + apply assign_columnM_cells in H as [Hc Hv]; [|done]. split; [done|].
      by apply (Hsame (fun b c => astype_Int64 (to_numeric b c))).
    + apply assign_columnM_cells in H as [Hc Hv]; [|done]. split; [done|].
      by apply (Hsame (fun b c => astype_Int64 (to_numeric b c))).
    + injection H as <-.
      destruct (assign_column_cells (name f)
                  (to_numeric (integer_column (name f) chunk)) chunk eq_refl) as [Hc Hv].
      split; [done|]. apply (Hsame (fun b c => Ok (to_numeric b c))).
      eapply Forall2_impl; [exact Hv|].
      intros r r' Hr n. rewrite Hr. by destruct (String.eqb n (name f)).
    + injection H as <-. by apply (Hid false).
    + injection H as <-. by apply (Hid false).
    + injection H as <-. by apply (Hid false).
  - injection H as <-. split; [done|].
    apply Forall_Forall2_diag, Forall_forall. intros r _ n.
    destruct (String.eqb_spec n (name f)) as [->|]; [|done].
    assert (column_index (name f) (columns chunk) = None) as Hnone.
    { destruct (column_index (name f) (columns chunk)) eqn:E; [|done].
      assert (has_column (name f) chunk = true) by (apply has_column_index; eauto).
      congruence. }
    unfold cell_at. rewrite Hnone. by rewrite coerced_cell_NA.
Qed.

Lemma declared_type_None (ms : schema) (n : string) :
  n ∉ name <$> ms → declared_type ms n = None.
Proof.
  induction ms as [|f ms IH]; simpl; [done|].
  rewrite not_elem_of_cons. intros [Hne Hnot].
  destruct (String.eqb_spec (name f) n); [congruence | auto].
Qed.

(** Coercing one field leaves the dtype of the other columns as it is. *)
Lemma coerce_field_dtype (chunk chunk' : DataFrame) (f : field) (n : string) :
  coerce_field chunk f = Ok chunk' → n ≠ name f →
  integer_column n chunk' = integer_column n chunk.
Proof.
  intros [Hc Hv]%coerce_field_cells Hne. symmetry. apply integer_column_ext.
  eapply Forall2_impl; [exact Hv|]. intros r r' Hr. specialize (Hr n).
  rewrite Hc. destruct (String.eqb_spec n (name f)); [done|]. by injection Hr.
Qed.

Lemma coerce_chunk_cells (ms : schema) (chunk chunk' : DataFrame) :
  NoDup (name <$> ms) →
  coerce_chunk ms chunk = Ok chunk' →
  columns chunk' = columns chunk ∧
  Forall2 (fun r r' => ∀ n,
             Ok (cell_at (columns chunk) n r') =
               coerced_cell (integer_column n chunk) (declared_type ms n)
                 (cell_at (columns chunk) n r))
          (values chunk) (values chunk').
Proof.
  revert chunk. induction ms as [|f ms IH]; intros chunk Hnd H.
  - injection H as <-. split; [done|].
    apply Forall_Forall2_diag, Forall_forall. by intros r _ n.
  - cbn [coerce_chunk] in H. apply bind_Ok in H as (chunk1 & H1 & H2).
    rewrite fmap_cons in Hnd. apply NoDup_cons in Hnd as [Hf Hnd].
    pose proof (fun n => coerce_field_dtype _ _ _ n H1) as Hdtype.
    apply coerce_field_cells in H1 as [Hc1 Hv1].
    apply IH in H2 as [Hc2 Hv2]; [|done].
    split; [congruence|].
    eapply Forall2_compose; [|exact Hv1|exact Hv2].
    intros r r1 r' Hr1 Hr'. cbv beta in *. intros n.
    rewrite Hc1 in Hr'. specialize (Hr1 n). specialize (Hr' n).
    rewrite String.eqb_sym in Hr1. cbn [declared_type].
    destruct (String.eqb_spec (name f) n) as [Heq|Hne].
    + subst n. rewrite (declared_type_None _ _ Hf) in Hr'.
      cbn [coerced_cell] in Hr'. congruence.
    + injection Hr1 as Hr1. rewrite <- Hr1, <- Hdtype; [done|congruence].
Qed.

Lemma coerce_field_total (chunk : DataFrame) (f : field) :
  (is_integer (type f) = true → ∀ r, r ∈ values chunk →
     ∃ c', astype_Int64 (to_numeric (integer_column (name f) chunk)
                           (cell_at (columns chunk) (name f) r)) = Ok c') →
  ∃ chunk1, coerce_field chunk f = Ok chunk1.
Proof.
  intros Hcast. unfold coerce_field.
  destruct (has_column (name f) chunk); [|eauto].
  destruct (is_integer (type f)); [|destruct (is_floating (type f)); eauto].
  unfold assign_columnM.
  destruct (column_index (name f) (columns chunk)) as [i|] eqn:Hi; [|eauto].
  destruct (mapM_total
              (alterM (fun c => astype_Int64 (to_numeric (integer_column (name f) chunk) c)) i)
              (values chunk))
    as [rows Hrows].
  - apply Forall_forall. intros r Hr.
    destruct (Hcast eq_refl r Hr) as [c' Hc']. unfold alterM.
    unfold cell_at in Hc'. rewrite Hi in Hc'.
    destruct (r !! i) as [c|]; simpl in *; [|eauto].
    rewrite Hc'. simpl. eauto.
  - rewrite Hrows. simpl. eauto.
Qed.

Lemma coerce_chunk_total (ms : schema) (chunk : DataFrame) :
  NoDup (name <$> ms) →
  (∀ r n t, r ∈ values chunk → declared_type ms n = Some t → is_integer t = true →
     ∃ c', astype_Int64 (to_numeric (integer_column n chunk)
                           (cell_at (columns chunk) n r)) = Ok c') →
  ∃ chunk', coerce_chunk ms chunk = Ok chunk'.
Proof.
  revert chunk. induction ms as [|f ms IH]; intros chunk Hnd Hcast.
  - by exists chunk.
  - rewrite fmap_cons in Hnd. apply NoDup_cons in Hnd as [Hf Hnd].
    destruct (coerce_field_total chunk f) as [chunk1 H1].
    { intros Ht r Hr. apply (Hcast r (name f) (type f)); [done| |done].
      cbn [declared_type]. by rewrite String.eqb_refl. }
    cbn [coerce_chunk]. rewrite H1. simpl.
    pose proof (fun n => coerce_field_dtype _ _ _ n H1) as Hdtype.
    apply coerce_field_cells in H1 as [Hc1 Hv1].
    apply IH; [done|]. intros r1 n t Hr1 Hn Ht.
    apply list_elem_of_lookup in Hr1 as [j Hj].
    destruct (Forall2_lookup_r _ _ _ _ _ Hv1 Hj) as (r & Hr & Hrel).
    specialize (Hrel n). rewrite Hc1.
    destruct (String.eqb_spec n (name f)) as [->|Hne].
    + by rewrite (declared_type_None _ _ Hf) in Hn.
    + injection Hrel as ->. rewrite (Hdtype n Hne). apply (Hcast r n t).
      * by eapply list_elem_of_lookup_2.
      * cbn [declared_type].
        destruct (String.eqb_spec (name f) n); [congruence | done].
      * done.
Qed.


(** The rows of a filtered chunk. *)
Lemma apply_year_filter_values (yf : Z * Z) (chunk : DataFrame) (i : nat) :
  column_index "collision_year" (columns chunk) = Some i →
  columns (apply_year_filter yf chunk) = columns chunk ∧
  values (apply_year_filter yf chunk) =
    alter (to_numeric (integer_column "collision_year" chunk)) i <$>
      List.filter (fun r => year_within (integer_column "collision_year" chunk) yf
                              (cell_at (columns chunk) "collision_year" r))
                  (values chunk).
Proof.
  intros Hi. unfold apply_year_filter, select_rows, assign_column.
  rewrite Hi. simpl. split; [done|].
  rewrite filter_fmap. f_equal. apply filter_ext. intros r.
  unfold year_mask. rewrite (cell_at_alter _ _ _ _ _ _ eq_refl Hi).
  rewrite String.eqb_refl. apply year_mask_within.
Qed.

(** ** Part paths *)

Lemma append_cons (c : ascii) (a s : string) :
  String c a +:+ s = String c (a +:+ s).
Proof. reflexivity. Qed.

Lemma length_append (a s : string) :
  String.length (a +:+ s) = (String.length a + String.length s)%nat.
Proof.
  induction a as [|c a IH]; [done|].
  rewrite append_cons. simpl. by rewrite IH.
Qed.

Lemma append_inj_r (a b s : string) : a +:+ s = b +:+ s → a = b.
Proof.
  revert b. induction a as [|c a IH]; intros [|d b] H.
  - done.
  - apply (f_equal String.length) in H.
    rewrite !length_append in H. simpl in H. lia.
  - apply (f_equal String.length) in H.
    rewrite !length_append in H. simpl in H. lia.
  - rewrite !append_cons in H. injection H as -> H. f_equal. by apply IH.
Qed.

Lemma append_inj_l (s a b : string) : s +:+ a = s +:+ b → a = b.
Proof.
  induction s as [|c s IH]; [done|].
  rewrite !append_cons. intros [= H]. by apply IH.
Qed.

Lemma format_02d_read (n : nat) :
  Nat.of_uint <$> NilEmpty.uint_of_string (format_02d n) = Some n.
Proof.
  unfold format_02d, decimal.
  destruct (n <? 10)%nat.
  - change ("0" +:+ ?s) with (String "0" s). cbn [NilEmpty.uint_of_string].
    rewrite NilEmpty.usu. simpl. f_equal.
    change (Nat.of_uint (Decimal.D0 ?d)) with (Nat.of_uint d).
    apply DecimalNat.Unsigned.of_to.
  - rewrite NilEmpty.usu. simpl. f_equal. apply DecimalNat.Unsigned.of_to.
Qed.

Lemma format_02d_inj (n m : nat) : format_02d n = format_02d m → n = m.
Proof.
  intros H. apply (f_equal (fun s => Nat.of_uint <$> NilEmpty.uint_of_string s)) in H.
  rewrite !format_02d_read in H. by injection H.
Qed.

Lemma part_path_inj (output_dir base_name : string) (n m : nat) :
  part_path output_dir base_name n = part_path output_dir base_name m → n = m.
Proof.
  unfold part_path. intros H.
  do 4 apply append_inj_l in H.
  by apply append_inj_r, format_02d_inj in H.
Qed.

(** ** The writer protocol *)

Lemma replay_snoc (log : list event) (e : event) :
  replay (log ++ [e]) = view_step (replay log) e.
Proof. unfold replay. by rewrite foldl_app. Qed.

Lemma appended_app (log1 log2 : list event) :
  appended (log1 ++ log2) = appended log1 ++ appended log2.
Proof. apply omap_app. Qed.

Lemma replay_app_Some (log1 log2 : list event) (v : writer_view) :
  replay (log1 ++ log2) = Some v → ∃ v1, replay log1 = Some v1.
Proof.
  revert v. induction log2 as [|e log2 IH] using rev_ind; intros v.
  - rewrite app_nil_r. eauto.
  - rewrite app_assoc, replay_snoc.
    destruct (replay (log1 ++ log2)) as [v'|] eqn:E; [|done].
    intros _. by eapply IH.
Qed.

(** In a log that follows the protocol the last event is [Closed p]
    exactly when the view says so. *)
Lemma replay_just_closed (log : list event) (v : writer_view) (p : string) :
  replay log = Some v → just_closed v = Some p →
  ∃ log', log = log' ++ [Closed p].
Proof.
  destruct log as [|e log _] using rev_ind; [by intros [= <-]|].
  rewrite replay_snoc. destruct (replay log) as [v'|]; [|done]. simpl.
  destruct e; case_bool_decide; intros [= <-]; simpl; try done.
  intros [= ->]. eauto.
Qed.

(** The open writers of a log that follows the protocol are the one its
    view shows, and a closed path is not the open one. *)
Lemma replay_open_writers (log : list event) (v : writer_view) :
  replay log = Some v →
  open_writers log = from_option (fun p => [p]) [] (open_path v) ∧
  (∀ p, open_path v = Some p → p ∉ closed_paths v).
Proof.
  revert v. induction log as [|e log IH] using rev_ind; intros v.
  - intros [= <-]. by split.
  - rewrite replay_snoc. unfold open_writers. rewrite foldl_app. simpl.
    fold (open_writers log).
    destruct (replay log) as [v'|]; [|done].
    destruct (IH v' eq_refl) as [Hopen Hfresh]. simpl.
    destruct e as [p|p tbl|p|p]; case_bool_decide as Hd; intros [= <-]; simpl.
    + destruct Hd as [Hnone Hp]. rewrite Hopen, Hnone. split; [done|].
      by intros ? [= <-].
    + rewrite Hopen, Hd. split; [done|]. intros ? [= <-]. by apply Hfresh.
    + rewrite Hopen, Hd. simpl. by rewrite String.eqb_refl.
    + split; [done|]. apply Hfresh.
Qed.

(** In a log that follows the protocol a path is
    appended only right after it was closed, at most one writer is open
    after every prefix, and a closed path is neither written nor opened
    again. *)
Lemma replay_protocol (log : list event) (v : writer_view) :
  replay log = Some v →
  (∀ pre p suf, log = pre ++ Appended p :: suf → ∃ pre', pre = pre' ++ [Closed p]) ∧
  (∀ pre suf, log = pre ++ suf → (length (open_writers pre) <= 1)%nat) ∧
  (∀ pre p suf e, log = pre ++ Closed p :: suf → e ∈ suf →
     e ≠ Opened p ∧ ∀ tbl, e ≠ Wrote p tbl).
Proof.
  intros Hlog. split; [|split].
  - intros pre p suf ->.
    replace (pre ++ Appended p :: suf) with ((pre ++ [Appended p]) ++ suf) in Hlog
      by by rewrite <- app_assoc.
    apply replay_app_Some in Hlog as [v1 Hv1]. rewrite replay_snoc in Hv1.
    destruct (replay pre) as [v0|] eqn:Hpre; [|done]. simpl in Hv1.
    case_bool_decide; [|done]. by eapply replay_just_closed.
  - intros pre suf ->. apply replay_app_Some in Hlog as [v1 Hv1].
    apply replay_open_writers in Hv1 as [-> _].
    destruct (open_path v1); simpl; lia.
  - intros pre p suf e -> He.
    assert (∀ suf v, replay ((pre ++ [Closed p]) ++ suf) = Some v → p ∈ closed_paths v)
      as Hclosed.
    { clear. intros suf. induction suf as [|e suf IH] using rev_ind; intros v.
      - rewrite app_nil_r, replay_snoc.
        destruct (replay pre) as [v0|]; [|done]. simpl.
        case_bool_decide; [|done]. intros [= <-]. simpl.
        apply elem_of_app. right. by left.
      - rewrite app_assoc, replay_snoc.
        destruct (replay ((pre ++ [Closed p]) ++ suf)) as [v0|]; [|done].
        specialize (IH v0 eq_refl). simpl.
        destruct e; case_bool_decide; intros [= <-]; simpl; try done.
        apply elem_of_app. by left. }
    apply list_elem_of_split in He as (suf1 & suf2 & ->).
    replace (pre ++ Closed p :: suf1 ++ e :: suf2)
      with ((((pre ++ [Closed p]) ++ suf1) ++ [e]) ++ suf2) in Hlog
      by by rewrite <- !app_assoc.
    apply replay_app_Some in Hlog as [v1 Hv1]. rewrite replay_snoc in Hv1.
    destruct (replay ((pre ++ [Closed p]) ++ suf1)) as [v0|] eqn:Hv0; [|done].
    pose proof (Hclosed _ _ Hv0) as Hp.
    apply replay_open_writers in Hv0 as [_ Hfresh].
    split; [|intros tbl]; intros ->; simpl in Hv1; case_bool_decide as Hd; try done.
    + by destruct Hd.
    + by apply Hfresh in Hd.
Qed.

(** ** Files of the output directory *)

Lemma file_rows_append_group (tbl : list row) (f : parquet_file) :
  file_rows (append_group tbl f) = file_rows f ++ tbl.
Proof. unfold file_rows. simpl. rewrite concat_app. simpl. by rewrite app_nil_r. Qed.

Lemma rows_at_alter_finalize (dsk : gmap string parquet_file) (p q : string) :
  rows_at (alter finalize p dsk) q = rows_at dsk q.
Proof.
  unfold rows_at. destruct (decide (p = q)) as [->|Hne].
  - rewrite lookup_alter_eq. by destruct (dsk !! q).
  - by rewrite lookup_alter_ne.
Qed.

Lemma rows_at_alter_append (dsk : gmap string parquet_file) (p : string)
    (tbl : list row) (f : parquet_file) :
  dsk !! p = Some f →
  rows_at (alter (append_group tbl) p dsk) p = rows_at dsk p ++ tbl.
Proof.
  intros Hf. unfold rows_at. rewrite lookup_alter_eq, Hf. simpl.
  apply file_rows_append_group.
Qed.

Lemma rows_at_ext (dsk dsk' : gmap string parquet_file) (paths : list string) :
  (∀ p, p ∈ paths → dsk' !! p = dsk !! p) →
  rows_at dsk' <$> paths = rows_at dsk <$> paths.
Proof.
  intros Heq. apply list_fmap_ext. intros i p Hp. unfold rows_at.
  rewrite Heq; [done|]. by eapply list_elem_of_lookup_2.
Qed.

(** ** One iteration of the loop *)

Section LoopFacts.

Variable output_path : string.
Variable base_name : string.
Variable master_schema : schema.
Variable year_filter : option (Z * Z).

Local Abbreviation path := (part_path output_path base_name).
Local Abbreviation wf := (well_formed output_path base_name).

Lemma seq_snoc (n : nat) : (1 <= n)%nat → seq 1 n = seq 1 (n - 1) ++ [n].
Proof.
  intros Hn. replace n with ((n - 1) + 1)%nat at 1 by lia.
  rewrite seq_app. simpl. do 2 f_equal. lia.
Qed.

(** The current part is none of the recorded ones. *)
Lemma current_not_recorded (st : state) :
  wf st → path (part_num st) ∉ output_files st.
Proof.
  intros Hwf. rewrite (wf_outputs _ _ _ Hwf).
  intros (k & Hk & Hin)%list_elem_of_fmap.
  apply part_path_inj in Hk. subst k.
  apply elem_of_seq in Hin. lia.
Qed.

Lemma extends_refl (st : state) : extends st st [].
Proof. split; try done. by rewrite app_nil_r. Qed.

Lemma extends_trans (st1 st2 st3 : state) (rows1 rows2 : list row) :
  extends st1 st2 rows1 → extends st2 st3 rows2 →
  extends st1 st3 (rows1 ++ rows2).
Proof.
  intros [Hr1 Hs1 Ho1 Ht1] [Hr2 Hs2 Ho2 Ht2]. split.
  - by rewrite Hr2, Hr1, app_assoc.
  - intros p Hp. rewrite Hs2, Hs1; [done..|].
    destruct Ho1 as [k ->]. apply elem_of_app. by left.
  - by etrans.
  - by etrans.
Qed.

(** A state that differs in its counters only. *)
Lemma counters_only (st st' : state) :
  output_files st' = output_files st → part_num st' = part_num st →
  current_writer st' = current_writer st → disk st' = disk st →
  trace st' = trace st →
  (wf st → wf st') ∧ (below_threshold st → below_threshold st') ∧ extends st st' [].
Proof.
  intros Ho Hp Hw Hd Ht. split; [|split].
  - intros [H1 H2 H3 H4 H5 H6]. split; rewrite ?Ho, ?Hp, ?Hw, ?Hd, ?Ht; auto.
  - unfold below_threshold. rewrite Hw, Hd. auto.
  - split; rewrite ?Ho, ?Hd, ?Ht; try done.
    unfold shard_rows. by rewrite Ho, Hd, Hw, app_nil_r.
Qed.

Lemma open_writer_spec (st : state) :
  wf st →
  wf (open_writer output_path base_name st) ∧
  extends st (open_writer output_path base_name st) [] ∧
  current_writer (open_writer output_path base_name st) = Some (path (part_num st)) ∧
  part_num (open_writer output_path base_name st) = part_num st ∧
  output_files (open_writer output_path base_name st) = output_files st.
Proof.
  intros Hwf. pose proof (current_not_recorded st Hwf) as Hfresh.
  unfold open_writer.
  destruct (current_writer st) as [p|] eqn:Hw.
  - destruct (wf_writer _ _ _ Hwf p Hw) as [-> _].
    split; [done|]. split; [apply extends_refl|done].
  - destruct Hwf as [H1 H2 H3 H4 H5 H6]. split; [|split; [|done]].
    + split; simpl; try done.
      * intros p [= <-]. split; [done|]. exists new_file.
        by rewrite lookup_insert_eq.
      * intros p Hp. rewrite lookup_insert_ne; [by apply H4|].
        by intros <-.
      * rewrite replay_snoc, H5. simpl. by rewrite bool_decide_eq_true_2.
      * by rewrite appended_app, H6, app_nil_r.
    + split; simpl; try done.
      * unfold shard_rows. simpl. rewrite Hw. simpl.
        rewrite (rows_at_ext (disk st)).
        -- unfold rows_at at 2. by rewrite lookup_insert_eq, !app_nil_r.
        -- intros p Hp. rewrite lookup_insert_ne; [done|]. by intros <-.
      * intros p Hp. rewrite lookup_insert_ne; [done|]. by intros <-.
      * by apply prefix_app_r.
Qed.

Lemma write_table_spec (st : state) (p : string) (tbl : list row) :
  wf st → current_writer st = Some p →
  wf (write_table p tbl st) ∧ extends st (write_table p tbl st) tbl.
Proof.
  intros Hwf Hw. pose proof (current_not_recorded st Hwf) as Hfresh.
  destruct Hwf as [H1 H2 H3 H4 H5 H6].
  destruct (H3 p Hw) as (-> & f & Hf & Hfin). split.
  - split; simpl; try done.
    + intros p Hp. destruct (H3 p Hp) as [-> _]. split; [done|].
      exists (append_group tbl f). by rewrite lookup_alter_eq, Hf.
    + intros p Hp. rewrite lookup_alter_ne; [by apply H4|]. by intros <-.
    + rewrite replay_snoc, H5, Hw. simpl. by rewrite bool_decide_eq_true_2.
    + by rewrite appended_app, H6, app_nil_r.
  - split; simpl; try done.
    + unfold shard_rows. simpl. rewrite Hw. simpl.
      rewrite (rows_at_ext (disk st)).
      * by rewrite (rows_at_alter_append _ _ _ f), app_assoc.
      * intros p Hp. rewrite lookup_alter_ne; [done|]. by intros <-.
    + intros p Hp. rewrite lookup_alter_ne; [done|]. by intros <-.
    + by apply prefix_app_r.
Qed.

Lemma seal_spec (st : state) (p : string) (size : Q) :
  wf st → current_writer st = Some p →
  wf (seal p size st) ∧ extends st (seal p size st) [].
Proof.
  intros Hwf Hw. pose proof (current_not_recorded st Hwf) as Hfresh.
  destruct Hwf as [H1 H2 H3 H4 H5 H6].
  destruct (H3 p Hw) as (-> & f & Hf & Hfin). split.
  - split; simpl; try done.
    + lia.
    + rewrite H2, Nat.sub_0_r, (seq_snoc (part_num st)) by done.
      by rewrite fmap_app.
    + intros p [Hp| ->%list_elem_of_singleton]%elem_of_app.
      * rewrite lookup_alter_ne; [by apply H4|]. by intros <-.
      * exists (finalize f). by rewrite lookup_alter_eq, Hf.
    + replace (trace st ++ [Closed (path (part_num st)); Appended (path (part_num st))])
        with ((trace st ++ [Closed (path (part_num st))]) ++ [Appended (path (part_num st))])
        by by rewrite <- app_assoc.
      rewrite !replay_snoc, H5, Hw. simpl.
      rewrite bool_decide_eq_true_2 by done. simpl.
      by rewrite bool_decide_eq_true_2.
    + by rewrite appended_app, H6.
  - split; simpl.
    + unfold shard_rows. simpl. rewrite Hw. simpl.
      rewrite fmap_app, concat_app. simpl.
      rewrite !rows_at_alter_finalize, !app_nil_r. f_equal.
      f_equal. apply list_fmap_ext. intros i q _. apply rows_at_alter_finalize.
    + intros p Hp. rewrite lookup_alter_ne; [done|]. by intros <-.
    + by apply prefix_app_r.
    + by apply prefix_app_r.
Qed.

Lemma check_size_spec (st : state) (p : string) :
  wf st → current_writer st = Some p →
  wf (check_size p st) ∧ below_threshold (check_size p st) ∧
  extends st (check_size p st) [].
Proof.
  intros Hwf Hw. unfold check_size.
  destruct (wf_writer _ _ _ Hwf p Hw) as (_ & f & Hf & _). rewrite Hf.
  destruct (Qle_bool _ (get_file_size_mb f)) eqn:Hsize.
  - destruct (seal_spec st p (get_file_size_mb f) Hwf Hw) as [Hwf' Hext].
    split; [done|]. split; [|done]. by intros q g [=].
  - destruct (counters_only st (set_current_size (get_file_size_mb f) st))
      as (Hwf' & _ & Hext); try done.
    split; [by apply Hwf'|]. split; [|done].
    intros q g Hq Hg. simpl in *. congruence.
Qed.

(** ** The data path of one chunk *)

Lemma Forall2_and_l {A B} (P : A -> B -> Prop) (Q : A -> Prop) (l : list A) (k : list B) :
  Forall2 P l k → Forall Q l → Forall2 (fun x y => Q x ∧ P x y) l k.
Proof. induction 1; inversion 1; subst; constructor; auto. Qed.

Lemma Forall2_eq_fmap {A B} (g : A -> B) (l : list A) (k : list B) :
  Forall2 (fun x y => y = g x) l k → k = g <$> l.
Proof. induction 1; [done|]. rewrite fmap_cons. congruence. Qed.

Lemma Forall_filter_true {A} (p : A -> bool) (l : list A) :
  Forall (fun x => p x = true) (List.filter p l).
Proof. apply Forall_forall. intros x Hx%list_elem_of_In%filter_In. tauto. Qed.

Lemma filter_all {A} (p : A -> bool) (l : list A) :
  (∀ x, p x = true) → List.filter p l = l.
Proof.
  intros Hp. induction l as [|x l IH]; simpl; [done|]. by rewrite Hp, IH.
Qed.

Lemma declared_type_elem (ms : schema) (f : field) :
  NoDup (name <$> ms) → f ∈ ms → declared_type ms (name f) = Some (type f).
Proof.
  induction ms as [|g ms IH]; [by intros _ ?%elem_of_nil|].
  rewrite fmap_cons. intros [Hg Hnd]%NoDup_cons [->|Hf]%elem_of_cons.
  - cbn [declared_type]. by rewrite String.eqb_refl.
  - cbn [declared_type]. destruct (String.eqb_spec (name g) (name f)) as [Heq|_].
    + destruct Hg. rewrite Heq. apply list_elem_of_fmap. eauto.
    + by apply IH.
Qed.

Lemma year_within_numeric (b : bool) (yf : Z * Z) (c : cell) :
  year_within b yf c = true → ∃ q, numeric_value (to_numeric b c) = Some q.
Proof. unfold year_within. destruct (numeric_value _); [eauto | done]. Qed.

(** What is written for a cell: its value under the type of its field.
    [c0] is the cell of the file, [c1] the cell after the year filter, [b]
    the dtype the column of the file is read with, and [b'] the dtype the
    coercion of line 68 or 70 finds. *)
Lemma written_cell (b b' : bool) (t : arrow_type) (c0 c1 c2 y : cell) :
  (c1 = c0 ∧ b' = b) ∨
  (c1 = to_numeric b c0 ∧ ∃ q, numeric_value (to_numeric b c0) = Some q) →
  coerced_cell b' (Some t) c1 = Ok c2 →
  conform t c2 = Ok y →
  y = typed_cell b t c0.
Proof.
  intros Hc1 Hc2 Hy.
  assert (to_numeric b' c1 = to_numeric b c0) as Hnum.
  { destruct Hc1 as [[-> ->]|[-> _]]; [done | apply to_numeric_idem]. }
  pose proof (to_numeric_not_Text b c0) as HnT.
  destruct t; simpl in *; rewrite ?Hnum in Hc2.
  - destruct (to_numeric b c0) as [s|q|z| |d|n]; simpl in *;
      repeat (case_match; try done); by simplify_eq.
  - destruct (to_numeric b c0) as [s|q|z| |d|n]; simpl in *;
      repeat (case_match; try done); simplify_eq; simpl in *;
      repeat (case_match; try done); by simplify_eq.
  - injection Hc2 as <-.
    destruct (to_numeric b c0) as [s|q|z| |d|n]; simpl in *;
      repeat (case_match; try done); by simplify_eq.
  - injection Hc2 as <-.
    destruct Hc1 as [[-> _]|[-> [q Hq]]].
    + destruct c0 as [s| | | |d|n]; simpl in *;
        repeat (case_match; try done); by simplify_eq.
    + destruct (to_numeric b c0); simpl in *; done.
  - injection Hc2 as <-.
    destruct Hc1 as [[-> _]|[-> [q Hq]]].
    + destruct c0; simpl in *; by simplify_eq.
    + destruct (to_numeric b c0); simpl in *; done.
  - done.
Qed.

(** What is written for the year of a row the filter kept lies within the
    bounds. *)
Lemma written_year (b b' : bool) (yf : Z * Z) (t : arrow_type) (c0 c2 y : cell) :
  year_within b yf c0 = true →
  coerced_cell b' (Some t) (to_numeric b c0) = Ok c2 →
  conform t c2 = Ok y →
  ∃ q, numeric_value y = Some q ∧
       Qle_bool (inject_Z (fst yf)) q && Qle_bool q (inject_Z (snd yf)) = true.
Proof.
  unfold year_within. intros Hyear Hc2 Hy.
  assert (∀ q, Qle_bool (inject_Z (fst yf)) q && Qle_bool q (inject_Z (snd yf)) = true →
            is_integral q = true →
            Qle_bool (inject_Z (fst yf)) (inject_Z (Qnum q / Z.pos (Qden q))) &&
            Qle_bool (inject_Z (Qnum q / Z.pos (Qden q))) (inject_Z (snd yf)) = true)
    as Hround.
  { intros q [Hlo Hhi]%andb_true_iff [[Hmod _]%andb_true_iff _]%andb_true_iff.
    apply Z.eqb_eq in Hmod. apply andb_true_iff.
    unfold Qle_bool in *. simpl in *.
    apply Z.leb_le in Hlo, Hhi. rewrite Z.mul_1_r in *.
    pose proof (Z.div_mod (Qnum q) (Z.pos (Qden q)) ltac:(lia)) as Hdiv.
    rewrite Hmod, Z.add_0_r in Hdiv.
    split; apply Z.leb_le; nia. }
  destruct t; simpl in *; rewrite ?to_numeric_idem in Hc2.
  - destruct (to_numeric b c0) as [s|q|z| |d|n]; simpl in *; try done.
    + destruct (is_integral q) eqn:Hint; [|done]. injection Hc2 as <-.
      injection Hy as <-. simpl. eauto.
    + destruct (in_int64 z); [|done]. injection Hc2 as <-. injection Hy as <-.
      simpl. eauto.
  - destruct (to_numeric b c0) as [s|q|z| |d|n]; simpl in *; try done.
    + destruct (is_integral q) eqn:Hint; [|done]. injection Hc2 as <-. simpl in Hy.
      destruct (0 <=? _); [|done]. injection Hy as <-. simpl. eauto.
    + destruct (in_int64 z); [|done]. injection Hc2 as <-. simpl in Hy.
      destruct (0 <=? _); [|done]. injection Hy as <-. simpl. eauto.
  - injection Hc2 as <-.
    destruct (to_numeric b c0) as [s|q|z| |d|n]; simpl in *; try done.
    + injection Hy as <-. simpl. eauto.
    + destruct (fits_double z); [|done]. injection Hy as <-. simpl. eauto.
  - injection Hc2 as <-.
    destruct (to_numeric b c0) as [s|q|z| |d|n] eqn:E; simpl in *; done.
  - injection Hc2 as <-.
    destruct (to_numeric b c0) as [s|q|z| |d|n] eqn:E; simpl in *; done.
  - done.
Qed.

Lemma kept_applies (yf : Z * Z) (chunk : DataFrame) (r : row) :
  has_column "collision_year" chunk = true →
  kept (Some yf) chunk r =
    year_within (integer_column "collision_year" chunk) yf
      (cell_at (columns chunk) "collision_year" r).
Proof. unfold kept. by intros ->. Qed.

Lemma kept_not_applies (chunk : DataFrame) (r : row) :
  filter_applies year_filter chunk = false →
  kept year_filter chunk r = true.
Proof.
  unfold filter_applies, kept.
  destruct year_filter; [by intros -> | done].
Qed.

(** Lines 51-60: the counters move, and the chunk that goes on holds the
    kept rows, their year made numeric when the filter applies. *)
Lemma filter_step_spec (st st1 : state) (chunk : DataFrame) (o : option DataFrame) :
  filter_step year_filter st chunk = (st1, o) →
  ((wf st → wf st1) ∧ (below_threshold st → below_threshold st1) ∧ extends st st1 []) ∧
  match o with
  | None => List.filter (kept year_filter chunk) (values chunk) = []
  | Some chunk1 =>
      columns chunk1 = columns chunk ∧
      Forall2 (fun r r1 => ∀ n,
                 cell_at (columns chunk) n r1 =
                   if filter_applies year_filter chunk && String.eqb n "collision_year"
                   then to_numeric (integer_column "collision_year" chunk)
                          (cell_at (columns chunk) n r)
                   else cell_at (columns chunk) n r)
              (List.filter (kept year_filter chunk) (values chunk))
              (values chunk1)
  end.
Proof.
  unfold filter_step. intros Hstep.
  assert (Hsame : filter_applies year_filter chunk = false →
           (st1, o) = (st, Some chunk) →
           ((wf st → wf st1) ∧ (below_threshold st → below_threshold st1) ∧
            extends st st1 []) ∧
           columns chunk = columns chunk ∧
           Forall2 (fun r r1 : row => ∀ n,
                 cell_at (columns chunk) n r1 =
                   if filter_applies year_filter chunk && String.eqb n "collision_year"
                   then to_numeric (integer_column "collision_year" chunk)
                          (cell_at (columns chunk) n r)
                   else cell_at (columns chunk) n r)
              (List.filter (kept year_filter chunk) (values chunk))
              (values chunk)).
  { intros Hno [= -> ->]. split; [by auto using extends_refl|]. split; [done|].
    rewrite filter_all by (intros r; by apply kept_not_applies).
    apply Forall_Forall2_diag, Forall_forall. intros r _ n. by rewrite Hno. }
  destruct year_filter as [yf|] eqn:Hyf.
  - destruct (has_column "collision_year" chunk) eqn:Hcol.
    + pose proof Hcol as [i Hi]%has_column_index.
      destruct (apply_year_filter_values yf chunk i Hi) as [Hcols Hvals].
      assert (List.filter (kept (Some yf) chunk) (values chunk) =
              List.filter (fun r => year_within (integer_column "collision_year" chunk) yf
                                      (cell_at (columns chunk) "collision_year" r))
                          (values chunk)) as Hkept.
      { apply filter_ext. intros r. by apply kept_applies. }
      rewrite Hkept.
      destruct (counters_only st
                  (count_filtered (len chunk - len (apply_year_filter yf chunk)) st))
        as (Hwf & Hbelow & Hext); try done.
      destruct (len (apply_year_filter yf chunk) =? 0)%nat eqn:Hlen;
        injection Hstep as <- <-; (split; [done|]).
      * apply Nat.eqb_eq in Hlen. unfold len in Hlen. rewrite Hvals in Hlen.
        rewrite length_fmap in Hlen. by apply nil_length_inv.
      * split; [done|]. rewrite Hvals.
        apply Forall2_fmap_r, Forall_Forall2_diag, Forall_forall. intros r _ n.
        simpl. rewrite Hcol. simpl.
        by rewrite (cell_at_alter _ _ _ _ _ _ eq_refl Hi).
    + injection Hstep as <- <-. by apply Hsame.
  - injection Hstep as <- <-. by apply Hsame.
Qed.

(** The dtype the coercion finds for a column the year filter did not
    coerce is that of the kept rows. *)
Lemma filter_step_dtype (st st1 : state) (chunk chunk1 : DataFrame) (n : string) :
  filter_step year_filter st chunk = (st1, Some chunk1) →
  filter_applies year_filter chunk && String.eqb n "collision_year" = false →
  integer_column n chunk1 = reads_integers year_filter chunk n.
Proof.
  intros (_ & Hcols & Hrows)%filter_step_spec Hn. unfold reads_integers. rewrite Hn.
  symmetry. apply integer_column_ext. simpl. rewrite Hcols.
  eapply Forall2_impl; [exact Hrows|]. intros r r1 Hr. specialize (Hr n).
  by rewrite Hn in Hr.
Qed.

(** The row written for a kept row of the file. *)
Lemma written_row (chunk : DataFrame) (dtype : string → bool) (r r1 r2 out : row) :
  NoDup (name <$> master_schema) →
  kept year_filter chunk r = true →
  (∀ n, filter_applies year_filter chunk && String.eqb n "collision_year" = false →
        dtype n = reads_integers year_filter chunk n) →
  (∀ n, cell_at (columns chunk) n r1 =
          if filter_applies year_filter chunk && String.eqb n "collision_year"
          then to_numeric (integer_column "collision_year" chunk)
                 (cell_at (columns chunk) n r)
          else cell_at (columns chunk) n r) →
  (∀ n, Ok (cell_at (columns chunk) n r2) =
          coerced_cell (dtype n) (declared_type master_schema n)
            (cell_at (columns chunk) n r1)) →
  mapM (fun f => conform (type f) (cell_at (columns chunk) (name f) r2)) master_schema
    = Ok out →
  out = typed_row master_schema year_filter chunk r ∧
  (∀ b, year_filter = Some b → has_column "collision_year" chunk = true →
        year_in_bounds b master_schema out = true).
Proof.
  intros Hnd Hkept Hdtype H01 H12 Hout. apply mapM_Ok in Hout.
  assert (Hyear : ∀ b, year_filter = Some b →
            has_column "collision_year" chunk = true →
            year_within (integer_column "collision_year" chunk) b
              (cell_at (columns chunk) "collision_year" r) = true).
  { intros b Hb Hcol. rewrite Hb in Hkept. by rewrite kept_applies in Hkept. }
  split.
  - apply Forall2_eq_fmap.
    eapply Forall2_impl;
      [apply (Forall2_and_l _ (fun f => f ∈ master_schema) _ _ Hout), Forall_forall; auto|].
    intros f y [Hf Hy]. simpl in Hy.
    specialize (H12 (name f)). rewrite (declared_type_elem _ _ Hnd Hf) in H12.
    eapply written_cell; [|symmetry; exact H12|exact Hy].
    rewrite (H01 (name f)). specialize (Hdtype (name f)).
    destruct (filter_applies year_filter chunk) eqn:Happ; [|left; auto].
    destruct (String.eqb_spec (name f) "collision_year") as [Hn|]; [|left; auto].
    right. unfold reads_integers. rewrite Happ, Hn. simpl.
    split; [done|]. unfold filter_applies in Happ.
    destruct year_filter as [b|]; [|done].
    by eapply year_within_numeric, Hyear.
  - intros b Hb Hcol. unfold year_in_bounds.
    destruct (column_index "collision_year" (name <$> master_schema)) as [k|] eqn:Hk;
      [|done].
    apply column_index_lookup in Hk. rewrite list_lookup_fmap in Hk.
    destruct (master_schema !! k) as [f|] eqn:Hf; [|done]. injection Hk as Hname.
    destruct (Forall2_lookup_l _ _ _ _ _ Hout Hf) as (y & Hy & Hconf).
    rewrite Hy. simpl. rewrite Hname in Hconf.
    specialize (H12 (name f)).
    rewrite (declared_type_elem _ _ Hnd) in H12 by (by eapply list_elem_of_lookup_2).
    rewrite Hname in H12. rewrite (H01 "collision_year") in H12.
    unfold filter_applies in H12. rewrite Hb, Hcol in H12. simpl in H12.
    destruct (written_year _ _ b _ _ _ _ (Hyear b Hb Hcol) (eq_sym H12) Hconf)
      as (q & -> & Hq).
    done.
Qed.

Lemma Forall2_Forall_right {A B} (P : A -> B -> Prop) (Q : B -> Prop)
    (l : list A) (k : list B) :
  Forall2 P l k → (∀ x y, P x y → Q y) → Forall Q k.
Proof. induction 1; intros HQ; constructor; eauto. Qed.

Lemma from_pandas_Ok (chunk : DataFrame) (ms : schema) (tbl : list row) :
  from_pandas chunk ms = Ok tbl →
  mapM (fun r => mapM (fun f => conform (type f) (cell_at (columns chunk) (name f) r)) ms)
       (values chunk) = Ok tbl.
Proof.
  unfold from_pandas. destruct (forallb _ ms); [|done]. by destruct (existsb _ ms).
Qed.

(** The table written for a chunk: the kept rows of the chunk under the
    master schema, each with its year within the bounds when the filter
    applies. *)
Lemma chunk_table (st st1 : state) (chunk chunk1 chunk2 : DataFrame) (tbl : list row) :
  NoDup (name <$> master_schema) →
  filter_step year_filter st chunk = (st1, Some chunk1) →
  coerce_chunk master_schema chunk1 = Ok chunk2 →
  from_pandas chunk2 master_schema = Ok tbl →
  tbl = typed_row master_schema year_filter chunk <$>
          List.filter (kept year_filter chunk) (values chunk) ∧
  (∀ b, year_filter = Some b → has_column "collision_year" chunk = true →
        Forall (fun out => year_in_bounds b master_schema out = true) tbl).
Proof.
  intros Hnd Hfilter Hcoerce Htbl.
  pose proof (fun n => filter_step_dtype _ _ _ _ n Hfilter) as Hdtype.
  apply filter_step_spec in Hfilter as (_ & Hcols1 & H01).
  apply coerce_chunk_cells in Hcoerce as [Hcols2 H12]; [|done].
  rewrite Hcols1 in Hcols2, H12.
  apply from_pandas_Ok in Htbl. rewrite Hcols2 in Htbl.
  apply mapM_Ok in Htbl.
  assert (H02 : Forall2
    (fun r r2 : row => ∃ r1,
       (∀ n, cell_at (columns chunk) n r1 =
          if filter_applies year_filter chunk && String.eqb n "collision_year"
          then to_numeric (integer_column "collision_year" chunk)
                 (cell_at (columns chunk) n r)
          else cell_at (columns chunk) n r) ∧
       (∀ n, Ok (cell_at (columns chunk) n r2) =
          coerced_cell (integer_column n chunk1) (declared_type master_schema n)
            (cell_at (columns chunk) n r1)))
    (List.filter (kept year_filter chunk) (values chunk)) (values chunk2)).
  { eapply Forall2_compose; [|exact H01|exact H12]. cbv beta. eauto. }
  assert (H0t : Forall2
    (fun r out : row => kept year_filter chunk r = true →
       out = typed_row master_schema year_filter chunk r ∧
       (∀ b, year_filter = Some b → has_column "collision_year" chunk = true →
             year_in_bounds b master_schema out = true))
    (List.filter (kept year_filter chunk) (values chunk)) tbl).
  { eapply Forall2_compose; [|exact H02|exact Htbl]. cbv beta.
    intros r r2 out (r1 & ? & ?) ? ?.
    by eapply (written_row chunk (fun n => integer_column n chunk1)). }
  pose proof (Forall2_and_l _ _ _ _ H0t (Forall_filter_true _ _)) as Hall.
  split.
  - apply Forall2_eq_fmap. eapply Forall2_impl; [exact Hall|].
    intros r out [Hkept Hout]. by apply Hout.
  - intros b Hb Hcol. eapply Forall2_Forall_right; [exact Hall|].
    intros r out [Hkept Hout]. simpl. by apply Hout.
Qed.

Local Abbreviation step := (process_chunk output_path base_name master_schema year_filter).
Local Abbreviation loop := (for_chunks output_path base_name master_schema year_filter).

(** One iteration keeps the invariants and leaves the recorded shards
    alone.  It adds one table to the shards: the kept rows of its chunk
    under the master schema, when the fields of the schema have distinct
    names.  When it raises nothing was written. *)
Lemma process_chunk_spec (st : state) (chunk : DataFrame) :
  wf st → below_threshold st →
  match step st chunk with
  | Next st' =>
      wf st' ∧ below_threshold st' ∧
      ∃ tbl, extends st st' tbl ∧
        (NoDup (name <$> master_schema) →
         tbl = typed_row master_schema year_filter chunk <$>
                 List.filter (kept year_filter chunk) (values chunk) ∧
         (∀ b, year_filter = Some b → has_column "collision_year" chunk = true →
            Forall (fun out => year_in_bounds b master_schema out = true) tbl))
  | Abort st' e => wf st' ∧ extends st st' []
  end.
Proof.
  intros Hwf Hbelow. unfold process_chunk.
  destruct (filter_step year_filter st chunk) as [st1 [chunk1|]] eqn:Hfilter.
  - pose proof (filter_step_spec _ _ _ _ Hfilter) as [(Hwf1 & Hb1 & Hext1) _].
    specialize (Hwf1 Hwf).
    destruct (coerce_chunk master_schema chunk1) as [chunk2|e] eqn:Hcoerce; [|done].
    unfold write_step.
    destruct (counters_only st1 (count_total (len chunk2) st1))
      as (Hwf2 & _ & Hext2); try done.
    specialize (Hwf2 Hwf1).
    destruct (open_writer_spec _ Hwf2) as (Hwf3 & Hext3 & Hw3 & _).
    rewrite Hw3.
    pose proof (extends_trans _ _ _ _ _ Hext1
                  (extends_trans _ _ _ _ _ Hext2 Hext3)) as Hext13.
    destruct (from_pandas chunk2 master_schema) as [tbl|e] eqn:Htbl; [|done].
    destruct (write_table_spec _ _ tbl Hwf3 Hw3) as [Hwf4 Hext4].
    destruct (check_size_spec _ _ Hwf4 Hw3) as (Hwf5 & Hb5 & Hext5).
    split; [done|]. split; [done|]. exists tbl. split.
    + pose proof (extends_trans _ _ _ _ _ Hext13
                    (extends_trans _ _ _ _ _ Hext4 Hext5)) as Hext.
      simpl in Hext. by rewrite app_nil_r in Hext.
    + intros Hnd. by eapply chunk_table.
  - pose proof (filter_step_spec _ _ _ _ Hfilter) as [(Hwf1 & Hb1 & Hext1) ->].
    split; [auto|]. split; [auto|]. exists []. split; [done|].
    intros _. by split.
Qed.

(** The loop: the invariants hold when it ends and the shards have grown
    by some rows: the expected ones when it ran to the end, and in any
    case rows whose year is within the bounds. *)
Lemma for_chunks_spec (items : list read_item) (st : state) :
  wf st → below_threshold st →
  ∃ rows,
    (NoDup (name <$> master_schema) →
     ∀ b, year_filter = Some b → forallb has_year_column items = true →
       Forall (fun out => year_in_bounds b master_schema out = true) rows) ∧
    match loop st items with
    | Next st' =>
        wf st' ∧ below_threshold st' ∧ extends st st' rows ∧
        (NoDup (name <$> master_schema) →
         rows = expected_rows master_schema year_filter items)
    | Abort st' e => wf st' ∧ extends st st' rows
    end.
Proof.
  revert st. induction items as [|[chunk|e] items IH]; intros st Hwf Hbelow.
  - exists []. simpl. auto using extends_refl.
  - cbn [for_chunks].
    pose proof (process_chunk_spec st chunk Hwf Hbelow) as Hstep.
    destruct (step st chunk) as [st1|st1 e].
    + destruct Hstep as (Hwf1 & Hb1 & tbl & Hext1 & Htbl).
      destruct (IH st1 Hwf1 Hb1) as (rows & Hyear & Hloop).
      exists (tbl ++ rows). split.
      * intros Hnd b Hb [Hcol Hrest]%andb_true_iff. apply Forall_app.
        destruct (Htbl Hnd) as [_ Hy]. eauto.
      * destruct (loop st1 items) as [st2|st2 e2].
        -- destruct Hloop as (? & ? & ? & Hrows).
           split; [done|]. split; [done|]. split; [by eauto using extends_trans|].
           intros Hnd. destruct (Htbl Hnd) as [-> _]. by rewrite (Hrows Hnd).
        -- destruct Hloop. eauto using extends_trans.
    + exists []. split; [by constructor | done].
  - exists []. simpl. auto using extends_refl.
Qed.

Lemma for_chunks_app (items1 items2 : list read_item) (st : state) :
  loop st (items1 ++ items2) =
    match loop st items1 with
    | Next st1 => loop st1 items2
    | Abort st1 e => Abort st1 e
    end.
Proof.
  revert st. induction items1 as [|[chunk|e] items1 IH]; intros st; simpl; try done.
  destruct (step st chunk); [apply IH | done].
Qed.

Lemma initial_state_spec (disk0 : gmap string parquet_file) :
  wf (initial_state disk0) ∧ below_threshold (initial_state disk0) ∧
  shard_rows (initial_state disk0) = [].
Proof.
  split; [|split]; try done.
  split; simpl; try done. by intros p ?%elem_of_nil.
Qed.

(** The year filter touches the counters only. *)
Lemma filter_step_files (st st1 : state) (chunk : DataFrame) (o : option DataFrame) :
  filter_step year_filter st chunk = (st1, o) →
  trace st1 = trace st ∧ disk st1 = disk st ∧
  current_writer st1 = current_writer st ∧
  output_files st1 = output_files st ∧ part_num st1 = part_num st.
Proof.
  unfold filter_step. destruct year_filter as [yf|]; [|by intros [= <- <-]].
  destruct (has_column _ chunk); [|by intros [= <- <-]].
  by destruct (len _ =? 0)%nat; intros [= <- <-].
Qed.

(** What one iteration that does not raise does to the output directory:
    nothing, or one write to the current part, after opening it when no
    writer was open, and followed by sealing it when the file has reached
    the threshold. *)
Lemma process_chunk_writes (st st' : state) (chunk : DataFrame) :
  wf st → step st chunk = Next st' →
  (trace st' = trace st ∧ disk st' = disk st ∧
   current_writer st' = current_writer st ∧
   output_files st' = output_files st ∧ part_num st' = part_num st) ∨
  ∃ tbl f0,
    (match current_writer st with
     | Some _ => disk st !! path (part_num st)
     | None => Some new_file
     end) = Some f0 ∧
    let p := path (part_num st) in
    let f := append_group tbl f0 in
    let reached := Qle_bool (inject_Z MAX_SIZE_MB * (9 # 10)) (get_file_size_mb f) in
    trace st' =
      trace st ++ (match current_writer st with Some _ => [] | None => [Opened p] end)
               ++ [Wrote p tbl]
               ++ (if reached then [Closed p; Appended p] else []) ∧
    disk st' !! p = Some (if reached then finalize f else f) ∧
    current_writer st' = (if reached then None else Some p) ∧
    output_files st' = output_files st ++ (if reached then [p] else []) ∧
    part_num st' = (if reached then S (part_num st) else part_num st).
Proof.
  intros Hwf. unfold process_chunk.
  destruct (filter_step year_filter st chunk) as [st1 [chunk1|]] eqn:Hfilter.
  2: { apply filter_step_files in Hfilter. intros [= <-]. by left. }
  apply filter_step_files in Hfilter as (Ht & Hd & Hw & Ho & Hp).
  destruct (coerce_chunk master_schema chunk1) as [chunk2|e]; [|done].
  unfold write_step, open_writer. cbn [current_writer count_total].
  rewrite Hw. destruct (current_writer st) as [q|] eqn:Hq.
  - destruct (wf_writer _ _ _ Hwf q Hq) as (-> & f0 & Hf0 & _).
    cbn [current_writer count_total]. rewrite Hw.
    destruct (from_pandas chunk2 master_schema) as [tbl|e]; [|done].
    intros [= <-]. right. exists tbl, f0. split; [done|].
    unfold check_size. cbn [disk write_table count_total].
    rewrite lookup_alter_eq, Hd, Hf0. cbn [fmap option_fmap option_map].
    destruct (Qle_bool _ _); simpl;
      rewrite ?lookup_alter_eq, ?Hd, ?Hf0, ?Ht, ?Ho, ?Hp, ?Hw, ?app_nil_r; simpl;
      by rewrite <- ?app_assoc.
  - cbn [current_writer part_num count_total]. rewrite Hp.
    destruct (from_pandas chunk2 master_schema) as [tbl|e]; [|done].
    intros [= <-]. right. exists tbl, new_file. split; [done|].
    unfold check_size. cbn [disk write_table count_total].
    rewrite lookup_alter_eq, lookup_insert_eq. cbn [fmap option_fmap option_map].
    destruct (Qle_bool _ _); simpl;
      rewrite ?lookup_alter_eq, ?lookup_insert_eq, ?Hd, ?Ht, ?Ho, ?Hp, ?app_nil_r; simpl;
      by rewrite <- ?app_assoc.
Qed.

(** Lines 106-110: after the loop every recorded file is finalized, and
    the recorded files hold the rows of the shards. *)
Lemma close_last_spec (st : state) :
  wf st →
  output_files (close_last st) = path <$> seq 1 (length (output_files (close_last st))) ∧
  (∀ p, p ∈ output_files (close_last st) →
     ∃ f, disk (close_last st) !! p = Some f ∧ finalized f = true) ∧
  concat (rows_at (disk (close_last st)) <$> output_files (close_last st)) = shard_rows st ∧
  (∀ p, p ∈ output_files st → disk (close_last st) !! p = disk st !! p) ∧
  (∃ v, replay (trace (close_last st)) = Some v) ∧
  (∀ p, current_writer (close_last st) = Some p → p ∈ output_files (close_last st)).
Proof.
  intros Hwf. pose proof (current_not_recorded st Hwf) as Hfresh.
  unfold close_last. destruct (current_writer st) as [p|] eqn:Hw.
  - destruct (seal_spec st p 0 Hwf Hw) as [[H1 H2 H3 H4 H5 H6] [Hr Hs _ _]].
    simpl in *. destruct (wf_writer _ _ _ Hwf p Hw) as [-> _].
    split; [|split; [|split; [|split; [|split]]]].
    + rewrite H2, Nat.sub_0_r, length_fmap, length_seq. done.
    + done.
    + unfold shard_rows in Hr. simpl in Hr. by rewrite !app_nil_r in Hr.
    + done.
    + eauto.
    + intros q [= <-]. apply elem_of_app. right. by left.
  - destruct Hwf as [H1 H2 H3 H4 H5 H6]. split; [|split; [|split; [|split; [|split]]]].
    + rewrite H2 at 1. by rewrite H2, length_fmap, length_seq.
    + done.
    + unfold shard_rows. rewrite Hw. simpl. by rewrite app_nil_r.
    + done.
    + eauto.
    + by rewrite Hw.
Qed.

(** Lines 119-123: the handler leaves no writer open: the file of the
    writer that was open is finalized, last of all, and nothing else
    changes. *)
Lemma clean_up_spec (st : state) :
  wf st →
  (∀ p, current_writer st = Some p →
     (∃ f, disk (clean_up st) !! p = Some f ∧ finalized f = true) ∧
     trace (clean_up st) = trace st ++ [Closed p]) ∧
  (current_writer st = None → clean_up st = st) ∧
  (∀ p, p ∈ output_files st → disk (clean_up st) !! p = disk st !! p) ∧
  output_files (clean_up st) = output_files st ∧
  current_writer (clean_up st) = current_writer st ∧
  (∀ q, rows_at (disk (clean_up st)) q = rows_at (disk st) q) ∧
  (∃ v, replay (trace (clean_up st)) = Some v ∧ open_path v = None).
Proof.
  intros Hwf. pose proof (current_not_recorded st Hwf) as Hfresh.
  unfold clean_up. destruct (current_writer st) as [p|] eqn:Hw.
  - destruct (wf_writer _ _ _ Hwf p Hw) as (-> & f & Hf & _). simpl.
    split; [|split; [done|split; [|split; [done|split; [done|split]]]]].
    + intros q [= <-]. split; [|done].
      exists (finalize f). by rewrite lookup_alter_eq, Hf.
    + intros q Hq. rewrite lookup_alter_ne; [done|]. by intros <-.
    + intros q. apply rows_at_alter_finalize.
    + rewrite replay_snoc, (wf_trace _ _ _ Hwf), Hw. simpl.
      rewrite bool_decide_eq_true_2 by done. eauto.
  - split; [done|]. split; [done|]. split; [done|]. split; [done|].
    split; [done|]. split; [done|].
    rewrite (wf_trace _ _ _ Hwf), Hw. eauto.
Qed.

Lemma shard_rows_elem (st : state) (p : string) (out : row) :
  p ∈ output_files st ∨ current_writer st = Some p →
  out ∈ rows_at (disk st) p → out ∈ shard_rows st.
Proof.
  unfold shard_rows. intros [Hp|Hp] Hout; apply elem_of_app.
  - left. apply list_elem_of_In, in_concat. exists (rows_at (disk st) p).
    split; apply list_elem_of_In; [|done]. apply list_elem_of_fmap. eauto.
  - right. by rewrite Hp.
Qed.

Lemma expected_rows_elem (items : list read_item) (out : row) :
  out ∈ expected_rows master_schema year_filter items →
  ∃ df r, Chunk df ∈ items ∧ r ∈ values df ∧
          kept year_filter df r = true ∧
          out = typed_row master_schema year_filter df r.
Proof.
  induction items as [|[df|e] items IH]; simpl.
  - by intros ?%elem_of_nil.
  - intros [Hout|Hout]%elem_of_app.
    + apply list_elem_of_fmap in Hout as (r & -> & Hr).
      apply list_elem_of_In, filter_In in Hr as [Hr Hkept].
      exists df, r. split; [by left|]. by rewrite list_elem_of_In.
    + destruct (IH Hout) as (df' & r & ? & ?). exists df', r. split; [by right | done].
  - intros Hout. destruct (IH Hout) as (df' & r & ? & ?).
    exists df', r. split; [by right | done].
Qed.

(** Where integer literals are read exactly, the dtype of the column makes
    no difference to the value of a cell. *)
Lemma typed_cell_exact (b : bool) (t : arrow_type) (c : cell) :
  exact_literal c → (b = true → reads_as_integer c = true) →
  typed_cell b t c = exact_cell t c.
Proof.
  intros Hexact Hb. destruct c as [s|q|z| |d|n]; try by destruct t.
  specialize (Hexact s). unfold reads_as_integer in Hb. simpl in Hb.
  unfold typed_cell, exact_cell, to_numeric, parse_integer, parse_number in *.
  destruct (read_number s) as [[z q|q|n]|] eqn:Hs.
  - rewrite (Hexact z q eq_refl eq_refl).
    destruct t, b; simpl; try done; by rewrite Z.div_1_r.
  - destruct b; [by discriminate Hb|]. by destruct t.
  - destruct b; [by discriminate Hb|]. by destruct t.
  - destruct b; [by discriminate Hb|]. by destruct t.
Qed.

Lemma year_within_exact (b : bool) (yf : Z * Z) (c : cell) :
  exact_literal c → (b = true → reads_as_integer c = true) →
  year_within b yf c =
    match exact_value c with
    | Some q => Qle_bool (inject_Z (fst yf)) q && Qle_bool q (inject_Z (snd yf))
    | None => false
    end.
Proof.
  intros Hexact Hb. destruct c as [s|q|z| |d|n]; try done.
  specialize (Hexact s). unfold reads_as_integer in Hb. simpl in Hb.
  unfold year_within, exact_value, to_numeric, parse_integer, parse_number in *.
  destruct (read_number s) as [[z q|q|n]|] eqn:Hs.
  - rewrite (Hexact z q eq_refl eq_refl). by destruct b.
  - destruct b; [by discriminate Hb|done].
  - destruct b; [by discriminate Hb|done].
  - destruct b; [by discriminate Hb|done].
Qed.

Lemma kept_exact (df : DataFrame) (r : row) :
  (∀ n, exact_literal (cell_at (columns df) n r)) → r ∈ values df →
  kept year_filter df r = exact_kept year_filter (columns df) r.
Proof.
  intros Hexact Hr. unfold kept, exact_kept, has_column.
  destruct year_filter as [yf|]; [|done]. case_bool_decide; [|done].
  apply year_within_exact; [done|]. intros Hb. by apply integer_column_elem.
Qed.

Lemma typed_row_exact (df : DataFrame) (r : row) :
  (∀ n, exact_literal (cell_at (columns df) n r)) → r ∈ values df →
  kept year_filter df r = true →
  typed_row master_schema year_filter df r = exact_row master_schema (columns df) r.
Proof.
  intros Hexact Hr Hkept. unfold typed_row, exact_row.
  apply list_fmap_ext. intros i f _. apply typed_cell_exact; [done|].
  unfold reads_integers.
  destruct (_ && _); intros Hb; [by apply integer_column_elem|].
  apply (integer_column_elem _ (kept_rows year_filter df)); [done|].
  simpl. apply list_elem_of_In, filter_In. by rewrite <- list_elem_of_In.
Qed.

(** Where the integer literals of the file are read exactly, the expected
    rows are the rows of the file read cell by cell. *)
Lemma expected_rows_exact (items : list read_item) :
  (∀ df r n, Chunk df ∈ items → r ∈ values df →
     exact_literal (cell_at (columns df) n r)) →
  expected_rows master_schema year_filter items =
    exact_rows master_schema year_filter items.
Proof.
  induction items as [|[df|e] items IH]; intros Hexact; simpl.
  - done.
  - rewrite IH by (intros df' r n Hdf'; apply Hexact; by right). f_equal.
    assert (∀ r n, r ∈ values df → exact_literal (cell_at (columns df) n r)) as Hdf.
    { intros r n. apply Hexact. by left. }
    rewrite (filter_ext_in (kept year_filter df) (exact_kept year_filter (columns df))).
    + apply list_fmap_ext. intros i r Hi%list_elem_of_lookup_2.
      apply list_elem_of_In, filter_In in Hi as [Hr%list_elem_of_In Hkept].
      apply typed_row_exact; [by auto|done|].
      by rewrite kept_exact by auto.
    + intros r Hr%list_elem_of_In. apply kept_exact; auto.
  - apply IH. intros df' r n Hdf'. apply Hexact. by right.
Qed.

(** When all chunks have the same header, the rows read cell by cell are
    the kept rows of the file, however it is cut into chunks. *)
Lemma exact_rows_uniform (items : list read_item) (cols : list string) :
  (∀ df, Chunk df ∈ items → columns df = cols) →
  exact_rows master_schema year_filter items =
    exact_row master_schema cols <$>
      List.filter (exact_kept year_filter cols) (chunk_rows items).
Proof.
  induction items as [|[df|e] items IH]; intros Hcols; simpl.
  - done.
  - rewrite (Hcols df) by (by left). rewrite List.filter_app, fmap_app.
    rewrite IH; [done|]. intros df' Hdf'. apply Hcols. by right.
  - apply IH. intros df' Hdf'. apply Hcols. by right.
Qed.

End LoopFacts.

(** ** The chunked converter *)

(** C10: the list [convert_large_csv_chunked] returns holds the paths of
    parts 1, 2, ... in this order, each of a file that is finalized on
    disk, and it is the list of the paths the run appended; in the log of
    the run, whatever its outcome, a path is appended only right after its
    writer was closed, and after every prefix of the log at most one writer
    is open. *)
Theorem returned_paths_are_closed_parts (csv_path : string) (src : csv_source)
    (output_dir : string) (year_filter : option (Z * Z))
    (disk0 : gmap string parquet_file) :
  let st := (convert_large_csv_chunked csv_path src output_dir year_filter disk0).1 in
  let r := (convert_large_csv_chunked csv_path src output_dir year_filter disk0).2 in
  (∀ outs, r = Ok outs →
     outs = part_path output_dir (path_stem csv_path) <$> seq 1 (length outs) ∧
     outs = appended (trace st) ∧
     ∀ p, p ∈ outs → ∃ f, disk st !! p = Some f ∧ finalized f = true) ∧
  (∀ pre p suf, trace st = pre ++ Appended p :: suf → ∃ pre', pre = pre' ++ [Closed p]) ∧
  (∀ pre suf, trace st = pre ++ suf → (length (open_writers pre) <= 1)%nat).
Proof.
  intros st r. subst st r. unfold convert_large_csv_chunked.
  destruct (first_chunk_schema src) as [ms|e0]; simpl.
  2: { split; [done|]. split.
       - intros pre p suf H. by destruct pre.
       - intros pre suf H. symmetry in H. apply app_eq_nil in H as [-> _]. simpl. lia. }
  unfold try_block.
  destruct (initial_state_spec output_dir (path_stem csv_path) disk0) as (Hwf0 & Hb0 & _).
  destruct (for_chunks_spec output_dir (path_stem csv_path) ms year_filter
              (chunks src) _ Hwf0 Hb0) as (rows & _ & Hloop).
  destruct (for_chunks _ _ _ _ _ _) as [st'|st' e]; simpl.
  - destruct Hloop as (Hwf & _).
    destruct (close_last_spec _ _ _ Hwf) as (Hout & Hfin & _ & _ & [v Hv] & _).
    split.
    + intros outs [= <-]. split; [done|]. split; [|done].
      unfold close_last. destruct (current_writer st'); simpl.
      * by rewrite appended_app, (wf_appended _ _ _ Hwf).
      * by rewrite (wf_appended _ _ _ Hwf).
    + destruct (replay_protocol _ _ Hv) as (? & ? & _). by split.
  - destruct Hloop as (Hwf & _).
    destruct (clean_up_spec _ _ _ Hwf) as (_ & _ & _ & _ & _ & _ & [v [Hv _]]).
    split; [done|].
    destruct (replay_protocol _ _ Hv) as (? & ? & _). by split.
Qed.

(** The rows of the returned shards are the expected rows. *)
Lemma returned_rows_expected (csv_path : string) (src : csv_source)
    (output_dir : string) (year_filter : option (Z * Z))
    (disk0 : gmap string parquet_file) (ms : schema) (st : state)
    (outs : list string) :
  first_chunk_schema src = Ok ms →
  NoDup (name <$> ms) →
  convert_large_csv_chunked csv_path src output_dir year_filter disk0 = (st, Ok outs) →
  concat (rows_at (disk st) <$> outs) = expected_rows ms year_filter (chunks src).
Proof.
  intros Hms Hnd. unfold convert_large_csv_chunked. rewrite Hms. unfold try_block.
  destruct (initial_state_spec output_dir (path_stem csv_path) disk0) as (Hwf0 & Hb0 & Hrows0).
  destruct (for_chunks_spec output_dir (path_stem csv_path) ms year_filter
              (chunks src) _ Hwf0 Hb0) as (rows & _ & Hspec).
  destruct (for_chunks _ _ _ _ _ (chunks src)) as [st'|st' e']; [|done].
  intros [= <- <-]. destruct Hspec as (Hwf & _ & Hext & Hrows).
  destruct (close_last_spec _ _ _ Hwf) as (_ & _ & Hshards & _).
  by rewrite Hshards, (ext_rows _ _ _ Hext), Hrows0, <- (Hrows Hnd).
Qed.

(** The log of a run follows the writer protocol. *)
Lemma run_follows_protocol (csv_path : string) (src : csv_source)
    (output_dir : string) (year_filter : option (Z * Z))
    (disk0 : gmap string parquet_file) :
  ∃ v, replay (trace (convert_large_csv_chunked csv_path src output_dir
                        year_filter disk0).1) = Some v.
Proof.
  unfold convert_large_csv_chunked.
  destruct (first_chunk_schema src) as [ms|e0]; simpl; [|by eauto].
  unfold try_block.
  destruct (initial_state_spec output_dir (path_stem csv_path) disk0) as (Hwf0 & Hb0 & _).
  destruct (for_chunks_spec output_dir (path_stem csv_path) ms year_filter
              (chunks src) _ Hwf0 Hb0) as (rows & _ & Hloop).
  destruct (for_chunks _ _ _ _ _ _) as [st'|st' e]; simpl.
  - destruct Hloop as (Hwf & _).
    by destruct (close_last_spec _ _ _ Hwf) as (_ & _ & _ & _ & Hv & _).
  - destruct Hloop as (Hwf & _).
    destruct (clean_up_spec _ _ _ Hwf) as (_ & _ & _ & _ & _ & _ & [v [Hv _]]).
    eauto.
Qed.

(** The shards recorded at some point of a run are finalized, and they are
    on disk as they were then when the run ends. *)
Lemma run_keeps_sealed (csv_path : string) (src : csv_source)
    (output_dir : string) (year_filter : option (Z * Z))
    (disk0 : gmap string parquet_file) (ms : schema)
    (items1 items2 : list read_item) (st1 st : state) (r : result (list string)) :
  first_chunk_schema src = Ok ms →
  chunks src = items1 ++ items2 →
  for_chunks output_dir (path_stem csv_path) ms year_filter
             (initial_state disk0) items1 = Next st1 →
  convert_large_csv_chunked csv_path src output_dir year_filter disk0 = (st, r) →
  well_formed output_dir (path_stem csv_path) st1 ∧ below_threshold st1 ∧
  ∀ p, p ∈ output_files st1 →
    disk st !! p = disk st1 !! p ∧
    ∃ f, disk st1 !! p = Some f ∧ finalized f = true.
Proof.
  intros Hms Hitems Hloop1. unfold convert_large_csv_chunked. rewrite Hms.
  unfold try_block. rewrite Hitems, for_chunks_app, Hloop1.
  destruct (initial_state_spec output_dir (path_stem csv_path) disk0) as (Hwf0 & Hb0 & _).
  destruct (for_chunks_spec output_dir (path_stem csv_path) ms year_filter
              items1 _ Hwf0 Hb0) as (rows1 & _ & Hspec1).
  rewrite Hloop1 in Hspec1. destruct Hspec1 as (Hwf1 & Hb1 & _).
  destruct (for_chunks_spec output_dir (path_stem csv_path) ms year_filter
              items2 _ Hwf1 Hb1) as (rows2 & _ & Hspec2).
  intros Hrun. split; [done|]. split; [done|]. intros p Hp.
  split; [|by apply (wf_sealed _ _ _ Hwf1)].
  destruct (for_chunks _ _ _ _ _ items2) as [st'|st' e']; injection Hrun as <- <-.
  - destruct Hspec2 as (Hwf & _ & Hext & _).
    destruct (close_last_spec _ _ _ Hwf) as (_ & _ & _ & Hsealed & _).
    rewrite Hsealed; [by apply (ext_sealed _ _ _ Hext)|].
    destruct (ext_outputs _ _ _ Hext) as [k ->]. apply elem_of_app. by left.
  - destruct Hspec2 as (Hwf & Hext).
    destruct (clean_up_spec _ _ _ Hwf) as (_ & _ & Hsealed & _).
    rewrite Hsealed; [by apply (ext_sealed _ _ _ Hext)|].
    destruct (ext_outputs _ _ _ Hext) as [k ->]. apply elem_of_app. by left.
Qed.

(** C5: when [convert_large_csv_chunked] raises out of its [try] block,
    the exception is the one the loop raised and the handler has run
    first: the file of the writer that was open is finalized and closing
    it is the last event of the log, nothing changes when no writer was
    open, and no writer is left open.  The shards recorded at any earlier
    point of the run are finalized and are on disk as they were then. *)
Theorem exception_closes_open_shard (csv_path : string) (src : csv_source)
    (output_dir : string) (year_filter : option (Z * Z))
    (disk0 : gmap string parquet_file) (ms : schema) (st : state) (e : exn) :
  first_chunk_schema src = Ok ms →
  convert_large_csv_chunked csv_path src output_dir year_filter disk0 = (st, Raise e) →
  (∃ st_raise,
     for_chunks output_dir (path_stem csv_path) ms year_filter
                (initial_state disk0) (chunks src) = Abort st_raise e ∧
     st = clean_up st_raise ∧
     (∀ p, current_writer st_raise = Some p →
        (∃ f, disk st !! p = Some f ∧ finalized f = true) ∧
        trace st = trace st_raise ++ [Closed p]) ∧
     (current_writer st_raise = None → st = st_raise)) ∧
  open_writers (trace st) = [] ∧
  (∀ items1 items2 st1,
     chunks src = items1 ++ items2 →
     for_chunks output_dir (path_stem csv_path) ms year_filter
                (initial_state disk0) items1 = Next st1 →
     ∀ p, p ∈ output_files st1 →
       disk st !! p = disk st1 !! p ∧
       ∃ f, disk st1 !! p = Some f ∧ finalized f = true).
Proof.
  intros Hms. unfold convert_large_csv_chunked. rewrite Hms. unfold try_block.
  destruct (initial_state_spec output_dir (path_stem csv_path) disk0) as (Hwf0 & Hb0 & _).
  destruct (for_chunks _ _ _ _ _ (chunks src)) as [st'|st' e'] eqn:Hloop; [done|].
  intros [= <- <-].
  destruct (for_chunks_spec output_dir (path_stem csv_path) ms year_filter
              (chunks src) _ Hwf0 Hb0) as (rows & _ & Hspec).
  rewrite Hloop in Hspec. destruct Hspec as [Hwf _].
  destruct (clean_up_spec _ _ _ Hwf) as (Hopen & Hnone & Hsealed & Hout & _ & _ & [v [Hv Hv']]).
  split; [by eauto|]. split.
  - apply replay_open_writers in Hv as [-> _]. by rewrite Hv'.
  - intros items1 items2 st1 Hitems Hloop1 p Hp.
    eapply (run_keeps_sealed csv_path src output_dir year_filter disk0); try done.
    unfold convert_large_csv_chunked, try_block. by rewrite Hms, Hloop.
Qed.

(** C1 (amended): when [convert_large_csv_chunked] returns, the rows of
    the returned shards, read in the order of the list, are the rows of the
    chunks the year filter keeps, in file order, none lost, repeated or
    moved, each under the types of the master schema with its columns read
    as the numeric coercion reads them, chunk by chunk.  Where the integer
    literals of the file are read exactly as floats, as those between
    -2^53 and 2^53 are, every value is the one its cell holds read on its
    own, and the shards hold the kept rows of the file however it is cut
    into chunks. *)
Theorem shards_hold_the_kept_rows (csv_path : string) (src : csv_source)
    (output_dir : string) (year_filter : option (Z * Z))
    (disk0 : gmap string parquet_file) (ms : schema) (st : state)
    (outs : list string) :
  first_chunk_schema src = Ok ms →
  NoDup (name <$> ms) →
  convert_large_csv_chunked csv_path src output_dir year_filter disk0 = (st, Ok outs) →
  concat (rows_at (disk st) <$> outs) = expected_rows ms year_filter (chunks src) ∧
  ((∀ df r n, Chunk df ∈ chunks src → r ∈ values df →
      exact_literal (cell_at (columns df) n r)) →
   concat (rows_at (disk st) <$> outs) = exact_rows ms year_filter (chunks src) ∧
   ∀ cols, (∀ df, Chunk df ∈ chunks src → columns df = cols) →
     concat (rows_at (disk st) <$> outs) =
       exact_row ms cols <$>
         List.filter (exact_kept year_filter cols) (chunk_rows (chunks src))).
Proof.
  intros Hms Hnd Hrun.
  pose proof (returned_rows_expected _ _ _ _ _ _ _ _ Hms Hnd Hrun) as Heq.
  split; [done|]. intros Hexact. rewrite Heq, expected_rows_exact by done.
  split; [done|]. intros cols Hcols. by apply exact_rows_uniform.
Qed.

(** C3: with the year filter (2015, 2024) and a year column in every
    chunk, every row of every shard of the run, recorded or open when the
    run ended, has under the year field of the schema a number between 2015
    and 2024; and when the run returns, every row of the returned shards is
    a row of the file whose year parses, as the year column of its chunk
    is read, to a number between 2015 and 2024. *)
Theorem year_filter_bounds_every_shard_row (csv_path : string) (src : csv_source)
    (output_dir : string) (disk0 : gmap string parquet_file) (ms : schema)
    (st : state) (r : result (list string)) :
  first_chunk_schema src = Ok ms →
  NoDup (name <$> ms) →
  forallb has_year_column (chunks src) = true →
  convert_large_csv_chunked csv_path src output_dir (Some (2015, 2024)) disk0 = (st, r) →
  (∀ p out, p ∈ output_files st ∨ current_writer st = Some p →
     out ∈ rows_at (disk st) p →
     year_in_bounds (2015, 2024) ms out = true) ∧
  (∀ outs out, r = Ok outs → out ∈ concat (rows_at (disk st) <$> outs) →
     ∃ df r0, Chunk df ∈ chunks src ∧ r0 ∈ values df ∧
       year_within (integer_column "collision_year" df) (2015, 2024)
         (cell_at (columns df) "collision_year" r0) = true ∧
       out = typed_row ms (Some (2015, 2024)) df r0).
Proof.
  intros Hms Hnd Hcols Hrun. split.
  - revert Hrun. unfold convert_large_csv_chunked. rewrite Hms. unfold try_block.
    destruct (initial_state_spec output_dir (path_stem csv_path) disk0)
      as (Hwf0 & Hb0 & Hrows0).
    destruct (for_chunks_spec output_dir (path_stem csv_path) ms (Some (2015, 2024))
                (chunks src) _ Hwf0 Hb0) as (rows & Hyear & Hspec).
    specialize (Hyear Hnd _ eq_refl Hcols). rewrite Forall_forall in Hyear.
    destruct (for_chunks _ _ _ _ _ (chunks src)) as [st'|st' e']; intros [= <- <-].
    + destruct Hspec as (Hwf & _ & Hext & _).
      destruct (close_last_spec _ _ _ Hwf) as (_ & _ & Hshards & _ & _ & Hcur).
      intros p out Hp Hout. apply Hyear.
      rewrite (ext_rows _ _ _ Hext), Hrows0 in Hshards. simpl in Hshards.
      rewrite <- Hshards. apply list_elem_of_In, in_concat.
      exists (rows_at (disk (close_last st')) p).
      split; apply list_elem_of_In; [|done]. apply list_elem_of_fmap.
      exists p. split; [done|]. destruct Hp as [Hp|Hp]; [done | by apply Hcur].
    + destruct Hspec as (Hwf & Hext).
      destruct (clean_up_spec _ _ _ Hwf) as (_ & _ & _ & Hout & Hcur & Hrows & _).
      intros p out Hp Hin. apply Hyear.
      pose proof (ext_rows _ _ _ Hext) as Hsh. rewrite Hrows0 in Hsh. simpl in Hsh.
      rewrite <- Hsh. rewrite Hout, Hcur in Hp. rewrite Hrows in Hin.
      by eapply shard_rows_elem.
  - intros outs out -> Hout.
    pose proof (returned_rows_expected _ _ _ _ _ _ _ _ Hms Hnd Hrun) as Heq.
    rewrite Heq in Hout. apply expected_rows_elem in Hout as (df & r0 & Hdf & Hr0 & Hkept & ->).
    exists df, r0. split; [done|]. split; [done|]. split; [|done].
    assert (has_column "collision_year" df = true) as Hcol.
    { rewrite forallb_forall in Hcols. apply (Hcols (Chunk df)).
      by apply list_elem_of_In. }
    by rewrite kept_applies in Hkept.
Qed.

(** C4: take any iteration of the loop of a run that does not raise.
    Either it writes nothing, or it writes one table to the file of the
    current part, which it opens first when no writer is open, and that
    part is the one after the recorded shards.  When the file has then
    reached 90% of [MAX_SIZE_MB], the iteration closes the writer, records
    the path and moves to the next part number before it ends; otherwise
    the writer stays open.  So, between iterations, an open shard is below
    the threshold; and the shards recorded so far are finalized, are on
    disk at the end of the run as they were, and no later event of the log
    opens or writes a path that was closed. *)
Theorem rollover_seals_before_next_batch (csv_path : string) (src : csv_source)
    (output_dir : string) (year_filter : option (Z * Z))
    (disk0 : gmap string parquet_file) (ms : schema)
    (items rest : list read_item) (chunk : DataFrame)
    (st st' final : state) (r : result (list string)) :
  first_chunk_schema src = Ok ms →
  chunks src = items ++ Chunk chunk :: rest →
  for_chunks output_dir (path_stem csv_path) ms year_filter
             (initial_state disk0) items = Next st →
  process_chunk output_dir (path_stem csv_path) ms year_filter st chunk = Next st' →
  convert_large_csv_chunked csv_path src output_dir year_filter disk0 = (final, r) →
  ((trace st' = trace st ∧ disk st' = disk st ∧
    current_writer st' = current_writer st ∧
    output_files st' = output_files st ∧ part_num st' = part_num st) ∨
   ∃ tbl f0,
     (match current_writer st with
      | Some _ => disk st !! part_path output_dir (path_stem csv_path) (part_num st)
      | None => Some new_file
      end) = Some f0 ∧
     let p := part_path output_dir (path_stem csv_path) (part_num st) in
     let f := append_group tbl f0 in
     let reached := Qle_bool (inject_Z MAX_SIZE_MB * (9 # 10)) (get_file_size_mb f) in
     trace st' =
       trace st ++ (match current_writer st with Some _ => [] | None => [Opened p] end)
                ++ [Wrote p tbl]
                ++ (if reached then [Closed p; Appended p] else []) ∧
     disk st' !! p = Some (if reached then finalize f else f) ∧
     current_writer st' = (if reached then None else Some p) ∧
     output_files st' = output_files st ++ (if reached then [p] else []) ∧
     part_num st' = (if reached then S (part_num st) else part_num st)) ∧
  part_num st = S (length (output_files st)) ∧
  below_threshold st ∧ below_threshold st' ∧
  (∀ q, q ∈ output_files st' →
     disk final !! q = disk st' !! q ∧
     ∃ f, disk st' !! q = Some f ∧ finalized f = true) ∧
  (∀ pre q suf e, trace final = pre ++ Closed q :: suf → e ∈ suf →
     e ≠ Opened q ∧ ∀ tbl, e ≠ Wrote q tbl).
Proof.
  intros Hms Hitems Hloop Hstep Hrun.
  assert (chunks src = items ++ ([Chunk chunk] ++ rest)) as Hitems1 by done.
  destruct (run_keeps_sealed _ _ _ _ _ _ _ _ _ _ _ Hms Hitems1 Hloop Hrun)
    as (Hwf & Hbelow & _).
  assert (chunks src = (items ++ [Chunk chunk]) ++ rest) as Hitems2
    by by rewrite <- app_assoc.
  assert (for_chunks output_dir (path_stem csv_path) ms year_filter
            (initial_state disk0) (items ++ [Chunk chunk]) = Next st') as Hloop'.
  { rewrite for_chunks_app, Hloop. simpl. by rewrite Hstep. }
  destruct (run_keeps_sealed _ _ _ _ _ _ _ _ _ _ _ Hms Hitems2 Hloop' Hrun)
    as (Hwf' & Hbelow' & Hsealed).
  split; [by eapply process_chunk_writes|].
  split.
  { rewrite (wf_outputs _ _ _ Hwf), length_fmap, length_seq.
    pose proof (wf_part _ _ _ Hwf). lia. }
  split; [done|]. split; [done|]. split; [done|].
  destruct (run_follows_protocol csv_path src output_dir year_filter disk0) as [v Hv].
  rewrite Hrun in Hv. by destruct (replay_protocol _ _ Hv) as (_ & _ & ?).
Qed.

(** C2 (amended): with a year filter set and a year column in the chunk,
    the filter step never raises and keeps, in order and with the year
    made numeric, exactly the rows whose year parses to a number within the
    inclusive bounds, the column being read as int64 or as float64 as a
    whole.  A row whose year does not parse, or is missing, is dropped like
    a row whose year is out of bounds, and counted among the filtered rows;
    the iteration ends there when no row is left. *)
Theorem year_filter_keeps_years_within (year_filter : Z * Z) (st : state)
    (chunk : DataFrame) (i : nat) :
  column_index "collision_year" (columns chunk) = Some i →
  let as_integers := integer_column "collision_year" chunk in
  let within := fun r => year_within as_integers year_filter
                           (cell_at (columns chunk) "collision_year" r) in
  let kept_rows := List.filter within (values chunk) in
  let chunk1 := {| columns := columns chunk;
                   values := alter (to_numeric as_integers) i <$> kept_rows |} in
  filter_step (Some year_filter) st chunk =
    (count_filtered (len chunk - length kept_rows) st,
     if (length kept_rows =? 0)%nat then None else Some chunk1) ∧
  (∀ r s, cell_at (columns chunk) "collision_year" r = Text s →
          parse_number s = None → within r = false) ∧
  (∀ r, cell_at (columns chunk) "collision_year" r = NA → within r = false).
Proof.
  intros Hi as_integers within kept_rows chunk1.
  destruct (apply_year_filter_values year_filter chunk i Hi) as [Hcols Hvals].
  fold as_integers in Hvals. fold within in Hvals. fold kept_rows in Hvals.
  assert (apply_year_filter year_filter chunk = chunk1) as Hchunk.
  { destruct (apply_year_filter year_filter chunk) as [c v]. simpl in *.
    unfold chunk1. congruence. }
  split; [|split].
  - unfold filter_step.
    assert (has_column "collision_year" chunk = true) as ->
      by (apply has_column_index; eauto).
    rewrite Hchunk.
    assert (len chunk1 = length kept_rows) as -> by apply length_fmap.
    by destruct (length kept_rows =? 0)%nat.
  - intros r s Hr Hs. unfold within, year_within. rewrite Hr. simpl.
    unfold parse_integer, parse_number in *.
    destruct (read_number s) as [[z q|q|n]|]; try done; by destruct as_integers.
  - intros r Hr. unfold within, year_within. by rewrite Hr.
Qed.

(** ** The small-file converter *)

Lemma single_path_not_part (output_dir base_name : string) (n : nat) :
  single_path output_dir base_name ≠ part_path output_dir base_name n.
Proof.
  unfold single_path, part_path. intros H.
  do 3 apply append_inj_l in H. rewrite append_cons in H. discriminate.
Qed.

Lemma concat_windows (rows : list row) (size k : nat) :
  concat ((fun j => take size (drop (j * size) rows)) <$> seq 0 k) = take (k * size) rows.
Proof.
  induction k as [|k IH]; [done|].
  rewrite seq_S, fmap_app, concat_app, IH. simpl.
  rewrite app_nil_r, take_take_drop. f_equal. lia.
Qed.

Lemma iloc_window (rows : list row) (size i : nat) :
  (i * size < length rows)%nat →
  iloc (i * size) (Nat.min ((i + 1) * size) (length rows)) rows =
    take size (drop (i * size) rows).
Proof.
  intros Hi. unfold iloc.
  destruct (decide ((i + 1) * size <= length rows)%nat) as [Hle|Hgt].
  - f_equal. lia.
  - rewrite !take_ge; [done|rewrite length_drop; lia..].
Qed.

(** The directory after shards [a+1 .. a+k] were written. *)
Lemma write_splits_seq (output_dir base_name : string) (rows : list row)
    (size n a : nat) (dsk : gmap string parquet_file) (outs : list string) :
  ∃ k, (k <= n)%nat ∧
    (k < n → length rows <= (a + k) * size)%nat ∧
    (∀ j, j < k → (a + j) * size < length rows)%nat ∧
    write_splits output_dir base_name rows size (seq a n) dsk outs =
      (foldl (fun d j => <[part_path output_dir base_name (j + 1) :=
                             to_parquet (take size (drop (j * size) rows))]> d)
             dsk (seq a k),
       outs ++ ((fun j => part_path output_dir base_name (j + 1)) <$> seq a k)).
Proof.
  revert a dsk outs. induction n as [|n IH]; intros a dsk outs.
  - exists 0%nat. simpl. rewrite app_nil_r. repeat split; lia.
  - cbn [seq write_splits].
    destruct (length rows <=? a * size)%nat eqn:Hbreak.
    + apply Nat.leb_le in Hbreak. exists 0%nat. simpl. rewrite app_nil_r.
      repeat split; lia.
    + apply Nat.leb_gt in Hbreak.
      destruct (IH (S a)
                  (<[part_path output_dir base_name (a + 1) :=
                       to_parquet (iloc (a * size) (Nat.min ((a + 1) * size) (length rows)) rows)]> dsk)
                  (outs ++ [part_path output_dir base_name (a + 1)]))
        as (k & Hk & Hstop & Hrun & ->).
      exists (S k). split; [lia|]. split; [intros ?; lia|]. split.
      * intros [|j] Hj; [by rewrite Nat.add_0_r|].
        specialize (Hrun j). lia.
      * cbn [seq foldl fmap list_fmap]. rewrite iloc_window by done.
        by rewrite <- app_assoc.
Qed.

Lemma written_splits_lookup (output_dir base_name : string) (rows : list row)
    (size a k : nat) (dsk : gmap string parquet_file) :
  let dsk' :=
    foldl (fun d j => <[part_path output_dir base_name (j + 1) :=
                          to_parquet (take size (drop (j * size) rows))]> d)
          dsk (seq a k) in
  (∀ j, (a <= j < a + k)%nat →
     dsk' !! part_path output_dir base_name (j + 1) =
       Some (to_parquet (take size (drop (j * size) rows)))) ∧
  (∀ q, (∀ n, q ≠ part_path output_dir base_name n) → dsk' !! q = dsk !! q).
Proof.
  induction k as [|k [IH1 IH2]]; cbv zeta.
  - split; [intros j ?; lia | done].
  - rewrite seq_S, foldl_app. simpl. split.
    + intros j Hj. destruct (decide (j = a + k)%nat) as [->|Hne].
      * by rewrite lookup_insert_eq.
      * rewrite lookup_insert_ne; [apply IH1; lia|].
        intros Heq%part_path_inj. lia.
    + intros q Hq. rewrite lookup_insert_ne; [by apply IH2|].
      intros Heq. by apply (Hq (a + k + 1)%nat).
Qed.

(** C8 (amended): [convert_small_csv] writes the whole frame to one file.
    When that file is not above [MAX_SIZE_MB] it is the only output.
    Otherwise the file is deleted and the rows are written, in order, to
    the parts 1 .. k with k at most N = int(size / MAX_SIZE_MB) + 1: every
    part but the last holds len(df) // N + 1 rows, and the last holds the
    remaining rows, at least one and no more than the others. *)
Theorem small_converter_splits_by_rows (csv_path : string) (src : csv_source)
    (output_dir : string) (disk0 : gmap string parquet_file) (df : DataFrame) :
  whole_frame src = Ok df →
  let base_name := path_stem csv_path in
  let temp_parquet := single_path output_dir base_name in
  let file_size_mb := get_file_size_mb (to_parquet (values df)) in
  let num_splits := (Z.to_nat (int_of (file_size_mb / inject_Z MAX_SIZE_MB)) + 1)%nat in
  let rows_per_split := (len df / num_splits + 1)%nat in
  let part := fun j => take rows_per_split (drop (j * rows_per_split) (values df)) in
  let run := convert_small_csv csv_path src output_dir disk0 in
  (Qle_bool file_size_mb (inject_Z MAX_SIZE_MB) = true →
     run = (<[temp_parquet := to_parquet (values df)]> disk0, Ok [temp_parquet])) ∧
  (Qle_bool file_size_mb (inject_Z MAX_SIZE_MB) = false →
     ∃ k, (k <= num_splits)%nat ∧
       run.2 = Ok (part_path output_dir base_name <$> seq 1 k) ∧
       run.1 !! temp_parquet = None ∧
       (∀ j, (j < k)%nat →
          run.1 !! part_path output_dir base_name (S j) = Some (to_parquet (part j))) ∧
       (∀ j, (S j < k)%nat → length (part j) = rows_per_split) ∧
       (∀ j, S j = k → (1 <= length (part j) <= rows_per_split)%nat) ∧
       concat (part <$> seq 0 k) = values df).
Proof.
  intros Hdf base_name temp_parquet file_size_mb num_splits rows_per_split part run.
  subst run. unfold convert_small_csv. rewrite Hdf.
  fold base_name temp_parquet file_size_mb num_splits rows_per_split.
  split; intros Hsize; rewrite Hsize; [done|].
  destruct (write_splits_seq output_dir base_name (values df) rows_per_split
              num_splits 0
              (delete temp_parquet (<[temp_parquet := to_parquet (values df)]> disk0)) [])
    as (k & Hk & Hstop & Hrun & ->).
  destruct (written_splits_lookup output_dir base_name (values df) rows_per_split 0 k
              (delete temp_parquet (<[temp_parquet := to_parquet (values df)]> disk0)))
    as [Hparts Hother].
  assert (length (values df) <= k * rows_per_split)%nat as Hcover.
  { destruct (decide (k < num_splits)%nat) as [Hlt|Hge]; [by apply Hstop|].
    assert (k = num_splits) as -> by lia.
    pose proof (Nat.mul_succ_div_gt (len df) num_splits ltac:(lia)) as Hgt.
    unfold rows_per_split, len in *. lia. }
  exists k. simpl. split; [done|]. split; [|split; [|split; [|split; [|split]]]].
  - f_equal. rewrite <- seq_shift, <- list_fmap_compose.
    apply list_fmap_ext. intros i j _. simpl. f_equal. lia.
  - rewrite Hother; [by rewrite lookup_delete_eq|].
    intros n. apply single_path_not_part.
  - intros j Hj. replace (S j) with (j + 1)%nat by lia. apply Hparts. lia.
  - intros j Hj. unfold part. rewrite length_take, length_drop.
    specialize (Hrun (S j) Hj). lia.
  - intros j Hj. unfold part. rewrite length_take, length_drop.
    specialize (Hrun j ltac:(lia)). lia.
  - unfold part. rewrite concat_windows. by apply take_ge.
Qed.

(** ** [main] *)

Lemma main_loop_jobs (table : list (string * list string))
    (inputs : gmap string csv_source) (ms : main_state) :
  foldl (main_category inputs) ms table =
    foldl (fun ms job => main_file inputs job.1 ms job.2) ms (jobs table).
Proof.
  revert ms. induction table as [|[category files] table IH]; intros ms; [done|].
  unfold jobs. rewrite fmap_cons. simpl. rewrite foldl_app, IH. f_equal.
  unfold main_category. simpl. clear. revert ms.
  induction files as [|f files IH]; intros ms; [done|]. simpl. apply IH.
Qed.

(** What one input file adds to the outputs of [main]: nothing when it is
    missing or its conversion raises. *)
Lemma main_file_spec (inputs : gmap string csv_source) (category csv_file : string)
    (ms : main_state) :
  omap announced (messages (main_file inputs category ms csv_file)) =
    omap announced (messages ms) ++ [csv_file] ∧
  ∃ outs,
    all_output_files (main_file inputs category ms csv_file) =
      all_output_files ms ++ outs ∧
    match inputs !! csv_file with
    | None => outs = []
    | Some src =>
        outs = match (convert csv_file src ("data/parquet/" +:+ category)
                              (year_filter_of category) (parquet_dir ms)).2 with
               | Ok output_files => output_files
               | Raise _ => []
               end
    end.
Proof.
  unfold main_file. destruct (inputs !! csv_file) as [src|].
  - destruct (convert _ _ _ _ _) as [dsk [outs|e]]; simpl; rewrite omap_app; simpl.
    + split; [done|]. by exists outs.
    + split; [done|]. exists []. by rewrite app_nil_r.
  - simpl. rewrite omap_app. split; [done|]. exists []. by rewrite app_nil_r.
Qed.

Lemma main_jobs_spec (inputs : gmap string csv_source)
    (todo : list (string * string)) (ms : main_state) :
  let final := foldl (fun ms job => main_file inputs job.1 ms job.2) ms todo in
  omap announced (messages final) = omap announced (messages ms) ++ (snd <$> todo) ∧
  ∃ contributions,
    all_output_files final = all_output_files ms ++ concat contributions ∧
    Forall2 (fun job outs =>
               match inputs !! job.2 with
               | None => outs = []
               | Some src =>
                   ∃ dsk, outs =
                     match (convert job.2 src ("data/parquet/" +:+ job.1)
                                    (year_filter_of job.1) dsk).2 with
                     | Ok output_files => output_files
                     | Raise _ => []
                     end
               end)
            todo contributions.
Proof.
  revert ms. induction todo as [|[category csv_file] todo IH]; intros ms; cbv zeta.
  - simpl. rewrite app_nil_r. split; [done|]. exists []. by rewrite app_nil_r.
  - cbn [foldl]. destruct (IH (main_file inputs category ms csv_file))
      as (Hmsg & contributions & Hout & Hall).
    destruct (main_file_spec inputs category csv_file ms) as (Hmsg1 & outs & Hout1 & Hjob).
    simpl in *. split.
    + by rewrite Hmsg, Hmsg1, <- app_assoc.
    + exists (outs :: contributions). split.
      * by rewrite Hout, Hout1, <- app_assoc.
      * constructor; [|done]. simpl.
        destruct (inputs !! csv_file); [eauto | done].
Qed.

(** C7: an input path that does not exist makes [main] print the warning
    and go on, with the same output files and the same directory; a
    conversion that raises is caught, reported with the exception, and adds
    no output file.  In either case the loop goes on: every configured file
    is visited, once and in order, and the output files of [main] are those
    of the conversions that returned, a missing file and a failed
    conversion contributing none. *)
Theorem main_contains_failures (inputs : gmap string csv_source)
    (disk0 : gmap string parquet_file) :
  (∀ category ms csv_file, inputs !! csv_file = None →
     main_file inputs category ms csv_file =
       {| all_output_files := all_output_files ms;
          parquet_dir := parquet_dir ms;
          messages := messages ms ++ [NotFound csv_file] |}) ∧
  (∀ category ms csv_file src dsk e, inputs !! csv_file = Some src →
     convert csv_file src ("data/parquet/" +:+ category) (year_filter_of category)
             (parquet_dir ms) = (dsk, Raise e) →
     main_file inputs category ms csv_file =
       {| all_output_files := all_output_files ms;
          parquet_dir := dsk;
          messages := messages ms ++
            [CsvSize csv_file (inject_Z (csv_bytes src) / inject_Z (1024 * 1024))%Q;
             ErrorConverting csv_file e] |}) ∧
  omap announced (messages (main inputs disk0)) = snd <$> jobs csv_files ∧
  ∃ contributions,
    all_output_files (main inputs disk0) = concat contributions ∧
    Forall2 (fun job outs =>
               match inputs !! job.2 with
               | None => outs = []
               | Some src =>
                   ∃ dsk, outs =
                     match (convert job.2 src ("data/parquet/" +:+ job.1)
                                    (year_filter_of job.1) dsk).2 with
                     | Ok output_files => output_files
                     | Raise _ => []
                     end
               end)
            (jobs csv_files) contributions.
Proof.
  split; [|split].
  - intros category ms csv_file Hnone. unfold main_file. by rewrite Hnone.
  - intros category ms csv_file src dsk e Hsrc Hconv. unfold main_file.
    by rewrite Hsrc, Hconv.
  - unfold main, main_loop. rewrite main_loop_jobs.
    destruct (main_jobs_spec inputs (jobs csv_files)
                {| all_output_files := []; parquet_dir := disk0; messages := [] |})
      as (Hmsg & contributions & Hout & Hall).
    split; [done|]. by exists contributions.
Qed.

(** ** Label replacement *)








End Facts.

(** * Sample runs *)

(** The chunked converter on the sample file, with the year filter of the
    2024_prior category: two shards, the first sealed at the rollover. *)
Lemma shards_hold_the_kept_rows_witness :
  let run := convert_large_csv_chunked (ext := sample_externals)
               sample_path sample_source "out" (Some (2015, 2024)) ∅ in
  concat (rows_at (disk run.1) <$>
            ["out/collision-1979-2024_part01.parquet";
             "out/collision-1979-2024_part02.parquet"]) =
    [ [Text "a2"; Int 2015; NA]; [Text "a3"; Int 2016; Num (405 # 10)];
      [Text "b1"; Int 2020; NA]; [Text "b3"; Int 2024; Num 60];
      [Text "c1"; Int 2019; Num 50] ].
Proof.
  intros run.
  refine (eq_trans
            (proj1 (shards_hold_the_kept_rows (ext := sample_externals)
                      sample_path sample_source "out" (Some (2015, 2024)) ∅
                      sample_schema run.1 _ _ _ _)) _).
  - reflexivity.
  - refine (bool_decide_unpack _ _). vm_compute. exact I.
  - vm_compute. reflexivity.
  - vm_compute. reflexivity.
Defined.

(** The second chunk of the file of codes holds the integer 2^53 + 1 next
    to a value that does not parse: its column is read as float64, and the
    shard holds 2^53 where the cell, read on its own, holds 2^53 + 1. *)
Lemma large_integer_is_rounded :
  let run := convert_large_csv_chunked (ext := sample_externals)
               "data/codes.csv" codes_source "out" None ∅ in
  run.2 = Ok ["out/codes_part01.parquet"] ∧
  concat (rows_at (disk run.1) <$> ["out/codes_part01.parquet"]) =
    [ [Text "a"; Int 1]; [Text "b"; Int 9007199254740992]; [Text "c"; NA] ] ∧
  exact_rows (ext := sample_externals) codes_schema None (chunks codes_source) =
    [ [Text "a"; Int 1]; [Text "b"; Int 9007199254740993]; [Text "c"; NA] ] ∧
  concat (rows_at (disk run.1) <$> ["out/codes_part01.parquet"]) ≠
    exact_rows (ext := sample_externals) codes_schema None (chunks codes_source).
Proof.
  intros run.
  assert (concat (rows_at (disk run.1) <$> ["out/codes_part01.parquet"]) =
          [ [Text "a"; Int 1]; [Text "b"; Int 9007199254740992]; [Text "c"; NA] ])
    as Hrows by (vm_compute; reflexivity).
  assert (exact_rows (ext := sample_externals) codes_schema None (chunks codes_source) =
          [ [Text "a"; Int 1]; [Text "b"; Int 9007199254740993]; [Text "c"; NA] ])
    as Hexact by (vm_compute; reflexivity).
  split; [vm_compute; reflexivity|]. split; [done|]. split; [done|].
  rewrite Hrows, Hexact. discriminate.
Qed.

(** The row b2 of the sample file has a year that does not parse; the
    converter returns, and no row of its shards is that row. *)
Lemma unparseable_year_row_is_dropped :
  let run := convert_large_csv_chunked (ext := sample_externals)
               sample_path sample_source "out" (Some (2015, 2024)) ∅ in
  [Text "b2"; Text "abc"; Text "20"] ∈ values sample_chunk2 ∧
  parse_number (ext := sample_externals) "abc" = None ∧
  run.2 = Ok ["out/collision-1979-2024_part01.parquet";
              "out/collision-1979-2024_part02.parquet"] ∧
  ¬ ∃ out, out ∈ concat (rows_at (disk run.1) <$>
                           ["out/collision-1979-2024_part01.parquet";
                            "out/collision-1979-2024_part02.parquet"]) ∧
           out !! 0%nat = Some (Text "b2").
Proof.
  intros run. split; [|split; [|split]].
  - right. left.
  - reflexivity.
  - vm_compute. reflexivity.
  - intros (out & Hout & Hfirst).
    assert (concat (rows_at (disk run.1) <$>
                      ["out/collision-1979-2024_part01.parquet";
                       "out/collision-1979-2024_part02.parquet"]) =
            [ [Text "a2"; Int 2015; NA]; [Text "a3"; Int 2016; Num (405 # 10)];
              [Text "b1"; Int 2020; NA]; [Text "b3"; Int 2024; Num 60];
              [Text "c1"; Int 2019; Num 50] ]) as Hrows
      by (vm_compute; reflexivity).
    rewrite Hrows in Hout.
    repeat (apply elem_of_cons in Hout as [->|Hout]; [discriminate Hfirst|]).
    by apply elem_of_nil in Hout.
Qed.

Lemma year_filter_keeps_years_within_witness :
  filter_step (ext := sample_externals) (Some (2015, 2024)) (initial_state ∅) sample_chunk2 =
    (count_filtered 2 (initial_state ∅),
     Some {| columns := sample_columns;
             values := [ [Text "b1"; Num 2020; NA]; [Text "b3"; Num 2024; Text "60"] ] |}).
Proof.
  exact (proj1 (year_filter_keeps_years_within (ext := sample_externals)
                  (2015, 2024) (initial_state ∅) sample_chunk2 1 eq_refl)).
Defined.

Lemma year_filter_bounds_every_shard_row_witness :
  Forall (fun out => year_in_bounds (2015, 2024) sample_schema out = true)
         (rows_at (disk (convert_large_csv_chunked (ext := sample_externals)
                           sample_path sample_source "out" (Some (2015, 2024)) ∅).1)
                  "out/collision-1979-2024_part01.parquet").
Proof.
  apply Forall_forall. intros out Hout.
  refine (proj1 (year_filter_bounds_every_shard_row (ext := sample_externals)
                   sample_path sample_source "out" ∅ sample_schema _ _ _ _ _ _)
                "out/collision-1979-2024_part01.parquet" out _ Hout).
  - reflexivity.
  - refine (bool_decide_unpack _ _). vm_compute. exact I.
  - reflexivity.
  - apply surjective_pairing.
  - left. vm_compute. left.
Defined.

(** The second iteration of the sample run brings the first shard to the
    threshold: before and after it no open shard has reached it. *)
Lemma rollover_seals_before_next_batch_witness :
  let loop1 := for_chunks (ext := sample_externals) "out" (path_stem sample_path)
                 sample_schema (Some (2015, 2024)) (initial_state ∅)
                 [Chunk sample_chunk1] in
  let st := match loop1 with Next s => s | Abort s _ => s end in
  let step2 := process_chunk (ext := sample_externals) "out" (path_stem sample_path)
                 sample_schema (Some (2015, 2024)) st sample_chunk2 in
  let st' := match step2 with Next s => s | Abort s _ => s end in
  part_num st = S (length (output_files st)) ∧
  below_threshold (ext := sample_externals) st ∧
  below_threshold (ext := sample_externals) st'.
Proof.
  intros loop1 st step2 st'.
  destruct (rollover_seals_before_next_batch (ext := sample_externals)
              sample_path sample_source "out" (Some (2015, 2024)) ∅ sample_schema
              [Chunk sample_chunk1] [Chunk sample_chunk3] sample_chunk2 st st'
              (convert_large_csv_chunked (ext := sample_externals)
                 sample_path sample_source "out" (Some (2015, 2024)) ∅).1
              (convert_large_csv_chunked (ext := sample_externals)
                 sample_path sample_source "out" (Some (2015, 2024)) ∅).2)
    as (_ & Hpart & Hbelow & Hbelow' & _).
  - reflexivity.
  - reflexivity.
  - vm_compute. reflexivity.
  - vm_compute. reflexivity.
  - vm_compute. reflexivity.
  - exact (conj Hpart (conj Hbelow Hbelow')).
Defined.

(** Reading the second chunk of the broken file fails while the first
    shard is open: the handler closes it, and no writer is left open. *)
Lemma exception_closes_open_shard_witness :
  let run := convert_large_csv_chunked (ext := sample_externals)
               sample_path broken_source "out" (Some (2015, 2024)) ∅ in
  run.2 = Raise ParserError ∧ open_writers (trace run.1) = [].
Proof.
  intros run. split; [vm_compute; reflexivity|].
  refine (proj1 (proj2 (exception_closes_open_shard (ext := sample_externals)
                          sample_path broken_source "out" (Some (2015, 2024)) ∅
                          sample_schema run.1 ParserError _ _))).
  - reflexivity.
  - vm_compute. reflexivity.
Defined.


(** [main] when only two of the six configured files exist, one of which
    cannot be read to its end: all six files are visited. *)
Lemma main_contains_failures_witness :
  omap announced
    (messages (main (ext := sample_externals)
                 (<["data/2024_prior/collision-1979-2024.csv" := sample_source]>
                    (<["data/2025_dataset/vehicle-provisional-2025.csv" := broken_source]> ∅))
                 ∅)) =
    [ "data/2025_dataset/collision-provisional-2025.csv";
      "data/2025_dataset/vehicle-provisional-2025.csv";
      "data/2025_dataset/casualty-provisional-2025.csv";
      "data/2024_prior/collision-1979-2024.csv";
      "data/2024_prior/vehicle-1979-2024.csv";
      "data/2024_prior/casualty-1979-2024.csv" ].
Proof.
  exact (proj1 (proj2 (proj2 (main_contains_failures (ext := sample_externals)
                                (<["data/2024_prior/collision-1979-2024.csv" := sample_source]>
                                   (<["data/2025_dataset/vehicle-provisional-2025.csv" := broken_source]> ∅))
                                ∅)))).
Defined.

(** The small converter on a frame of three rows whose single file is
    above the threshold: at most two parts. *)
Lemma small_converter_splits_by_rows_witness :
  ∃ k, (k <= 2)%nat ∧
    (convert_small_csv (ext := sample_externals)
       "data/2025_dataset/collision-provisional-2025.csv" small_source "out" ∅).2 =
      Ok (part_path "out" "collision-provisional-2025" <$> seq 1 k).
Proof.
  destruct (proj2 (small_converter_splits_by_rows (ext := sample_externals)
                     "data/2025_dataset/collision-provisional-2025.csv"
                     small_source "out" ∅ sample_frame eq_refl)
                  ltac:(vm_compute; reflexivity))
    as (k & Hk & Hr & _).
  exists k. split; [exact Hk | exact Hr].
Defined.

(** Four rows whose single file takes 80,000,000 bytes: the size divided
    by the threshold gives two splits, and the two parts hold three rows
    and one row, although two and two would be equal.  Two rows whose
    single file takes 60,000,000 bytes: two splits again, and one part
    with both rows. *)
Lemma small_converter_splits_unevenly :
  let run4 := convert_small_csv (ext := sample_externals)
                "data/2025_dataset/casualty-provisional-2025.csv" four_rows "out" ∅ in
  let run2 := convert_small_csv (ext := heavy_externals)
                "data/2025_dataset/casualty-provisional-2025.csv" two_rows "out" ∅ in
  (Qle_bool (get_file_size_mb (ext := sample_externals) (to_parquet (values four_frame)))
            (inject_Z MAX_SIZE_MB) = false ∧
   (Z.to_nat (int_of (get_file_size_mb (ext := sample_externals)
                        (to_parquet (values four_frame)) / inject_Z MAX_SIZE_MB)) + 1)%nat
     = 2%nat ∧
   run4.2 = Ok ["out/casualty-provisional-2025_part01.parquet";
                "out/casualty-provisional-2025_part02.parquet"] ∧
   length (rows_at run4.1 "out/casualty-provisional-2025_part01.parquet") = 3%nat ∧
   length (rows_at run4.1 "out/casualty-provisional-2025_part02.parquet") = 1%nat) ∧
  (Qle_bool (get_file_size_mb (ext := heavy_externals) (to_parquet (values two_frame)))
            (inject_Z MAX_SIZE_MB) = false ∧
   (Z.to_nat (int_of (get_file_size_mb (ext := heavy_externals)
                        (to_parquet (values two_frame)) / inject_Z MAX_SIZE_MB)) + 1)%nat
     = 2%nat ∧
   run2.2 = Ok ["out/casualty-provisional-2025_part01.parquet"] ∧
   length (rows_at run2.1 "out/casualty-provisional-2025_part01.parquet") = 2%nat).
Proof. intros run4 run2. repeat split; vm_compute; reflexivity. Qed.



(** The paths the sample run returns are parts 1 and 2. *)
Lemma returned_paths_are_closed_parts_witness :
  ["out/collision-1979-2024_part01.parquet"; "out/collision-1979-2024_part02.parquet"] =
    part_path "out" (path_stem sample_path) <$> seq 1 2.
Proof.
  refine (proj1 (proj1 (returned_paths_are_closed_parts (ext := sample_externals)
                          sample_path sample_source "out" (Some (2015, 2024)) ∅)
                       ["out/collision-1979-2024_part01.parquet";
                        "out/collision-1979-2024_part02.parquet"] _)).
  vm_compute. reflexivity.
Defined.

(** * Further properties *)

Section MoreFacts.

Context {ext : Externals}.

(** ** Effects of one iteration *)

Lemma coerce_chunk_len (ms : schema) (chunk chunk' : DataFrame) :
  coerce_chunk ms chunk = Ok chunk' → len chunk' = len chunk.
Proof.
  revert chunk. induction ms as [|f ms IH]; intros chunk H.
  - by injection H as <-.
  - cbn [coerce_chunk] in H. apply bind_Ok in H as (chunk1 & H1 & H2).
    apply coerce_field_cells in H1 as [_ Hv]. apply Forall2_length in Hv.
    rewrite (IH _ H2). by unfold len.
Qed.

Lemma from_pandas_len (ms : schema) (chunk : DataFrame) (tbl : list row) :
  from_pandas chunk ms = Ok tbl → length tbl = len chunk.
Proof.
  intros Hv%from_pandas_Ok%mapM_Ok%Forall2_length. by unfold len.
Qed.

Lemma apply_year_filter_len (yf : Z * Z) (chunk : DataFrame) :
  (len (apply_year_filter yf chunk) <= len chunk)%nat.
Proof.
  unfold apply_year_filter, select_rows, len. simpl.
  etrans; [apply filter_length_le|].
  unfold assign_column. destruct (column_index _ _); simpl; [|done].
  by rewrite length_fmap.
Qed.

Lemma alter_as_insert (dsk : gmap string parquet_file) (p : string)
    (g : parquet_file -> parquet_file) (f : parquet_file) :
  dsk !! p = Some f → alter g p dsk = <[p := g f]> dsk.
Proof.
  intros Hf. rewrite <- (insert_id dsk p f Hf) at 1. apply alter_insert_eq.
Qed.

Section MoreLoopFacts.

Variable output_path : string.
Variable base_name : string.
Variable master_schema : schema.
Variable year_filter : option (Z * Z).

Local Abbreviation path := (part_path output_path base_name).
Local Abbreviation wf := (well_formed output_path base_name).
Local Abbreviation step := (process_chunk output_path base_name master_schema year_filter).
Local Abbreviation loop := (for_chunks output_path base_name master_schema year_filter).

(** Lines 51-60 on the counters. *)
Lemma filter_step_counters (st st1 : state) (chunk : DataFrame) (o : option DataFrame) :
  filter_step year_filter st chunk = (st1, o) →
  total_rows st1 = total_rows st ∧
  rows_in_current_part st1 = rows_in_current_part st ∧
  match o with
  | None => filtered_rows st1 = (filtered_rows st + len chunk)%nat
  | Some chunk1 =>
      (len chunk1 <= len chunk)%nat ∧
      filtered_rows st1 = (filtered_rows st + (len chunk - len chunk1))%nat ∧
      (filter_applies year_filter chunk = true → len chunk1 ≠ 0%nat)
  end.
Proof.
  unfold filter_step, filter_applies. destruct year_filter as [yf|].
  - destruct (has_column _ chunk).
    + pose proof (apply_year_filter_len yf chunk) as Hle.
      destruct (len (apply_year_filter yf chunk) =? 0)%nat eqn:Hlen;
        intros [= <- <-]; simpl.
      * apply Nat.eqb_eq in Hlen. rewrite Hlen, Nat.sub_0_r. done.
      * apply Nat.eqb_neq in Hlen. done.
    + intros [= <- <-]. simpl. rewrite Nat.sub_diag, Nat.add_0_r. done.
  - intros [= <- <-]. simpl. rewrite Nat.sub_diag, Nat.add_0_r. done.
Qed.

(** Everything one iteration that does not raise does: to the counters,
    the log and the directory. *)
Lemma iteration_effect (st st' : state) (chunk : DataFrame) :
  wf st → step st chunk = Next st' →
  ∃ tbl,
    (length tbl <= len chunk)%nat ∧
    total_rows st' = (total_rows st + length tbl)%nat ∧
    filtered_rows st' = (filtered_rows st + (len chunk - length tbl))%nat ∧
    ((tbl = [] ∧ trace st' = trace st ∧ disk st' = disk st ∧
      current_writer st' = current_writer st ∧
      output_files st' = output_files st ∧ part_num st' = part_num st ∧
      rows_in_current_part st' = rows_in_current_part st) ∨
     ∃ f0,
       (match current_writer st with
        | Some _ => disk st !! path (part_num st)
        | None => Some new_file
        end) = Some f0 ∧
       let p := path (part_num st) in
       let f := append_group tbl f0 in
       let reached := Qle_bool (inject_Z MAX_SIZE_MB * (9 # 10)) (get_file_size_mb f) in
       trace st' =
         trace st ++ (match current_writer st with Some _ => [] | None => [Opened p] end)
                  ++ [Wrote p tbl]
                  ++ (if reached then [Closed p; Appended p] else []) ∧
       disk st' = <[p := if reached then finalize f else f]> (disk st) ∧
       current_writer st' = (if reached then None else Some p) ∧
       output_files st' = output_files st ++ (if reached then [p] else []) ∧
       part_num st' = (if reached then S (part_num st) else part_num st) ∧
       rows_in_current_part st' =
         ((match current_writer st with
           | Some _ => rows_in_current_part st
           | None => 0
           end) + length tbl)%nat ∧
       (filter_applies year_filter chunk = true → tbl ≠ [])).
Proof.
  intros Hwf. unfold process_chunk.
  destruct (filter_step year_filter st chunk) as [st1 [chunk1|]] eqn:Hfilter.
  2: { pose proof (filter_step_counters _ _ _ _ Hfilter) as (Ht & Hr & Hf).
       apply filter_step_files in Hfilter as (? & ? & ? & ? & ?).
       intros [= <-]. exists []. simpl. rewrite Nat.add_0_r, Nat.sub_0_r.
       split; [lia|]. split; [done|]. split; [done|]. by left. }
  pose proof (filter_step_counters _ _ _ _ Hfilter) as (Htot & Hrows & Hle & Hfil & Hne).
  apply filter_step_files in Hfilter as (Ht & Hd & Hw & Ho & Hp).
  destruct (coerce_chunk master_schema chunk1) as [chunk2|e] eqn:Hcoerce; [|done].
  apply coerce_chunk_len in Hcoerce.
  unfold write_step, open_writer. cbn [current_writer count_total].
  rewrite Hw. destruct (current_writer st) as [q|] eqn:Hq.
  - destruct (wf_writer _ _ _ Hwf q Hq) as (-> & f0 & Hf0 & _).
    cbn [current_writer count_total]. rewrite Hw.
    destruct (from_pandas chunk2 master_schema) as [tbl|e] eqn:Htbl; [|done].
    apply from_pandas_len in Htbl. rewrite Hcoerce in Htbl.
    intros [= <-]. exists tbl. rewrite Htbl.
    assert (disk st1 !! path (part_num st) = Some f0) as Hf1 by by rewrite Hd.
    unfold check_size. cbn [disk write_table count_total].
    rewrite lookup_alter_eq, Hf1. cbn [fmap option_fmap option_map].
    split; [done|]. cbv zeta.
    destruct (Qle_bool _ _) eqn:Hreach; simpl;
      rewrite ?(alter_as_insert _ _ _ _ Hf1), ?alter_insert_eq, ?Hd, ?Ht, ?Ho, ?Hp, ?Htot, ?Hrows, ?Hfil, ?Hcoerce,
              ?Htbl, ?app_nil_r;
      (split; [done|]); (split; [done|]); right; exists f0; simpl; rewrite ?Hreach, ?app_nil_r;
      rewrite <- ?app_assoc; repeat split; try done;
      intros Happ ->; apply (Hne Happ); by rewrite <- Htbl.
  - cbn [current_writer part_num count_total]. rewrite Hp.
    destruct (from_pandas chunk2 master_schema) as [tbl|e] eqn:Htbl; [|done].
    apply from_pandas_len in Htbl. rewrite Hcoerce in Htbl.
    intros [= <-]. exists tbl. rewrite Htbl.
    unfold check_size. cbn [disk write_table count_total].
    rewrite alter_insert_eq, lookup_insert_eq.
    split; [done|]. cbv zeta.
    destruct (Qle_bool _ _) eqn:Hreach; simpl;
      rewrite ?alter_insert_eq, ?insert_insert_eq, ?Hd, ?Ht, ?Ho, ?Hp, ?Htot, ?Hfil,
              ?Hcoerce, ?Htbl, ?app_nil_r;
      (split; [done|]); (split; [done|]); right; exists new_file; simpl; rewrite ?Hreach, ?app_nil_r;
      rewrite <- ?app_assoc; repeat split; try done;
      intros Happ ->; apply (Hne Happ); by rewrite <- Htbl.
Qed.

(** An iteration that raises has written nothing; it has at most opened
    the current part, when no writer was open and the chunk did not fit
    the schema. *)
Lemma iteration_abort (st st' : state) (chunk : DataFrame) (e : exn) :
  wf st → step st chunk = Abort st' e →
  output_files st' = output_files st ∧ part_num st' = part_num st ∧
  ((trace st' = trace st ∧ disk st' = disk st ∧
    current_writer st' = current_writer st) ∨
   (current_writer st = None ∧
    current_writer st' = Some (path (part_num st)) ∧
    disk st' = <[path (part_num st) := new_file]> (disk st) ∧
    trace st' = trace st ++ [Opened (path (part_num st))])).
Proof.
  intros Hwf. unfold process_chunk.
  destruct (filter_step year_filter st chunk) as [st1 [chunk1|]] eqn:Hfilter; [|done].
  apply filter_step_files in Hfilter as (Ht & Hd & Hw & Ho & Hp).
  destruct (coerce_chunk master_schema chunk1) as [chunk2|e1].
  2: { intros [= <- <-]. split; [done|]. split; [done|]. by left. }
  unfold write_step, open_writer. cbn [current_writer count_total].
  rewrite Hw. destruct (current_writer st) as [q|] eqn:Hq.
  - cbn [current_writer count_total]. rewrite Hw.
    destruct (from_pandas chunk2 master_schema) as [tbl|e1]; [done|].
    intros [= <- <-]. simpl. split; [done|]. split; [done|]. left.
    by rewrite Hw.
  - cbn [current_writer part_num count_total]. rewrite Hp.
    destruct (from_pandas chunk2 master_schema) as [tbl|e1]; [done|].
    intros [= <- <-]. simpl. rewrite Hd, Ht. split; [done|]. split; [done|].
    by right.
Qed.

(** A property of states that every iteration keeps holds when the loop
    ends. *)
Lemma loop_invariant (I J : state -> Prop) (items : list read_item) (st : state) :
  (∀ s chunk s', Chunk chunk ∈ items → wf s → below_threshold s → I s →
                 step s chunk = Next s' → I s') →
  (∀ s chunk s' e, Chunk chunk ∈ items → wf s → below_threshold s → I s →
                   step s chunk = Abort s' e → J s') →
  (∀ s, I s → J s) →
  wf st → below_threshold st → I st →
  match loop st items with
  | Next st' => wf st' ∧ below_threshold st' ∧ I st'
  | Abort st' _ => wf st' ∧ J st'
  end.
Proof.
  revert st. induction items as [|[chunk|e] items IH];
    intros st Hnext Habort HIJ Hwf Hb HI.
  - done.
  - cbn [for_chunks].
    pose proof (process_chunk_spec output_path base_name master_schema year_filter
                  st chunk Hwf Hb) as Hstep.
    destruct (step st chunk) as [st1|st1 e] eqn:Hst.
    + destruct Hstep as (Hwf1 & Hb1 & _).
      assert (I st1) as HI1 by (apply (Hnext st chunk st1); try done; by left).
      apply (IH st1); try done.
      * intros s c s' Hc. apply Hnext. by right.
      * intros s c s' e' Hc. apply Habort. by right.
    + destruct Hstep as [Hwf1 _]. split; [done|].
      apply (Habort st chunk st1 e); try done. by left.
  - split; [done|]. by apply HIJ.
Qed.

Lemma opened_app (log1 log2 : list event) :
  opened (log1 ++ log2) = opened log1 ++ opened log2.
Proof. apply omap_app. Qed.

(** ** Which files a run touches *)

(** The writers opened so far are those of the recorded files and of the
    open one, and any other file of the directory is as it was. *)
Lemma frame_next (disk0 : gmap string parquet_file) (st st' : state) (chunk : DataFrame) :
  wf st → step st chunk = Next st' →
  opened (trace st) = output_files st ++ option_list (current_writer st) ∧
  (∀ q, q ∉ opened (trace st) → disk st !! q = disk0 !! q) →
  opened (trace st') = output_files st' ++ option_list (current_writer st') ∧
  (∀ q, q ∉ opened (trace st') → disk st' !! q = disk0 !! q).
Proof.
  intros Hwf Hstep [Hop Hfr].
  destruct (iteration_effect st st' chunk Hwf Hstep)
    as (tbl & _ & _ & _ & [(_ & Ht & Hd & Hw & Ho & _)|(f0 & Hf0 & Hrun)]).
  { by rewrite Ht, Hd, Hw, Ho. }
  cbv zeta in Hrun. destruct Hrun as (Ht & Hd & Hw & Ho & _).
  rewrite Ht, Hd, Hw, Ho, !opened_app, Hop.
  destruct (current_writer st) as [q|] eqn:Hq.
  - destruct (wf_writer _ _ _ Hwf q Hq) as [-> _].
    destruct (Qle_bool _ _); simpl; rewrite ?app_nil_r; (split; [done|]);
      intros q Hnot; rewrite lookup_insert_ne; try (apply Hfr; by rewrite Hop);
      intros <-; apply Hnot, elem_of_app; right; by left.
  - destruct (Qle_bool _ _); simpl; rewrite ?app_nil_r; (split; [done|]);
      intros q Hnot; rewrite lookup_insert_ne;
      try (apply Hfr; rewrite Hop; simpl; rewrite app_nil_r;
           intros Hin; apply Hnot, elem_of_app; by left);
      intros <-; apply Hnot, elem_of_app; right; by left.
Qed.

Lemma frame_abort (disk0 : gmap string parquet_file) (st st' : state)
    (chunk : DataFrame) (e : exn) :
  wf st → step st chunk = Abort st' e →
  opened (trace st) = output_files st ++ option_list (current_writer st) ∧
  (∀ q, q ∉ opened (trace st) → disk st !! q = disk0 !! q) →
  opened (trace st') = output_files st' ++ option_list (current_writer st') ∧
  (∀ q, q ∉ opened (trace st') → disk st' !! q = disk0 !! q).
Proof.
  intros Hwf Hstep [Hop Hfr].
  destruct (iteration_abort st st' chunk e Hwf Hstep)
    as (Ho & _ & [(Ht & Hd & Hw)|(Hnone & Hw & Hd & Ht)]).
  { by rewrite Ht, Hd, Hw, Ho. }
  rewrite Ht, Hd, Hw, Ho, opened_app, Hop, Hnone. simpl.
  rewrite app_nil_r. split; [done|].
  intros q Hnot. rewrite lookup_insert_ne.
  - apply Hfr. rewrite Hop, Hnone. simpl. rewrite app_nil_r.
    intros Hin. apply Hnot, elem_of_app. by left.
  - intros <-. apply Hnot, elem_of_app. right. by left.
Qed.

Lemma loop_frame (disk0 : gmap string parquet_file) (items : list read_item) :
  match loop (initial_state disk0) items with
  | Next st | Abort st _ =>
      wf st ∧
      opened (trace st) = output_files st ++ option_list (current_writer st) ∧
      (∀ q, q ∉ opened (trace st) → disk st !! q = disk0 !! q)
  end.
Proof.
  destruct (initial_state_spec output_path base_name disk0) as (Hwf & Hb & _).
  pose proof (loop_invariant
    (fun st => opened (trace st) = output_files st ++ option_list (current_writer st) ∧
               (∀ q, q ∉ opened (trace st) → disk st !! q = disk0 !! q))
    (fun st => opened (trace st) = output_files st ++ option_list (current_writer st) ∧
               (∀ q, q ∉ opened (trace st) → disk st !! q = disk0 !! q))
    items (initial_state disk0)) as Hinv. cbv beta in Hinv.
  specialize (Hinv ltac:(intros s c s' _ Hs _ HI Hstep; by apply (frame_next disk0 s s' c))
                   ltac:(intros s c s' e _ Hs _ HI Hstep; by apply (frame_abort disk0 s s' c e))
                   ltac:(done) Hwf Hb ltac:(done)).
  destruct (loop (initial_state disk0) items) as [st|st e]; [|done].
  by destruct Hinv as (? & _ & ?).
Qed.

Lemma opened_parts (st : state) :
  wf st →
  output_files st ++ option_list (current_writer st) =
    path <$> seq 1 (length (output_files st ++ option_list (current_writer st))).
Proof.
  intros Hwf. pose proof (wf_part _ _ _ Hwf) as Hpart.
  rewrite (wf_outputs _ _ _ Hwf) at 1.
  rewrite length_app, (wf_outputs _ _ _ Hwf), length_fmap, length_seq.
  destruct (current_writer st) as [p|] eqn:Hw; simpl.
  - destruct (wf_writer _ _ _ Hwf p Hw) as [-> _].
    rewrite (seq_snoc (part_num st - 1 + 1)) by lia. rewrite fmap_app. simpl.
    by replace (part_num st - 1 + 1 - 1)%nat with (part_num st - 1)%nat by lia;
       replace (part_num st - 1 + 1)%nat with (part_num st) by lia.
  - by rewrite app_nil_r, Nat.add_0_r.
Qed.

Lemma try_block_frame (disk0 : gmap string parquet_file) (items : list read_item) :
  let run := try_block output_path base_name master_schema year_filter
               (initial_state disk0) items in
  (∀ q, q ∉ opened (trace run.1) → disk run.1 !! q = disk0 !! q) ∧
  opened (trace run.1) = path <$> seq 1 (length (opened (trace run.1))) ∧
  (∀ outs, run.2 = Ok outs → opened (trace run.1) = outs).
Proof.
  cbv zeta. unfold try_block. pose proof (loop_frame disk0 items) as Hloop.
  destruct (loop (initial_state disk0) items) as [st|st e];
    destruct Hloop as (Hwf & Hop & Hfr); pose proof (opened_parts st Hwf) as Hparts;
    cbn [fst snd]; [unfold close_last|unfold clean_up];
    destruct (current_writer st) as [p|] eqn:Hw; cbn [trace disk output_files];
    rewrite ?opened_app; simpl; rewrite ?app_nil_r.
  - split; [|split].
    + intros q Hq. rewrite lookup_alter_ne; [by apply Hfr|].
      intros <-. apply Hq. rewrite Hop. apply elem_of_app. right. by left.
    + by rewrite Hop.
    + intros outs [= <-]. by rewrite Hop.
  - split; [done|]. split; [by rewrite Hop|].
    intros outs [= <-]. simpl in Hop. by rewrite Hop, app_nil_r.
  - split; [|split; [by rewrite Hop|done]].
    intros q Hq. rewrite lookup_alter_ne; [by apply Hfr|].
    intros <-. apply Hq. rewrite Hop. apply elem_of_app. right. by left.
  - split; [done|]. split; [by rewrite Hop|done].
Qed.

(** ** The counters *)

(** The shard whose rows [rows_in_current_part] counts: the open one, or
    the one closed last. *)
Local Abbreviation counted_part st :=
  (match current_writer st with
   | Some p => Some p
   | None => last (output_files st)
   end).

(** One iteration keeps [total_rows] the number of rows in the shards and
    [rows_in_current_part] the number of rows in the current one. *)
Lemma counters_next (st st' : state) (chunk : DataFrame) :
  wf st → step st chunk = Next st' →
  total_rows st = length (shard_rows st) ∧
  rows_in_current_part st =
    length (from_option (rows_at (disk st)) [] (counted_part st)) →
  total_rows st' = length (shard_rows st') ∧
  rows_in_current_part st' =
    length (from_option (rows_at (disk st')) [] (counted_part st')).
Proof.
  intros Hwf Hstep [Htot Hpart].
  pose proof (current_not_recorded output_path base_name st Hwf) as Hfresh.
  destruct (iteration_effect st st' chunk Hwf Hstep)
    as (tbl & _ & Ht & _ & [(-> & _ & Hd & Hw & Ho & _ & Hr)|(f0 & Hf0 & Hrun)]).
  { unfold shard_rows in *. rewrite Ht, Hr, Hd, Hw, Ho, Htot, Hpart. simpl.
    split; [lia|done]. }
  cbv zeta in Hrun. destruct Hrun as (_ & Hd & Hw & Ho & _ & Hr & _).
  assert (rows_at (disk st') <$> output_files st = rows_at (disk st) <$> output_files st)
    as Hsame.
  { apply rows_at_ext. intros q Hq. rewrite Hd, lookup_insert_ne; [done|].
    by intros <-. }
  assert (rows_at (disk st') (path (part_num st)) = file_rows f0 ++ tbl) as Hnew.
  { unfold rows_at. rewrite Hd, lookup_insert_eq. simpl.
    destruct (Qle_bool _ _); apply file_rows_append_group. }
  assert (from_option (rows_at (disk st)) [] (current_writer st) = file_rows f0 ∧
          (match current_writer st with
           | Some _ => rows_in_current_part st
           | None => 0%nat
           end) = length (file_rows f0)) as [Hcur Hlen].
  { destruct (current_writer st) as [q|] eqn:Hq.
    - destruct (wf_writer _ _ _ Hwf q Hq) as [-> _]. simpl in *.
      unfold rows_at in *. rewrite Hf0 in *. by simpl in *.
    - by injection Hf0 as <-. }
  unfold shard_rows in *. rewrite Ht, Hr, Hw, Ho, Hlen, Htot, Hcur.
  destruct (Qle_bool _ _); simpl.
  - rewrite last_snoc. simpl. rewrite fmap_app, concat_app, Hsame. simpl.
    rewrite !Hnew, !app_nil_r, !length_app. split; lia.
  - rewrite app_nil_r, Hsame, Hnew, !length_app. split; lia.
Qed.

(** Every row read is counted once, as written or as filtered out. *)
Lemma loop_reads (items : list read_item) (st st' : state) :
  wf st → below_threshold st → loop st items = Next st' →
  (total_rows st' + filtered_rows st' =
   total_rows st + filtered_rows st + length (chunk_rows items))%nat.
Proof.
  revert st. induction items as [|[chunk|e] items IH]; intros st Hwf Hb.
  - intros [= <-]. simpl. lia.
  - cbn [for_chunks chunk_rows].
    pose proof (process_chunk_spec output_path base_name master_schema year_filter
                  st chunk Hwf Hb) as Hspec.
    destruct (step st chunk) as [st1|st1 e] eqn:Hstep; [|done].
    destruct Hspec as (Hwf1 & Hb1 & _). intros Hloop.
    rewrite (IH st1 Hwf1 Hb1 Hloop), length_app.
    destruct (iteration_effect st st1 chunk Hwf Hstep) as (tbl & Hle & Ht & Hf & _).
    unfold len in *. lia.
  - done.
Qed.

Lemma loop_counters (disk0 : gmap string parquet_file) (items : list read_item)
    (st : state) :
  loop (initial_state disk0) items = Next st →
  wf st ∧
  total_rows st = length (shard_rows st) ∧
  rows_in_current_part st =
    length (from_option (rows_at (disk st)) [] (counted_part st)) ∧
  (total_rows st + filtered_rows st = length (chunk_rows items))%nat.
Proof.
  intros Hloop.
  destruct (initial_state_spec output_path base_name disk0) as (Hwf & Hb & _).
  pose proof (loop_reads items _ _ Hwf Hb Hloop) as Hreads.
  pose proof (loop_invariant
    (fun st => total_rows st = length (shard_rows st) ∧
               rows_in_current_part st =
                 length (from_option (rows_at (disk st)) [] (counted_part st)))
    (fun _ => True) items (initial_state disk0)
    ltac:(intros s c s' _ Hs _ HI Hstep; by apply (counters_next s s' c))
    ltac:(done) ltac:(done) Hwf Hb ltac:(done)) as Hinv.
  rewrite Hloop in Hinv. destruct Hinv as (Hwf' & _ & Htot & Hpart).
  by simpl in Hreads.
Qed.

(** ** The sizes of the shards *)

(** A file as a write left it: it was empty or below the threshold before
    its last row group was written; with [nonempty], that row group holds
    a row. *)
Local Abbreviation written_on nonempty f :=
  (∃ f0 tbl, f = append_group tbl f0 ∧
             (row_groups f0 = [] ∨ reached f0 = false) ∧
             (nonempty → tbl ≠ [])).

Lemma sizes_next (nonempty : Prop) (st st' : state) (chunk : DataFrame) :
  (nonempty → filter_applies year_filter chunk = true) →
  wf st → below_threshold st → step st chunk = Next st' →
  (∀ p, p ∈ output_files st →
     ∃ f, disk st !! p = Some (finalize f) ∧ written_on nonempty f ∧ reached f = true) ∧
  (∀ p, current_writer st = Some p →
     ∃ f, disk st !! p = Some f ∧ written_on nonempty f) →
  (∀ p, p ∈ output_files st' →
     ∃ f, disk st' !! p = Some (finalize f) ∧ written_on nonempty f ∧ reached f = true) ∧
  (∀ p, current_writer st' = Some p →
     ∃ f, disk st' !! p = Some f ∧ written_on nonempty f).
Proof.
  intros Happ Hwf Hb Hstep [Hsealed Hopen].
  pose proof (current_not_recorded output_path base_name st Hwf) as Hfresh.
  destruct (iteration_effect st st' chunk Hwf Hstep)
    as (tbl & _ & _ & _ & [(_ & _ & Hd & Hw & Ho & _)|(f0 & Hf0 & Hrun)]).
  { by rewrite Hd, Hw, Ho. }
  cbv zeta in Hrun. destruct Hrun as (_ & Hd & Hw & Ho & _ & _ & Hne).
  assert (written_on nonempty (append_group tbl f0)) as Hwritten.
  { exists f0, tbl. split; [done|]. split; [|by intros H%Happ%Hne].
    destruct (current_writer st) as [q|] eqn:Hq.
    - destruct (wf_writer _ _ _ Hwf q Hq) as [-> _]. right. by apply (Hb _ _ Hq).
    - injection Hf0 as <-. by left. }
  rewrite Hd, Hw, Ho.
  destruct (Qle_bool _ (get_file_size_mb (append_group tbl f0))) eqn:Hreach.
  - split; [|done]. intros p [Hp|Hp%list_elem_of_singleton]%elem_of_app.
    + rewrite lookup_insert_ne; [by apply Hsealed|]. by intros <-.
    + subst p. rewrite lookup_insert_eq. by exists (append_group tbl f0).
  - rewrite app_nil_r. split.
    + intros p Hp. rewrite lookup_insert_ne; [by apply Hsealed|]. by intros <-.
    + intros p [= <-]. rewrite lookup_insert_eq. by exists (append_group tbl f0).
Qed.

Lemma loop_sizes (nonempty : Prop) (disk0 : gmap string parquet_file)
    (items : list read_item) (st : state) :
  (nonempty → ∀ chunk, Chunk chunk ∈ items → filter_applies year_filter chunk = true) →
  loop (initial_state disk0) items = Next st →
  wf st ∧ below_threshold st ∧
  (∀ p, p ∈ output_files st →
     ∃ f, disk st !! p = Some (finalize f) ∧ written_on nonempty f ∧ reached f = true) ∧
  (∀ p, current_writer st = Some p →
     ∃ f, disk st !! p = Some f ∧ written_on nonempty f).
Proof.
  intros Happ Hloop.
  destruct (initial_state_spec output_path base_name disk0) as (Hwf & Hb & _).
  pose proof (loop_invariant
    (fun st =>
       (∀ p, p ∈ output_files st →
          ∃ f, disk st !! p = Some (finalize f) ∧ written_on nonempty f ∧ reached f = true) ∧
       (∀ p, current_writer st = Some p →
          ∃ f, disk st !! p = Some f ∧ written_on nonempty f))
    (fun _ => True) items (initial_state disk0)) as Hinv. cbv beta in Hinv.
  rewrite Hloop in Hinv. apply Hinv; try done.
  - intros s c s' Hc Hs Hbs HI Hstep. apply (sizes_next nonempty s s' c); try done.
    intros H. by apply Happ.
  - split; [by intros p ?%elem_of_nil|done].
Qed.

Lemma try_block_sizes (nonempty : Prop) (disk0 : gmap string parquet_file)
    (items : list read_item) (st : state) (outs : list string) :
  (nonempty → ∀ chunk, Chunk chunk ∈ items → filter_applies year_filter chunk = true) →
  try_block output_path base_name master_schema year_filter
    (initial_state disk0) items = (st, Ok outs) →
  ∀ i p, outs !! i = Some p →
    ∃ f, disk st !! p = Some (finalize f) ∧ written_on nonempty f ∧
         ((S i < length outs)%nat → reached f = true).
Proof.
  intros Happ. unfold try_block.
  destruct (loop (initial_state disk0) items) as [st1|st1 e] eqn:Hloop; [|done].
  destruct (loop_sizes nonempty disk0 items st1 Happ Hloop)
    as (Hwf & Hb & Hsealed & Hopen).
  intros [= <- <-]. unfold close_last.
  destruct (current_writer st1) as [q|] eqn:Hq; cbn [output_files disk].
  - pose proof (current_not_recorded output_path base_name st1 Hwf) as Hfresh.
    destruct (wf_writer _ _ _ Hwf q Hq) as [-> _].
    intros i p Hi. rewrite length_app. simpl.
    destruct (decide (i < length (output_files st1))%nat) as [Hlt|Hge].
    + rewrite lookup_app_l in Hi by done. apply list_elem_of_lookup_2 in Hi.
      rewrite lookup_alter_ne by (by intros <-).
      destruct (Hsealed _ Hi) as (f & Hf & Hwr & Hr). by exists f.
    + rewrite lookup_app_r in Hi by lia.
      apply list_elem_of_lookup_2, list_elem_of_singleton in Hi. subst p.
      rewrite lookup_alter_eq. destruct (Hopen _ eq_refl) as (f & Hf & Hwr).
      exists f. rewrite Hf. split; [done|]. split; [done|]. lia.
  - intros i p Hi. apply list_elem_of_lookup_2 in Hi.
    destruct (Hsealed _ Hi) as (f & Hf & Hwr & Hr). by exists f.
Qed.

Lemma try_block_counters (disk0 : gmap string parquet_file)
    (items : list read_item) (st : state) (outs : list string) :
  try_block output_path base_name master_schema year_filter
    (initial_state disk0) items = (st, Ok outs) →
  total_rows st = length (concat (rows_at (disk st) <$> outs)) ∧
  (total_rows st + filtered_rows st = length (chunk_rows items))%nat ∧
  rows_in_current_part st = length (from_option (rows_at (disk st)) [] (last outs)).
Proof.
  unfold try_block.
  destruct (loop (initial_state disk0) items) as [st1|st1 e] eqn:Hloop; [|done].
  destruct (loop_counters disk0 items st1 Hloop) as (Hwf & Htot & Hpart & Hsum).
  destruct (close_last_spec output_path base_name st1 Hwf) as (_ & _ & Hrows & _).
  intros [= <- <-]. rewrite Hrows. split; [|split].
  - unfold close_last. by destruct (current_writer st1).
  - unfold close_last. by destruct (current_writer st1).
  - unfold close_last in *. destruct (current_writer st1) as [q|]; [|done].
    cbn [output_files disk rows_in_current_part]. rewrite last_snoc. simpl.
    by rewrite rows_at_alter_finalize.
Qed.

(** ** Files left by earlier runs *)

Lemma lookup_insert_agree (d1 d2 : gmap string parquet_file) (p q : string)
    (f : parquet_file) :
  (q ≠ p → d1 !! q = d2 !! q) → <[p := f]> d1 !! q = <[p := f]> d2 !! q.
Proof.
  intros H. destruct (decide (q = p)) as [->|Hne].
  - by rewrite !lookup_insert_eq.
  - rewrite !lookup_insert_ne by done. by apply H.
Qed.

Lemma lookup_alter_agree (d1 d2 : gmap string parquet_file) (p q : string)
    (g : parquet_file -> parquet_file) :
  d1 !! q = d2 !! q → alter g p d1 !! q = alter g p d2 !! q.
Proof.
  intros H. destruct (decide (q = p)) as [->|Hne].
  - by rewrite !lookup_alter_eq, H.
  - by rewrite !lookup_alter_ne.
Qed.

Local Ltac recorded_or_open Hq :=
  rewrite ?elem_of_app, ?list_elem_of_singleton in Hq;
  repeat match type of Hq with
         | _ ∨ _ => destruct Hq as [Hq|Hq]
         | Some _ = Some _ => injection Hq as Hq
         | None = Some _ => discriminate Hq
         end;
  subst; solve [done | by left | by right].

Lemma count_filtered_same_run (n : nat) (st1 st2 : state) :
  same_run st1 st2 → same_run (count_filtered n st1) (count_filtered n st2).
Proof.
  unfold same_run. simpl. intros (-> & -> & -> & -> & -> & -> & -> & -> & Hd).
  by repeat (split; [done|]).
Qed.

Lemma write_step_same_run (st1 st2 : state) (chunk : DataFrame) :
  same_run st1 st2 →
  match write_step output_path base_name master_schema st1 chunk,
        write_step output_path base_name master_schema st2 chunk with
  | Next st1', Next st2' => same_run st1' st2'
  | Abort st1' e1, Abort st2' e2 => e1 = e2 ∧ same_run st1' st2'
  | _, _ => False
  end.
Proof.
  destruct st1 as [o1 n1 w1 s1 t1 f1 r1 d1 l1], st2 as [o2 n2 w2 s2 t2 f2 r2 d2 l2].
  unfold same_run. simpl.
  intros (<- & <- & <- & <- & <- & <- & <- & <- & Hd).
  unfold write_step, open_writer. simpl. destruct w1 as [p|]; simpl.
  - destruct (from_pandas chunk master_schema) as [tbl|e].
    2: { split; [done|]. by repeat (split; [done|]). }
    unfold check_size. simpl. rewrite !lookup_alter_eq, <- (Hd p) by (by right).
    destruct (d1 !! p) as [f|]; simpl.
    + destruct (Qle_bool _ _); simpl; repeat (split; [done|]); intros q Hq;
        do 2 (try apply lookup_alter_agree); apply Hd;
        recorded_or_open Hq.
    + repeat (split; [done|]). intros q Hq. apply lookup_alter_agree. by apply Hd.
  - destruct (from_pandas chunk master_schema) as [tbl|e].
    2: { split; [done|]. repeat (split; [done|]). intros q Hq.
         apply lookup_insert_agree. intros Hne. apply Hd.
         destruct Hq as [Hq|[= <-]]; [by left|done]. }
    unfold check_size. simpl. rewrite !lookup_alter_eq, !lookup_insert_eq. simpl.
    destruct (Qle_bool _ _); simpl; repeat (split; [done|]); intros q Hq;
      do 2 (try apply lookup_alter_agree); apply lookup_insert_agree;
      intros Hne; apply Hd;
      recorded_or_open Hq.
Qed.

(** An iteration does the same from two states that differ only in files
    the run has not written. *)
Lemma process_chunk_same_run (st1 st2 : state) (chunk : DataFrame) :
  same_run st1 st2 →
  match step st1 chunk, step st2 chunk with
  | Next st1', Next st2' => same_run st1' st2'
  | Abort st1' e1, Abort st2' e2 => e1 = e2 ∧ same_run st1' st2'
  | _, _ => False
  end.
Proof.
  intros Hsame. unfold process_chunk, filter_step.
  destruct year_filter as [yf|]; [destruct (has_column _ chunk)|].
  - pose proof (count_filtered_same_run
                  (len chunk - len (apply_year_filter yf chunk)) _ _ Hsame) as Hsame'.
    cbv zeta. destruct (len _ =? 0)%nat; [done|].
    destruct (coerce_chunk _ _) as [chunk'|e]; [|done].
    by apply write_step_same_run.
  - destruct (coerce_chunk _ _) as [chunk'|e]; [|done].
    by apply write_step_same_run.
  - destruct (coerce_chunk _ _) as [chunk'|e]; [|done].
    by apply write_step_same_run.
Qed.

Lemma for_chunks_same_run (items : list read_item) (st1 st2 : state) :
  same_run st1 st2 →
  match loop st1 items, loop st2 items with
  | Next st1', Next st2' => same_run st1' st2'
  | Abort st1' e1, Abort st2' e2 => e1 = e2 ∧ same_run st1' st2'
  | _, _ => False
  end.
Proof.
  revert st1 st2. induction items as [|[chunk|e] items IH]; intros st1 st2 Hsame.
  - done.
  - cbn [for_chunks]. pose proof (process_chunk_same_run st1 st2 chunk Hsame) as Hstep.
    destruct (step st1 chunk) as [st1'|st1' e1], (step st2 chunk) as [st2'|st2' e2];
      try done.
    by apply IH.
  - done.
Qed.

Lemma try_block_same_run (items : list read_item) (disk1 disk2 : gmap string parquet_file) :
  let run1 := try_block output_path base_name master_schema year_filter
                (initial_state disk1) items in
  let run2 := try_block output_path base_name master_schema year_filter
                (initial_state disk2) items in
  run1.2 = run2.2 ∧ same_run run1.1 run2.1.
Proof.
  cbv zeta. unfold try_block.
  assert (same_run (initial_state disk1) (initial_state disk2)) as Hinit.
  { unfold same_run. simpl. repeat (split; [done|]).
    intros q Hq. rewrite elem_of_nil in Hq. recorded_or_open Hq. }
  pose proof (for_chunks_same_run items _ _ Hinit) as Hloop.
  destruct (loop (initial_state disk1) items) as [st1|st1 e1],
           (loop (initial_state disk2) items) as [st2|st2 e2]; try done.
  - unfold same_run, close_last in *.
    destruct Hloop as (Ho & Hn & Hw & Hs & Ht & Hf & Hr & Hl & Hd).
    rewrite <- Hw. destruct (current_writer st1) as [p|] eqn:Hp; simpl;
      rewrite <- ?Ho, <- ?Hn, <- ?Hs, <- ?Ht, <- ?Hf, <- ?Hr, <- ?Hl, ?Hp;
      repeat (split; [done|]); [|done].
    intros q Hq. apply lookup_alter_agree, Hd.
    recorded_or_open Hq.
  - destruct Hloop as [-> Hloop]. split; [done|].
    unfold same_run, clean_up in *.
    destruct Hloop as (Ho & Hn & Hw & Hs & Ht & Hf & Hr & Hl & Hd).
    rewrite <- Hw. destruct (current_writer st1) as [p|] eqn:Hp; simpl;
      rewrite <- ?Ho, <- ?Hn, <- ?Hs, <- ?Ht, <- ?Hf, <- ?Hr, <- ?Hl, ?Hp;
      repeat (split; [done|]); [|done].
    intros q Hq. apply lookup_alter_agree, Hd. recorded_or_open Hq.
Qed.

Lemma try_block_opened (disk0 : gmap string parquet_file) (items : list read_item) :
  let run := try_block output_path base_name master_schema year_filter
               (initial_state disk0) items in
  ∀ q, q ∈ opened (trace run.1) →
       q ∈ output_files run.1 ∨ current_writer run.1 = Some q.
Proof.
  cbv zeta. unfold try_block. pose proof (loop_frame disk0 items) as Hloop.
  destruct (loop (initial_state disk0) items) as [st|st e];
    destruct Hloop as (_ & Hop & _); cbn [fst];
    [unfold close_last|unfold clean_up];
    destruct (current_writer st) as [p|] eqn:Hw; cbn [trace output_files current_writer];
    rewrite ?opened_app; simpl; rewrite ?app_nil_r, Hop; simpl; rewrite ?app_nil_r;
    intros q Hq; rewrite ?Hw; try (by left).
  apply elem_of_app in Hq as [Hq|Hq%list_elem_of_singleton]; [by left|].
  right. by subst.
Qed.

End MoreLoopFacts.

(** A year filter does nothing to a chunk without a year column. *)
Lemma process_chunk_no_year_column (output_path base_name : string)
    (master_schema : schema) (yf : Z * Z) (st : state) (chunk : DataFrame) :
  has_column "collision_year" chunk = false →
  process_chunk output_path base_name master_schema (Some yf) st chunk =
  process_chunk output_path base_name master_schema None st chunk.
Proof. intros H. unfold process_chunk, filter_step. by rewrite H. Qed.

Lemma for_chunks_no_year_column (output_path base_name : string)
    (master_schema : schema) (yf : Z * Z) (items : list read_item) (st : state) :
  (∀ chunk, Chunk chunk ∈ items → has_column "collision_year" chunk = false) →
  for_chunks output_path base_name master_schema (Some yf) st items =
  for_chunks output_path base_name master_schema None st items.
Proof.
  revert st. induction items as [|[chunk|e] items IH]; intros st Hno; try done.
  cbn [for_chunks]. rewrite process_chunk_no_year_column by (apply Hno; by left).
  destruct (process_chunk _ _ _ None st chunk) as [st'|st' e]; [|done].
  apply IH. intros c Hc. apply Hno. by right.
Qed.

(** ** The chunked converter: files, counters and sizes *)

(** The chunked converter opens the parts of its input's stem from part 1
    on, without a gap, and changes no other file of the directory: a file
    it did not open, a higher part left by an earlier run included, is as
    it was before the call.  When the call returns, the parts it opened
    are the paths it returns. *)
Theorem chunked_converter_touches_only_its_parts (csv_path : string)
    (src : csv_source) (output_dir : string) (year_filter : option (Z * Z))
    (disk0 : gmap string parquet_file) :
  let run := convert_large_csv_chunked csv_path src output_dir year_filter disk0 in
  (∀ q, q ∉ opened (trace run.1) → disk run.1 !! q = disk0 !! q) ∧
  opened (trace run.1) =
    part_path output_dir (path_stem csv_path) <$> seq 1 (length (opened (trace run.1))) ∧
  (∀ outs, run.2 = Ok outs → opened (trace run.1) = outs).
Proof.
  cbv zeta. unfold convert_large_csv_chunked.
  destruct (first_chunk_schema src) as [ms|e]; [|done].
  apply try_block_frame.
Qed.

(** When the chunked converter returns, [total_rows] is the number of rows
    in the returned shards, [total_rows] and [filtered_rows] add up to the
    number of rows read, and [rows_in_current_part] is the number of rows
    of the last shard. *)
Theorem chunked_converter_counts_every_row (csv_path : string)
    (src : csv_source) (output_dir : string) (year_filter : option (Z * Z))
    (disk0 : gmap string parquet_file) (st : state) (outs : list string) :
  convert_large_csv_chunked csv_path src output_dir year_filter disk0 = (st, Ok outs) →
  total_rows st = length (concat (rows_at (disk st) <$> outs)) ∧
  (total_rows st + filtered_rows st = length (chunk_rows (chunks src)))%nat ∧
  rows_in_current_part st = length (from_option (rows_at (disk st)) [] (last outs)).
Proof.
  unfold convert_large_csv_chunked.
  destruct (first_chunk_schema src) as [ms|e]; [|done].
  apply try_block_counters.
Qed.

(** Every shard the chunked converter returns holds at least one row
    group.  Before its last row group was written the file was empty or
    below 90% of [MAX_SIZE_MB]; every shard but the last had reached that
    size when it was closed.  When a filter is set and every chunk has a
    year column, the last row group of each shard holds a row, so that no
    returned shard is empty. *)
Theorem chunked_converter_shard_sizes (csv_path : string)
    (src : csv_source) (output_dir : string) (year_filter : option (Z * Z))
    (disk0 : gmap string parquet_file) (st : state) (outs : list string)
    (i : nat) (p : string) :
  convert_large_csv_chunked csv_path src output_dir year_filter disk0 = (st, Ok outs) →
  outs !! i = Some p →
  ∃ f0 tbl,
    disk st !! p = Some (finalize (append_group tbl f0)) ∧
    (row_groups f0 = [] ∨ reached f0 = false) ∧
    ((S i < length outs)%nat → reached (append_group tbl f0) = true) ∧
    ((∀ chunk, Chunk chunk ∈ chunks src → filter_applies year_filter chunk = true) →
     tbl ≠ [] ∧ rows_at (disk st) p ≠ []).
Proof.
  unfold convert_large_csv_chunked.
  destruct (first_chunk_schema src) as [ms|e]; [|done].
  intros Hrun Hp.
  destruct (try_block_sizes output_dir (path_stem csv_path) ms year_filter
              (∀ chunk, Chunk chunk ∈ chunks src → filter_applies year_filter chunk = true)
              disk0 (chunks src) st outs (fun H => H) Hrun i p Hp)
    as (f & Hf & (f0 & tbl & -> & Hbelow & Hne) & Hreached).
  exists f0, tbl. repeat (split; [done|]).
  intros Hall. split; [by apply Hne|].
  unfold rows_at. rewrite Hf. simpl. unfold file_rows. simpl.
  rewrite concat_app. simpl. rewrite app_nil_r.
  intros [_ Htbl]%app_eq_nil. by apply (Hne Hall).
Qed.

(** What the chunked converter returns or raises, what it does to the
    directory and the files it writes do not depend on the files the
    directory held before: every part it opens is written anew. *)
Theorem chunked_converter_ignores_old_files (csv_path : string)
    (src : csv_source) (output_dir : string) (year_filter : option (Z * Z))
    (disk1 disk2 : gmap string parquet_file) :
  let run1 := convert_large_csv_chunked csv_path src output_dir year_filter disk1 in
  let run2 := convert_large_csv_chunked csv_path src output_dir year_filter disk2 in
  run1.2 = run2.2 ∧ trace run1.1 = trace run2.1 ∧
  (∀ q, q ∈ opened (trace run1.1) → disk run1.1 !! q = disk run2.1 !! q).
Proof.
  cbv zeta. unfold convert_large_csv_chunked.
  destruct (first_chunk_schema src) as [ms|e].
  2: { simpl. split; [done|]. split; [done|]. by intros q ?%elem_of_nil. }
  destruct (try_block_same_run output_dir (path_stem csv_path) ms year_filter
              (chunks src) disk1 disk2) as (Hres & Hsame).
  destruct Hsame as (_ & _ & _ & _ & _ & _ & _ & Htrace & Hdisk).
  split; [done|]. split; [done|].
  intros q Hq. by apply Hdisk, try_block_opened.
Qed.

(** On a file none of whose chunks has a [collision_year] column, the
    chunked converter does with a year filter what it does without one. *)
Theorem year_filter_needs_year_column (csv_path : string)
    (src : csv_source) (output_dir : string) (yf : Z * Z)
    (disk0 : gmap string parquet_file) :
  (∀ chunk, Chunk chunk ∈ chunks src → has_column "collision_year" chunk = false) →
  convert_large_csv_chunked csv_path src output_dir (Some yf) disk0 =
  convert_large_csv_chunked csv_path src output_dir None disk0.
Proof.
  intros Hno. unfold convert_large_csv_chunked, try_block.
  destruct (first_chunk_schema src) as [ms|e]; [|done].
  by rewrite for_chunks_no_year_column.
Qed.

(** ** The thresholds, in bytes *)

Lemma convert_routing (csv_file : string) (src : csv_source) (output_dir : string)
    (year_filter : option (Z * Z)) (dsk : gmap string parquet_file) :
  convert csv_file src output_dir year_filter dsk =
    if 500 * 1024 * 1024 <? csv_bytes src
    then (disk (convert_large_csv_chunked csv_file src output_dir year_filter dsk).1,
          (convert_large_csv_chunked csv_file src output_dir year_filter dsk).2)
    else convert_small_csv csv_file src output_dir dsk.
Proof.
  unfold convert.
  assert (negb (Qle_bool (inject_Z (csv_bytes src) / inject_Z (1024 * 1024)) 500) =
          (500 * 1024 * 1024 <? csv_bytes src)) as ->.
  { unfold Qle_bool. simpl. apply eq_iff_eq_true.
    rewrite negb_true_iff, Z.leb_gt, Z.ltb_lt. lia. }
  destruct (_ <? _); [|done].
  by destruct (convert_large_csv_chunked _ _ _ _ _).
Qed.

(** The three size tests of the program compare megabytes as quotients;
    in bytes they read: a shard is closed from 45 MiB on, the small-file
    converter keeps its single file up to [MAX_SIZE_BYTES], and [main]
    hands an input to the chunked converter when it is larger than
    500 MiB, an input of exactly that size going to the small-file
    converter. *)
Theorem thresholds_in_bytes (f : parquet_file) (csv_file : string)
    (src : csv_source) (output_dir : string) (year_filter : option (Z * Z))
    (dsk : gmap string parquet_file) :
  reached f = (45 * 1024 * 1024 <=? getsize f) ∧
  Qle_bool (get_file_size_mb f) (inject_Z MAX_SIZE_MB) = (getsize f <=? MAX_SIZE_BYTES) ∧
  convert csv_file src output_dir year_filter dsk =
    if 500 * 1024 * 1024 <? csv_bytes src
    then (disk (convert_large_csv_chunked csv_file src output_dir year_filter dsk).1,
          (convert_large_csv_chunked csv_file src output_dir year_filter dsk).2)
    else convert_small_csv csv_file src output_dir dsk.
Proof.
  split; [|split].
  - unfold reached, get_file_size_mb, Qle_bool, MAX_SIZE_MB. simpl.
    apply eq_iff_eq_true. rewrite !Z.leb_le. lia.
  - unfold get_file_size_mb, Qle_bool, MAX_SIZE_BYTES, MAX_SIZE_MB. simpl.
    apply eq_iff_eq_true. rewrite !Z.leb_le. lia.
  - apply convert_routing.
Qed.

(** ** The small-file converter: files and rows *)

(** The small-file converter as a function of the number of shards it
    writes when it splits. *)
Lemma convert_small_csv_unfold (csv_path : string) (src : csv_source)
    (output_dir : string) (disk0 : gmap string parquet_file) (df : DataFrame) :
  whole_frame src = Ok df →
  let base_name := path_stem csv_path in
  let temp_parquet := single_path output_dir base_name in
  let file_size_mb := get_file_size_mb (to_parquet (values df)) in
  let num_splits := (Z.to_nat (int_of (file_size_mb / inject_Z MAX_SIZE_MB)) + 1)%nat in
  let rows_per_split := (len df / num_splits + 1)%nat in
  let dsk := delete temp_parquet (<[temp_parquet := to_parquet (values df)]> disk0) in
  convert_small_csv csv_path src output_dir disk0 =
    (<[temp_parquet := to_parquet (values df)]> disk0, Ok [temp_parquet]) ∨
  ∃ k, (length (values df) <= k * rows_per_split)%nat ∧
    convert_small_csv csv_path src output_dir disk0 =
      (foldl (fun d j => <[part_path output_dir base_name (j + 1) :=
                             to_parquet (take rows_per_split
                                           (drop (j * rows_per_split) (values df)))]> d)
             dsk (seq 0 k),
       Ok ((fun j => part_path output_dir base_name (j + 1)) <$> seq 0 k)).
Proof.
  intros Hdf base_name temp_parquet file_size_mb num_splits rows_per_split dsk.
  unfold convert_small_csv. rewrite Hdf.
  fold base_name temp_parquet file_size_mb num_splits rows_per_split dsk.
  destruct (Qle_bool file_size_mb (inject_Z MAX_SIZE_MB)); [by left|right].
  destruct (write_splits_seq output_dir base_name (values df) rows_per_split
              num_splits 0 dsk [])
    as (k & Hk & Hstop & Hrun & ->).
  exists k. split; [|done].
  destruct (decide (k < num_splits)%nat) as [Hlt|Hge]; [by apply Hstop|].
  assert (k = num_splits) as -> by lia.
  pose proof (Nat.mul_succ_div_gt (len df) num_splits ltac:(lia)) as Hgt.
  unfold rows_per_split, len in *. lia.
Qed.

Lemma convert_small_csv_frame (csv_path : string) (src : csv_source)
    (output_dir : string) (disk0 : gmap string parquet_file) (q : string) :
  q ≠ single_path output_dir (path_stem csv_path) →
  (∀ n, q ≠ part_path output_dir (path_stem csv_path) n) →
  (convert_small_csv csv_path src output_dir disk0).1 !! q = disk0 !! q.
Proof.
  intros Hq Hparts. destruct (whole_frame src) as [df|e] eqn:Hdf.
  2: { unfold convert_small_csv. by rewrite Hdf. }
  destruct (convert_small_csv_unfold csv_path src output_dir disk0 df Hdf)
    as [->|(k & _ & ->)]; cbn [fst snd].
  - by rewrite lookup_insert_ne.
  - match goal with |- context [foldl _ ?d (seq 0 k)] => set (dsk := d) end.
    match goal with |- context [take ?s (drop _ (values df))] => set (size := s) in * end.
    destruct (written_splits_lookup output_dir (path_stem csv_path) (values df)
                size 0 k dsk) as [_ Hother].
    cbv zeta in Hother. rewrite Hother by done.
    subst dsk. by rewrite lookup_delete_ne, lookup_insert_ne.
Qed.

(** The small-file converter changes no file of the directory but the
    single file and the parts of its input's stem.  When reading the input
    raises, it has changed nothing.  When it splits, the single file is
    gone afterwards, also one left by an earlier run; when it does not,
    the parts left by an earlier run are as they were. *)
Theorem small_converter_touches_only_its_files (csv_path : string)
    (src : csv_source) (output_dir : string) (disk0 : gmap string parquet_file) :
  let run := convert_small_csv csv_path src output_dir disk0 in
  let temp_parquet := single_path output_dir (path_stem csv_path) in
  (∀ q, q ≠ temp_parquet →
        (∀ n, q ≠ part_path output_dir (path_stem csv_path) n) →
        run.1 !! q = disk0 !! q) ∧
  (∀ e, whole_frame src = Raise e → run = (disk0, Raise e)) ∧
  (∀ outs, run.2 = Ok outs →
     (outs = [temp_parquet] ∧
      (∀ n, run.1 !! part_path output_dir (path_stem csv_path) n =
            disk0 !! part_path output_dir (path_stem csv_path) n)) ∨
     ((temp_parquet ∉ outs) ∧ run.1 !! temp_parquet = None)).
Proof.
  cbv zeta. destruct (whole_frame src) as [df|e] eqn:Hdf.
  2: { unfold convert_small_csv. rewrite Hdf. simpl.
       split; [done|]. split; [by intros e' [= <-]|done]. }
  destruct (convert_small_csv_unfold csv_path src output_dir disk0 df Hdf)
    as [->|(k & _ & ->)]; cbn [fst snd].
  - split; [|split; [done|]].
    + intros q Hq _. by rewrite lookup_insert_ne.
    + intros outs [= <-]. left. split; [done|]. intros n.
      rewrite lookup_insert_ne; [done|]. apply single_path_not_part.
  - destruct (written_splits_lookup output_dir (path_stem csv_path) (values df)
                (len df / (Z.to_nat (int_of (get_file_size_mb (to_parquet (values df)) /
                                             inject_Z MAX_SIZE_MB)) + 1) + 1) 0 k
                (delete (single_path output_dir (path_stem csv_path))
                   (<[single_path output_dir (path_stem csv_path) :=
                        to_parquet (values df)]> disk0)))
      as [_ Hother].
    cbv zeta in Hother. split; [|split; [done|]].
    + intros q Hq Hparts. rewrite Hother by done.
      by rewrite lookup_delete_ne, lookup_insert_ne.
    + intros outs [= <-]. right. split.
      * intros (j & Habs & _)%list_elem_of_fmap.
        by apply single_path_not_part in Habs.
      * rewrite Hother; [by rewrite lookup_delete_eq|].
        intros n. apply single_path_not_part.
Qed.

Lemma convert_small_csv_rows (csv_path : string) (src : csv_source)
    (output_dir : string) (disk0 : gmap string parquet_file) (df : DataFrame) :
  whole_frame src = Ok df →
  ∃ outs, (convert_small_csv csv_path src output_dir disk0).2 = Ok outs ∧
    concat (rows_at (convert_small_csv csv_path src output_dir disk0).1 <$> outs) =
      values df ∧
    NoDup outs ∧
    (∀ p, p ∈ outs →
       (p = single_path output_dir (path_stem csv_path) ∨
        ∃ n, p = part_path output_dir (path_stem csv_path) n) ∧
       ∃ f, (convert_small_csv csv_path src output_dir disk0).1 !! p = Some f ∧
            finalized f = true).
Proof.
  intros Hdf.
  destruct (convert_small_csv_unfold csv_path src output_dir disk0 df Hdf)
    as [->|(k & Hcover & ->)]; cbn [fst snd].
  - eexists. split; [done|]. split; [|split].
    + simpl. unfold rows_at. rewrite lookup_insert_eq. simpl.
      unfold file_rows. simpl. by rewrite !app_nil_r.
    + apply NoDup_singleton.
    + intros p ->%list_elem_of_singleton. split; [by left|].
      rewrite lookup_insert_eq. by eexists.
  - eexists. split; [done|].
    match goal with |- context [foldl _ ?d (seq 0 k)] => set (dsk := d) end.
    match goal with |- context [take ?s (drop _ (values df))] => set (size := s) in * end.
    destruct (written_splits_lookup output_dir (path_stem csv_path) (values df)
                size 0 k dsk) as [Hparts _].
    cbv zeta in Hparts. split; [|split].
    + transitivity (concat ((fun j => take size (drop (j * size) (values df))) <$> seq 0 k));
        [|by rewrite concat_windows, take_ge].
      rewrite <- list_fmap_compose. f_equal. apply list_fmap_ext.
      intros i j Hj. apply lookup_seq in Hj as [-> Hj]. simpl.
      unfold rows_at. rewrite Hparts by lia. simpl.
      unfold file_rows. simpl. by rewrite app_nil_r.
    + apply NoDup_fmap_2_strong; [|apply NoDup_seq].
      intros i j _ _ Hij%part_path_inj. lia.
    + intros p (j & -> & Hj%elem_of_seq)%list_elem_of_fmap.
      split; [right; by eexists|]. rewrite Hparts by lia. by eexists.
Qed.

(** An input of at most 500 MiB is not filtered by year: whatever the
    year filter, [main]'s conversion of it returns, and the files it
    returns hold every row of the input, in order. *)
Theorem small_inputs_are_not_year_filtered (csv_file : string)
    (src : csv_source) (output_dir : string) (year_filter : option (Z * Z))
    (dsk : gmap string parquet_file) (df : DataFrame) :
  csv_bytes src <= 500 * 1024 * 1024 →
  whole_frame src = Ok df →
  ∃ outs,
    (convert csv_file src output_dir year_filter dsk).2 = Ok outs ∧
    concat (rows_at (convert csv_file src output_dir year_filter dsk).1 <$> outs) =
      values df.
Proof.
  intros Hsize Hdf. rewrite convert_routing.
  destruct (Z.ltb_spec (500 * 1024 * 1024) (csv_bytes src)) as [Hlt|_]; [lia|].
  destruct (convert_small_csv_rows csv_file src output_dir dsk df Hdf)
    as (outs & Houts & Hrows & _).
  by exists outs.
Qed.

(** ** The files [main] reports *)

Lemma append_assoc (a b c : string) : (a +:+ b) +:+ c = a +:+ b +:+ c.
Proof.
  induction a as [|x a IH]; [done|].
  by rewrite !append_cons, IH.
Qed.

Lemma diverge_append (a b x y : string) :
  diverge a b = true → a +:+ x ≠ b +:+ y.
Proof.
  revert b. induction a as [|c a IH]; intros [|d b]; try done.
  simpl. rewrite !append_cons. destruct (Ascii.eqb_spec c d) as [->|Hne].
  - intros Hd [= H]. by apply (IH b Hd).
  - intros _ [= H _]. done.
Qed.

Lemma owned_prefix (job : string * string) (q : string) :
  owned job q → ∃ rest, q = job_prefix job +:+ rest.
Proof.
  unfold owned, job_prefix, single_path, part_path.
  intros [->|[n ->]]; eexists; by rewrite !append_assoc.
Qed.

Lemma owned_separate (job job' : string * string) (q : string) :
  diverge (job_prefix job) (job_prefix job') = true →
  owned job q → ¬ owned job' q.
Proof.
  intros Hd [r ->]%owned_prefix [r' H]%owned_prefix.
  by apply (diverge_append _ _ _ _ Hd) in H.
Qed.

#[local] Instance part_path_Inj (output_dir base_name : string) :
  Inj (=) (=) (part_path output_dir base_name).
Proof. intros n m. apply part_path_inj. Qed.

(** What the conversion of one input does to the directory: it changes
    only the single file and the parts of the input's stem, and the paths
    it returns are distinct, among these, and finished files. *)
Lemma convert_outputs (csv_file : string) (src : csv_source) (output_dir : string)
    (year_filter : option (Z * Z)) (dsk : gmap string parquet_file) :
  let run := convert csv_file src output_dir year_filter dsk in
  (∀ q, q ≠ single_path output_dir (path_stem csv_file) →
        (∀ n, q ≠ part_path output_dir (path_stem csv_file) n) →
        run.1 !! q = dsk !! q) ∧
  (∀ outs, run.2 = Ok outs →
     NoDup outs ∧
     ∀ p, p ∈ outs →
       (p = single_path output_dir (path_stem csv_file) ∨
        ∃ n, p = part_path output_dir (path_stem csv_file) n) ∧
       ∃ f, run.1 !! p = Some f ∧ finalized f = true).
Proof.
  cbv zeta. rewrite convert_routing. destruct (_ <? _); cbn [fst snd].
  - unfold convert_large_csv_chunked.
    destruct (first_chunk_schema src) as [ms|e]; [|done].
    destruct (try_block_frame output_dir (path_stem csv_file) ms year_filter
                dsk (chunks src)) as (Hfr & Hparts & Houts).
    cbv zeta in *.
    pose proof (try_block_sizes output_dir (path_stem csv_file) ms year_filter
                  False dsk (chunks src)) as Hsizes.
    destruct (try_block _ _ _ _ _ _) as [st r]. cbn [fst snd] in *. split.
    + intros q _ Hq. apply Hfr. rewrite Hparts.
      intros (n & -> & _)%list_elem_of_fmap. by apply (Hq n).
    + intros outs ->. specialize (Houts outs eq_refl). subst outs. split.
      * rewrite Hparts. apply NoDup_fmap_2; [apply _|apply NoDup_seq].
      * intros p Hp. split.
        -- rewrite Hparts in Hp. apply list_elem_of_fmap in Hp as (n & -> & _).
           right. by exists n.
        -- apply list_elem_of_lookup_1 in Hp as [i Hi].
           destruct (Hsizes st (opened (trace st)) ltac:(done) eq_refl i p Hi)
             as (f & Hf & _).
           by exists (finalize f).
  - split; [intros q; apply convert_small_csv_frame|].
    destruct (whole_frame src) as [df|e] eqn:Hdf.
    2: { unfold convert_small_csv. by rewrite Hdf. }
    destruct (convert_small_csv_rows csv_file src output_dir dsk df Hdf)
      as (outs & Houts & _ & Hnd & Hfiles).
    intros outs' Houts'. rewrite Houts in Houts'. by injection Houts' as <-.
Qed.

(** Over jobs whose prefixes diverge pairwise, [main] keeps its outputs
    distinct and present: a later job does not touch what an earlier one
    returned. *)
Lemma main_jobs_outputs (inputs : gmap string csv_source)
    (todo : list (string * string)) (ms : main_state) :
  separate todo = true →
  NoDup (all_output_files ms) →
  (∀ p, p ∈ all_output_files ms →
     (∃ f, parquet_dir ms !! p = Some f ∧ finalized f = true) ∧
     ∀ job, job ∈ todo → ¬ owned job p) →
  let final := foldl (fun ms job => main_file inputs job.1 ms job.2) ms todo in
  NoDup (all_output_files final) ∧
  ∀ p, p ∈ all_output_files final →
    ∃ f, parquet_dir final !! p = Some f ∧ finalized f = true.
Proof.
  revert ms. induction todo as [|job todo IH]; intros ms Hsep Hnd Hinv; cbv zeta.
  { split; [done|]. intros p Hp. by apply Hinv. }
  simpl in Hsep. apply andb_prop in Hsep as [Hjob Hsep].
  rewrite forallb_forall in Hjob.
  cbn [foldl]. apply IH; [done|..]; unfold main_file;
    destruct (inputs !! job.2) as [src|]; cbn [all_output_files parquet_dir];
    try done.
  - pose proof (convert_outputs job.2 src ("data/parquet/" +:+ job.1)
                  (year_filter_of job.1) (parquet_dir ms)) as [_ Houts].
    cbv zeta in Houts.
    destruct (convert _ _ _ _ _) as [dsk [outs|e]]; cbn [all_output_files]; [|done].
    destruct (Houts outs eq_refl) as [Hnd' Hown].
    apply NoDup_app. split; [done|]. split; [|done].
    intros p Hp Hp'. destruct (Hinv p Hp) as [_ Hnot].
    apply (Hnot job); [by left|]. by apply Hown.
  - pose proof (convert_outputs job.2 src ("data/parquet/" +:+ job.1)
                  (year_filter_of job.1) (parquet_dir ms)) as [Hfr Houts].
    cbv zeta in Hfr, Houts.
    assert (∀ p, p ∈ all_output_files ms →
              (convert job.2 src ("data/parquet/" +:+ job.1)
                       (year_filter_of job.1) (parquet_dir ms)).1 !! p =
              parquet_dir ms !! p) as Hold.
    { intros p Hp. destruct (Hinv p Hp) as [_ Hnot].
      apply Hfr.
      - intros ->. apply (Hnot job); [by left|]. by left.
      - intros n ->. apply (Hnot job); [by left|]. right. by exists n. }
    destruct (convert _ _ _ _ _) as [dsk [outs|e]];
      cbn [all_output_files parquet_dir fst snd] in *.
    + intros p [Hp|Hp]%elem_of_app.
      * destruct (Hinv p Hp) as [Hex Hnot]. rewrite Hold by done.
        split; [done|]. intros job' Hjob'. apply Hnot. by right.
      * destruct (Houts outs eq_refl) as [_ Hown].
        destruct (Hown p Hp) as [Howned Hex]. split; [done|].
        intros job' Hjob'. apply (owned_separate job); [|done].
        apply Hjob. by apply list_elem_of_In.
    + intros p Hp. destruct (Hinv p Hp) as [Hex Hnot]. rewrite Hold by done.
      split; [done|]. intros job' Hjob'. apply Hnot. by right.
  - intros p Hp. destruct (Hinv p Hp) as [Hex Hnot].
    split; [done|]. intros job' Hjob'. apply Hnot. by right.
Qed.

(** A job leaves alone every path that is not its own. *)
Lemma main_jobs_frame (inputs : gmap string csv_source)
    (todo : list (string * string)) (ms : main_state) (p : string) :
  (∀ job, job ∈ todo → ¬ owned job p) →
  parquet_dir (foldl (fun ms job => main_file inputs job.1 ms job.2) ms todo) !! p =
    parquet_dir ms !! p.
Proof.
  revert ms. induction todo as [|job todo IH]; intros ms Hnot; [done|].
  cbn [foldl]. rewrite IH by (intros job' Hjob'; apply Hnot; by right).
  unfold main_file. destruct (inputs !! job.2) as [src|]; [|done].
  pose proof (convert_outputs job.2 src ("data/parquet/" +:+ job.1)
                (year_filter_of job.1) (parquet_dir ms)) as [Hfr _].
  cbv zeta in Hfr.
  assert ((convert job.2 src ("data/parquet/" +:+ job.1) (year_filter_of job.1)
                   (parquet_dir ms)).1 !! p = parquet_dir ms !! p) as Hp.
  { apply Hfr.
    - intros ->. apply (Hnot job); [by left|]. by left.
    - intros n ->. apply (Hnot job); [by left|]. right. by exists n. }
  by destruct (convert _ _ _ _ _) as [dsk [outs|e]].
Qed.

Lemma separate_later (before after : list (string * string)) (job job' : string * string) :
  separate (before ++ job :: after) = true → job' ∈ after →
  diverge (job_prefix job) (job_prefix job') = true.
Proof.
  induction before as [|j before IH]; simpl.
  - intros [Hjob _]%andb_prop Hin. rewrite forallb_forall in Hjob.
    by apply Hjob, list_elem_of_In.
  - intros [_ H]%andb_prop. by apply IH.
Qed.

(** What a conversion returned to [main] is in the output directory,
    unchanged, when the loop of [main] ends: the conversions that follow
    write to other paths. *)
Theorem main_keeps_what_conversions_return (inputs : gmap string csv_source)
    (disk0 : gmap string parquet_file) (before after : list (string * string))
    (job : string * string) (src : csv_source) (outs : list string) (p : string) :
  jobs csv_files = before ++ job :: after →
  inputs !! job.2 = Some src →
  let ms := foldl (fun ms job => main_file inputs job.1 ms job.2)
              {| all_output_files := []; parquet_dir := disk0; messages := [] |}
              before in
  let run := convert job.2 src ("data/parquet/" +:+ job.1) (year_filter_of job.1)
               (parquet_dir ms) in
  run.2 = Ok outs → p ∈ outs →
  parquet_dir (main inputs disk0) !! p = run.1 !! p.
Proof.
  intros Hjobs Hsrc ms run Hrun Hp. unfold main, main_loop.
  rewrite main_loop_jobs, Hjobs, foldl_app. cbn [foldl]. fold ms.
  rewrite main_jobs_frame.
  - unfold main_file. rewrite Hsrc. fold run.
    by destruct run as [dsk [outs'|e]].
  - intros job' Hjob'. apply (owned_separate job).
    + apply (separate_later before after); [|done]. rewrite <- Hjobs. by vm_compute.
    + pose proof (convert_outputs job.2 src ("data/parquet/" +:+ job.1)
                    (year_filter_of job.1) (parquet_dir ms)) as [_ Houts].
      cbv zeta in Houts. fold run in Houts.
      destruct (Houts outs Hrun) as [_ Hown]. by apply Hown.
Qed.

(** Every path [main] has collected when it comes to its summary is a
    finished file of the output directory, and no path is collected
    twice: the sizes the summary asks for are those of files that
    exist. *)
Theorem main_outputs_exist (inputs : gmap string csv_source)
    (disk0 : gmap string parquet_file) :
  NoDup (all_output_files (main inputs disk0)) ∧
  ∀ p, p ∈ all_output_files (main inputs disk0) →
    ∃ f, parquet_dir (main inputs disk0) !! p = Some f ∧ finalized f = true.
Proof.
  unfold main, main_loop. rewrite main_loop_jobs.
  apply main_jobs_outputs.
  - by vm_compute.
  - apply NoDup_nil_2.
  - by intros p ?%elem_of_nil.
Qed.

(** ** Label replacement: failures and a second pass *)

Lemma mapM_Raise {A B} (f : A -> result B) (l : list A) (e : exn) :
  mapM f l = Raise e → ∃ x, x ∈ l ∧ f x = Raise e.
Proof.
  induction l as [|x l IH]; simpl; [done|].
  destruct (f x) as [y|e'] eqn:Hx; simpl.
  - destruct (mapM f l) as [k|e'']; simpl; [done|].
    intros [= ->]. destruct (IH eq_refl) as (x' & Hin & Hx').
    exists x'. split; [by right|done].
  - intros [= ->]. exists x. split; [by left|done].
Qed.

Lemma astype_int_Raise (c : cell) (e : exn) :
  astype_int c = Raise e →
  (e = ValueError ∧ no_integer c) ∨ (e = OverflowError ∧ too_large c).
Proof.
  unfold no_integer, too_large. destruct c as [s|q|z| |d|n]; simpl; try done.
  - destruct (parse_int s) as [z|] eqn:Hs.
    + destruct (in_int64 z) eqn:Hz; [done|]. intros [= <-]. right.
      split; [done|]. by exists s, z.
    + intros [= <-]. left. split; [done|]. right. right. by exists s.
  - by destruct (in_int64 _).
  - by destruct (in_int64 _).
  - intros [= <-]. left. split; [done|]. by left.
  - intros [= <-]. left. split; [done|]. right. left. by exists n.
Qed.

(** Why [get_labels_easy] raises. *)
Lemma get_labels_easy_Raise (dataframe : DataFrame) (field_name : string) (e : exn) :
  get_labels_easy dataframe field_name = Raise e →
  (e = KeyError ∧ has_column "field name" dataframe = false) ∨
  (e = IndexError ∧ (length (columns dataframe) < 3)%nat) ∨
  (e = IndexError ∧ length (columns dataframe) = 3%nat ∧
   ∃ codes, mapM (fun r => astype_int (default NA (r !! 2%nat)))
                 (field_rows dataframe field_name) = Ok codes) ∨
  ((3 <= length (columns dataframe))%nat ∧
   ∃ r, r ∈ field_rows dataframe field_name ∧
        astype_int (default NA (r !! 2%nat)) = Raise e).
Proof.
  unfold get_labels_easy.
  destruct (has_column "field name" dataframe); simpl.
  2: { intros [= <-]. by left. }
  destruct (Nat.ltb_spec (length (columns dataframe)) 3) as [Hlt|Hge].
  { intros [= <-]. right. by left. }
  fold (field_rows dataframe field_name).
  destruct (mapM _ (field_rows dataframe field_name)) as [codes|e'] eqn:Hcodes; simpl.
  - destruct (Nat.ltb_spec (length (columns dataframe)) 4) as [Hlt|Hge']; [|done].
    intros [= <-]. right. right. left. split; [done|]. split; [lia|by eexists].
  - intros [= ->]. apply mapM_Raise in Hcodes as (r & Hr & Hraise).
    right. right. right. split; [done|]. by exists r.
Qed.

Lemma replace_field_columns (accidents_lookups accidents accidents' : DataFrame)
    (field : string) :
  replace_field accidents_lookups accidents field = Ok accidents' →
  columns accidents' = columns accidents ∧ has_column field accidents = true.
Proof.
  unfold replace_field. intros (d & Hd & H)%bind_Ok.
  destruct (has_column field accidents); [|done]. injection H as <-.
  split; [|done]. unfold assign_column. by destruct (column_index _ _).
Qed.

Lemma replace_fields_Raise (accidents_lookups : DataFrame) (fields : list string)
    (accidents : DataFrame) (e : exn) :
  replace_fields accidents_lookups fields accidents = Raise e →
  ∃ f, f ∈ fields ∧
    ((e = KeyError ∧ has_column f accidents = false) ∨
     get_labels_easy accidents_lookups f = Raise e).
Proof.
  revert accidents. induction fields as [|f fields IH]; intros accidents; [done|].
  cbn [replace_fields].
  destruct (replace_field accidents_lookups accidents f) as [acc1|e1] eqn:Hf; simpl.
  - intros (g & Hg & Hcause)%IH. exists g. split; [by right|].
    apply replace_field_columns in Hf as [Hcols _].
    unfold has_column in *. by rewrite <- Hcols.
  - intros [= ->]. exists f. split; [by left|].
    unfold replace_field in Hf.
    destruct (get_labels_easy accidents_lookups f) as [d|e1]; simpl in Hf.
    + destruct (has_column f accidents); [done|]. injection Hf as <-. by left.
    + injection Hf as <-. by right.
Qed.

(** When the replacement loop raises, it raises one of four exceptions,
    each with its cause: [KeyError] when the lookup table has no
    [field name] column or the data lacks the column of a field;
    [IndexError] when the lookup table has fewer than four columns, and,
    with three columns, only after the codes of a field were cast;
    [ValueError] when, in a table of three columns at least, a code of a
    field is missing or is a string that is no integer; and
    [OverflowError] when such a code is an integer beyond int64. *)
Theorem labels_failures_have_a_cause (accidents accidents_lookups : DataFrame)
    (e : exn) :
  replace_labels accidents accidents_lookups = Raise e →
  (e = KeyError ∧
   (has_column "field name" accidents_lookups = false ∨
    ∃ f, f ∈ field_names ∧ has_column f accidents = false)) ∨
  (e = IndexError ∧ (length (columns accidents_lookups) < 4)%nat ∧
   (length (columns accidents_lookups) = 3%nat →
    ∃ f codes, f ∈ field_names ∧
      mapM (fun r => astype_int (default NA (r !! 2%nat)))
           (field_rows accidents_lookups f) = Ok codes)) ∨
  (e = ValueError ∧ (3 <= length (columns accidents_lookups))%nat ∧
   ∃ f r, f ∈ field_names ∧ r ∈ field_rows accidents_lookups f ∧
          no_integer (default NA (r !! 2%nat))) ∨
  (e = OverflowError ∧ (3 <= length (columns accidents_lookups))%nat ∧
   ∃ f r, f ∈ field_names ∧ r ∈ field_rows accidents_lookups f ∧
          too_large (default NA (r !! 2%nat))).
Proof.
  unfold replace_labels.
  intros (f & Hf & [[-> Hcol]|Hget])%replace_fields_Raise.
  { left. split; [done|]. right. by exists f. }
  apply get_labels_easy_Raise in Hget
    as [[-> H]|[[-> H]|[(-> & H & codes & Hcodes)|(H & r & Hr & Hraise)]]].
  - left. split; [done|]. by left.
  - right. left. split; [done|]. split; lia.
  - right. left. split; [done|]. split; [lia|]. intros _. by exists f, codes.
  - apply astype_int_Raise in Hraise as [[-> Hc]|[-> Hc]].
    + right. right. left. split; [done|]. split; [done|]. by exists f, r.
    + right. right. right. split; [done|]. split; [done|]. by exists f, r.
Qed.

Lemma assign_column_fixed (m : string) (g : cell -> cell) (df : DataFrame) :
  (∀ i r c, column_index m (columns df) = Some i → r ∈ values df →
            r !! i = Some c → g c = c) →
  assign_column m g df = df.
Proof.
  intros Hfix. unfold assign_column.
  destruct (column_index m (columns df)) as [i|] eqn:Hi; [|done].
  destruct df as [cols rows]. simpl in *. f_equal.
  rewrite <- (list_fmap_id rows) at 2. apply list_fmap_ext.
  intros j r Hr. simpl.
  rewrite (list_alter_ext g id r r i); [by apply list_alter_id|by eauto using list_elem_of_lookup_2|done].
Qed.






(** A field the lookup table has no row for gets the empty mapping, not
    an error, and its column is left as it is. *)
Theorem field_without_lookup_rows_is_left_alone
    (accidents accidents_lookups : DataFrame) (field : string) :
  has_column "field name" accidents_lookups = true →
  (4 <= length (columns accidents_lookups))%nat →
  field_rows accidents_lookups field = [] →
  has_column field accidents = true →
  get_labels_easy accidents_lookups field = Ok ∅ ∧
  replace_field accidents_lookups accidents field = Ok accidents.
Proof.
  intros Hname Hcols Hrows Hfield.
  assert (get_labels_easy accidents_lookups field = Ok ∅) as Hget.
  { unfold get_labels_easy. rewrite Hname. simpl.
    destruct (Nat.ltb_spec (length (columns accidents_lookups)) 3) as [Hlt|_]; [lia|].
    fold (field_rows accidents_lookups field). rewrite Hrows. simpl.
    by destruct (Nat.ltb_spec (length (columns accidents_lookups)) 4) as [Hlt|_]; [lia|]. }
  split; [done|]. unfold replace_field. rewrite Hget. simpl. rewrite Hfield.
  f_equal. apply assign_column_fixed. intros i r c _ _ _.
  unfold replace, none_label. rewrite lookup_empty.
  destruct (key_of c); [|done]. by rewrite lookup_empty.
Qed.

(** ** What the chunked converter raises *)






(** ** When the chunked converter returns *)

Lemma declared_type_Some (ms : schema) (n : string) (t : arrow_type) :
  declared_type ms n = Some t → ∃ f, f ∈ ms ∧ name f = n ∧ type f = t.
Proof.
  induction ms as [|f ms IH]; simpl; [done|].
  destruct (String.eqb_spec (name f) n) as [Hn|_].
  - intros [= <-]. exists f. split; [by left|done].
  - intros (g & Hg & H)%IH. exists g. split; [by right|done].
Qed.

Lemma from_pandas_total (chunk : DataFrame) (ms : schema) :
  (∀ f, f ∈ ms → type f ≠ Null ∧ has_column (name f) chunk = true) →
  (∀ r f, r ∈ values chunk → f ∈ ms →
     ∃ y, conform (type f) (cell_at (columns chunk) (name f) r) = Ok y) →
  ∃ tbl, from_pandas chunk ms = Ok tbl.
Proof.
  intros Hcols Hcells. unfold from_pandas.
  assert (forallb (fun f => has_column (name f) chunk) ms = true) as ->.
  { apply forallb_forall. intros f Hf%list_elem_of_In. by apply Hcols. }
  assert (existsb (fun f => is_null (type f)) ms = false) as ->.
  { apply not_true_is_false. intros (f & Hf%list_elem_of_In & Hnull)%existsb_exists.
    destruct (Hcols f Hf) as [Ht _]. by destruct (type f). }
  apply mapM_total, Forall_forall. intros r Hr.
  apply mapM_total, Forall_forall. intros f Hf. by apply Hcells.
Qed.

(** The cells of a chunk that fits the schema convert: what the year
    filter and the coercion make of them conforms to the field.  [b] is
    the dtype the column of the file is read with and [b'] the dtype the
    coercion finds. *)
Lemma fitting_cell_conforms (b b' : bool) (t : arrow_type) (c c1 : cell) (year : bool) :
  convertible b t c → t ≠ Null →
  (b = true → reads_as_integer c = true) →
  c1 = (if year then to_numeric b c else c) →
  (year = false → b' = b) →
  (year = true → is_integer t = true ∨ is_floating t = true) →
  (∃ c', coerced_cell b' (Some t) c1 = Ok c') ∧
  (∀ c2, coerced_cell b' (Some t) c1 = Ok c2 → ∃ y, conform t c2 = Ok y).
Proof.
  intros Hc Ht Hb -> Hb' Hyear.
  assert (to_numeric b' (if year then to_numeric b c else c) = to_numeric b c) as Hnum.
  { destruct year; [apply to_numeric_idem|by rewrite Hb' by done]. }
  destruct c as [s| | | |d|n]; try done.
  2: { assert ((if year then to_numeric b NA else NA) = NA) as -> by by destruct year.
       destruct t; try done; simpl; (split; [by eexists|]); intros c2 [= <-]; by eexists. }
  unfold reads_as_integer in Hb. simpl in Hb, Hc.
  destruct (is_integer t) eqn:Hi; [|destruct (is_floating t) eqn:Hf].
  - assert (coerced_cell b' (Some t) (if year then to_numeric b (Text s) else Text s) =
            astype_Int64 (to_numeric b (Text s))) as ->
      by (destruct t; try done; cbn [coerced_cell]; by rewrite Hnum).
    assert (match read_number s with
            | Some (IntLit z q) =>
                if b then in_int64 z = true ∧ (t = UInt64 → 0 <= z)
                else is_integral q = true ∧ (t = UInt64 → 0 <= Qnum q / Z.pos (Qden q))
            | Some (FloatLit q) =>
                is_integral q = true ∧ (t = UInt64 → 0 <= Qnum q / Z.pos (Qden q))
            | Some (InfLit _) => False
            | None => True
            end) as Hc' by (by destruct t).
    assert (∀ z, (t = UInt64 → 0 <= z) → ∃ y, conform t (Int z) = Ok y) as Hconf.
    { intros z Hpos. destruct t; try done; simpl; [by eexists|].
      rewrite (proj2 (Z.leb_le _ _) (Hpos eq_refl)). by eexists. }
    unfold to_numeric, parse_integer in *.
    destruct (read_number s) as [[z q|q|n]|]; simpl.
    + destruct b; destruct Hc' as [Hfit Hpos]; simpl; rewrite Hfit;
        (split; [by eexists|]); intros c2 [= <-]; by apply Hconf.
    + destruct b; [by discriminate (Hb eq_refl)|]. destruct Hc' as [Hfit Hpos].
      simpl. rewrite Hfit. split; [by eexists|]. intros c2 [= <-]. by apply Hconf.
    + destruct b; [by discriminate (Hb eq_refl)|done].
    + destruct b; [by discriminate (Hb eq_refl)|].
      split; [by eexists|]. intros c2 [= <-]. destruct t; try done; by eexists.
  - destruct t; try done. cbn [coerced_cell]. rewrite Hnum.
    split; [by eexists|]. intros c2 [= <-].
    unfold to_numeric, parse_integer in *.
    destruct (read_number s) as [[z q|q|n]|]; destruct b;
      try (by discriminate (Hb eq_refl)); simpl; try by eexists.
    rewrite (Hc eq_refl z eq_refl). by eexists.
  - destruct year; [by destruct Hyear|].
    destruct t; try done; simpl.
    + destruct Hc as [d Hd]. split; [by eexists|]. intros c2 [= <-]. simpl.
      rewrite Hd. by eexists.
    + split; [by eexists|]. intros c2 [= <-]. by eexists.
Qed.

(** An iteration on a chunk that fits the schema does not raise. *)
Lemma process_chunk_returns (output_path base_name : string) (ms : schema)
    (year_filter : option (Z * Z)) (st : state) (chunk : DataFrame) :
  NoDup (name <$> ms) → fits ms year_filter chunk →
  (filter_applies year_filter chunk = true →
   ∀ t, declared_type ms "collision_year" = Some t →
        is_integer t = true ∨ is_floating t = true) →
  ∃ st', process_chunk output_path base_name ms year_filter st chunk = Next st'.
Proof.
  intros Hnd Hfits Hyear. unfold process_chunk.
  destruct (filter_step year_filter st chunk) as [st1 [chunk1|]] eqn:Hfilter;
    [|by eexists].
  pose proof (fun n => filter_step_dtype output_path base_name year_filter
                         st st1 chunk chunk1 n Hfilter) as Hdtype.
  destruct (filter_step_spec output_path base_name year_filter st st1 chunk _ Hfilter)
    as [_ [Hcols1 Hrows1]].
  assert (∀ r1 f, r1 ∈ values chunk1 → f ∈ ms →
            (∃ c', coerced_cell (integer_column (name f) chunk1) (Some (type f))
                     (cell_at (columns chunk) (name f) r1) = Ok c') ∧
            ∀ c2, coerced_cell (integer_column (name f) chunk1) (Some (type f))
                    (cell_at (columns chunk) (name f) r1) = Ok c2 →
                  ∃ y, conform (type f) c2 = Ok y) as Hcell.
  { intros r1 f Hr1 Hf. apply list_elem_of_lookup_1 in Hr1 as [j Hj].
    destruct (Forall2_lookup_r _ _ _ _ _ Hrows1 Hj) as (r & Hr & Hcell).
    apply list_elem_of_lookup_2, list_elem_of_In, List.filter_In in Hr as [Hr Hkept].
    apply list_elem_of_In in Hr. destruct (Hfits f Hf) as (Hnull & _ & Hc).
    specialize (Hc r Hr). specialize (Hcell (name f)).
    eapply (fitting_cell_conforms (reads_integers year_filter chunk (name f)) _
              (type f) _ _ (filter_applies year_filter chunk &&
                            String.eqb (name f) "collision_year") Hc Hnull).
    - unfold reads_integers.
      destruct (_ && _); intros Hb; [by apply integer_column_elem|].
      apply (integer_column_elem _ (kept_rows year_filter chunk)); [done|].
      simpl. apply list_elem_of_In, filter_In. by rewrite <- list_elem_of_In.
    - rewrite Hcell. unfold reads_integers.
      destruct (filter_applies year_filter chunk && _) eqn:Hy; [|done].
      apply andb_prop in Hy as [_ Hn%String.eqb_eq]. by rewrite Hn.
    - apply Hdtype.
    - intros [Happ Hname%String.eqb_eq]%andb_prop. apply (Hyear Happ).
      rewrite <- Hname. by apply declared_type_elem. }
  destruct (coerce_chunk_total ms chunk1 Hnd) as [chunk2 Hcoerce].
  { intros r1 n t Hr1 (f & Hf & <- & Ht)%declared_type_Some Hint.
    destruct (Hcell r1 f Hr1 Hf) as [[c' Hc'] _].
    rewrite Hcols1. exists c'. revert Hc'. rewrite Ht.
    by destruct t. }
  rewrite Hcoerce.
  destruct (coerce_chunk_cells ms chunk1 chunk2 Hnd Hcoerce) as [Hcols2 Hrows2].
  destruct (from_pandas_total chunk2 ms) as [tbl Htbl].
  { intros f Hf. destruct (Hfits f Hf) as (Hnull & Hcol & _). split; [done|].
    unfold has_column in *. by rewrite Hcols2, Hcols1. }
  { intros r2 f Hr2 Hf. apply list_elem_of_lookup_1 in Hr2 as [j Hj].
    destruct (Forall2_lookup_r _ _ _ _ _ Hrows2 Hj) as (r1 & Hr1 & Hc2).
    apply list_elem_of_lookup_2 in Hr1. specialize (Hc2 (name f)).
    rewrite (declared_type_elem ms f Hnd Hf), Hcols1 in Hc2.
    destruct (Hcell r1 f Hr1 Hf) as [_ Hconf].
    rewrite Hcols2, Hcols1. by apply Hconf. }
  unfold write_step. cbv zeta.
  assert (∃ p, current_writer (open_writer output_path base_name
                                 (count_total (len chunk2) st1)) = Some p) as [p ->].
  { unfold open_writer.
    destruct (current_writer (count_total (len chunk2) st1)) as [p|] eqn:Hp;
      [|by eexists].
    by exists p. }
  rewrite Htbl. by eexists.
Qed.

(** The chunked converter returns when the schema is read, its fields
    have distinct names, the reader does not raise, every chunk fits the
    schema, and the year column, where the filter applies, is declared an
    integer or a float. *)
Theorem chunked_converter_returns (csv_path : string) (src : csv_source)
    (output_dir : string) (year_filter : option (Z * Z))
    (disk0 : gmap string parquet_file) (ms : schema) :
  first_chunk_schema src = Ok ms →
  NoDup (name <$> ms) →
  (∀ e, ReadError e ∉ chunks src) →
  (∀ chunk, Chunk chunk ∈ chunks src →
     fits ms year_filter chunk ∧
     (filter_applies year_filter chunk = true →
      ∀ t, declared_type ms "collision_year" = Some t →
           is_integer t = true ∨ is_floating t = true)) →
  ∃ outs,
    (convert_large_csv_chunked csv_path src output_dir year_filter disk0).2 = Ok outs.
Proof.
  intros Hms Hnd Hread Hchunks. unfold convert_large_csv_chunked, try_block.
  rewrite Hms.
  assert (∀ st, ∃ st', for_chunks output_dir (path_stem csv_path) ms year_filter
                         st (chunks src) = Next st') as Hloop.
  { induction (chunks src) as [|[chunk|e] items IH]; intros st.
    - by eexists.
    - destruct (Hchunks chunk ltac:(by left)) as [Hfits Hyear].
      destruct (process_chunk_returns output_dir (path_stem csv_path) ms year_filter
                  st chunk Hnd Hfits Hyear) as [st1 Hstep].
      cbn [for_chunks]. rewrite Hstep. apply IH.
      + intros e He. apply (Hread e). by right.
      + intros c Hc. apply Hchunks. by right.
    - destruct (Hread e). by left. }
  destruct (Hloop (initial_state disk0)) as [st' ->]. by eexists.
Qed.

(** ** Part paths, again *)

(** The paths of the parts of one stem are distinct, also beyond part 99,
    and none of them is the single file of the stem; up to part 99 the
    number is written with two digits, and it reads back as written. *)
Theorem part_paths_are_distinct (output_dir base_name : string) (n m : nat) :
  (part_path output_dir base_name n = part_path output_dir base_name m ↔ n = m) ∧
  single_path output_dir base_name ≠ part_path output_dir base_name n ∧
  Nat.of_uint <$> NilEmpty.uint_of_string (format_02d n) = Some n ∧
  ((n < 100)%nat → String.length (format_02d n) = 2%nat).
Proof.
  split; [|split; [|split]].
  - split; [apply part_path_inj|by intros ->].
  - apply single_path_not_part.
  - apply format_02d_read.
  - intros Hn.
    assert (Forall (fun k => String.length (format_02d k) = 2%nat) (seq 0 100)) as Hall.
    { refine (bool_decide_unpack _ _). by vm_compute. }
    rewrite Forall_forall in Hall. apply Hall, elem_of_seq. lia.
Qed.

(** ** The summary of [main] *)

Lemma append_nil_l (s : string) : "" +:+ s = s.
Proof. done. Qed.

Lemma contains_unfold (sub s : string) :
  contains sub s =
    starts_with sub s || match s with EmptyString => false | String _ s' => contains sub s' end.
Proof. by destruct s. Qed.

Lemma starts_with_append (sub b : string) : starts_with sub (sub +:+ b) = true.
Proof.
  induction sub as [|c sub IH]; [by destruct b|].
  rewrite append_cons. simpl. by rewrite Ascii.eqb_refl, IH.
Qed.

Lemma starts_with_split (sub s : string) :
  starts_with sub s = true → ∃ b, s = sub +:+ b.
Proof.
  revert s. induction sub as [|c sub IH]; intros s; [by exists s|].
  destruct s as [|d s]; [done|]. simpl.
  intros [Hc Hs]%andb_prop. apply Ascii.eqb_eq in Hc as ->.
  destruct (IH s Hs) as [b ->]. exists b. by rewrite append_cons.
Qed.

Lemma contains_append (sub a b : string) : contains sub (a +:+ sub +:+ b) = true.
Proof.
  induction a as [|c a IH].
  - rewrite append_nil_l, contains_unfold. by rewrite starts_with_append.
  - rewrite append_cons. simpl. rewrite IH. apply orb_true_r.
Qed.

Lemma contains_split (sub s : string) :
  contains sub s = true → ∃ a b, s = a +:+ sub +:+ b.
Proof.
  induction s as [|c s IH]; rewrite contains_unfold.
  - rewrite orb_false_r. intros [b ->]%starts_with_split. by exists "", b.
  - intros [[b ->]%starts_with_split|(a & b & ->)%IH]%orb_prop.
    + by exists "", b.
    + exists (String c a), b. by rewrite append_cons.
Qed.

Lemma no_slash_append (a b : string) : no_slash (a +:+ b) = no_slash a && no_slash b.
Proof.
  induction a as [|c a IH]; [done|].
  rewrite append_cons. simpl. by rewrite IH, andb_assoc.
Qed.

Lemma no_slash_decimal (d : Decimal.uint) : no_slash (NilEmpty.string_of_uint d) = true.
Proof. induction d; simpl; by rewrite ?IHd. Qed.

Lemma no_slash_format_02d (n : nat) : no_slash (format_02d n) = true.
Proof.
  unfold format_02d, decimal. destruct (n <? 10)%nat.
  - by rewrite no_slash_append, no_slash_decimal.
  - apply no_slash_decimal.
Qed.

(** A slash of a string whose tail has none lies in the part before the
    tail. *)
Lemma slash_in_prefix (P tail x b : string) :
  no_slash tail = true → P +:+ tail = x +:+ "/" +:+ b →
  ∃ y, P = x +:+ "/" +:+ y.
Proof.
  intros Htail. revert P. induction x as [|c x IH]; intros [|d P].
  - rewrite !append_nil_l, append_cons. intros ->. by simpl in Htail.
  - rewrite !append_nil_l, !append_cons, append_nil_l. intros [= -> _]. by exists P.
  - rewrite append_nil_l. intros ->.
    rewrite append_cons in Htail. simpl in Htail.
    rewrite no_slash_append, append_cons in Htail. simpl in Htail.
    by rewrite !andb_false_r in Htail.
  - rewrite !append_cons. intros [= -> H]. destruct (IH P H) as [y ->].
    exists y. by rewrite append_cons.
Qed.

Lemma owned_tail (job : string * string) (p : string) :
  owned job p →
  ∃ tail, p = ("data/parquet/" +:+ job.1 +:+ "/") +:+ tail ∧
          (no_slash (path_stem job.2) = true → no_slash tail = true).
Proof.
  unfold owned, single_path, part_path. intros [->|[n ->]].
  - exists (path_stem job.2 +:+ ".parquet"). split; [by rewrite !append_assoc|].
    intros H. by rewrite no_slash_append, H.
  - exists (path_stem job.2 +:+ "_part" +:+ format_02d n +:+ ".parquet").
    split; [by rewrite !append_assoc|].
    intros H. by rewrite !no_slash_append, H, no_slash_format_02d.
Qed.

(** The test of line 236 on a path of a job: it holds for the category of
    the job. *)
Lemma owned_contains (job : string * string) (p : string) :
  owned job p → contains ("parquet/" +:+ job.1 +:+ "/") p = true.
Proof.
  intros (tail & -> & _)%owned_tail.
  replace (("data/parquet/" +:+ job.1 +:+ "/") +:+ tail)
    with ("data/" +:+ ("parquet/" +:+ job.1 +:+ "/") +:+ tail).
  - apply contains_append.
  - change "data/parquet/" with ("data/" +:+ "parquet/"). by rewrite !append_assoc.
Qed.

(** It fails for a marker that ends in a slash and does not occur in the
    directory of the job, when the stem of the job has no slash. *)
Lemma owned_not_contains (job : string * string) (sub p : string) :
  owned job p → no_slash (path_stem job.2) = true →
  contains (sub +:+ "/") ("data/parquet/" +:+ job.1 +:+ "/") = false →
  contains (sub +:+ "/") p = false.
Proof.
  intros (tail & -> & Htail)%owned_tail Hstem Hdir.
  destruct (contains _ (_ +:+ tail)) eqn:Hc; [|done].
  apply contains_split in Hc as (a & b & Hc).
  assert (a +:+ (sub +:+ "/") +:+ b = (a +:+ sub) +:+ "/" +:+ b) as Heq
    by (by rewrite !append_assoc).
  rewrite Heq in Hc. apply slash_in_prefix in Hc as [y Hy]; [|by apply Htail].
  assert ((a +:+ sub) +:+ "/" +:+ y = a +:+ (sub +:+ "/") +:+ y) as Heq'
    by (by rewrite !append_assoc).
  by rewrite Hy, Heq', contains_append in Hdir.
Qed.

Lemma main_jobs_owned (inputs : gmap string csv_source)
    (todo : list (string * string)) (ms : main_state) :
  let final := foldl (fun ms job => main_file inputs job.1 ms job.2) ms todo in
  ∃ contributions,
    all_output_files final = all_output_files ms ++ concat contributions ∧
    Forall2 (fun job outs => ∀ p, p ∈ outs → owned job p) todo contributions.
Proof.
  destruct (main_jobs_spec inputs todo ms) as (_ & contributions & Hall & Hjobs).
  exists contributions. split; [done|].
  eapply Forall2_impl; [exact Hjobs|]. intros job outs Hjob p Hp. cbv beta in Hjob.
  destruct (inputs !! job.2) as [src|]; [|subst; by apply elem_of_nil in Hp].
  destruct Hjob as [dsk ->].
  pose proof (convert_outputs job.2 src ("data/parquet/" +:+ job.1)
                (year_filter_of job.1) dsk) as [_ Houts].
  cbv zeta in Houts.
  destruct (convert _ _ _ _ _).2 as [outs|e]; [|by apply elem_of_nil in Hp].
  destruct (Houts outs eq_refl) as [_ Hown]. by apply Hown.
Qed.

Lemma filter_every {A} (p : A -> bool) (l : list A) :
  (∀ x, x ∈ l → p x = true) → List.filter p l = l.
Proof.
  induction l as [|x l IH]; intros H; simpl; [done|].
  rewrite H by (by left). f_equal. apply IH. intros y Hy. apply H. by right.
Qed.

Lemma filter_none {A} (p : A -> bool) (l : list A) :
  (∀ x, x ∈ l → p x = false) → List.filter p l = [].
Proof.
  induction l as [|x l IH]; intros H; simpl; [done|].
  rewrite H by (by left). apply IH. intros y Hy. apply H. by right.
Qed.

(** The summary of [main] does not raise, and it lists every output file
    once, under the category whose conversion returned it: the outputs are
    the files listed for [2025_dataset] followed by those listed for
    [2024_prior], and each line gives the name of a file of the output
    directory and its size. *)
Theorem summary_lists_every_output (inputs : gmap string csv_source)
    (disk0 : gmap string parquet_file) :
  let ms := main inputs disk0 in
  let line_of := fun f (line : string * Q) =>
    ∃ file, parquet_dir ms !! f = Some file ∧
            line = (path_name f, get_file_size_mb file) in
  all_output_files ms =
    category_files "2025_dataset" ms ++ category_files "2024_prior" ms ∧
  ∃ lines25 lines24,
    summary ms =
      Some (List.filter (fun entry => negb (bool_decide (entry.2 = [])))
              [("2025_dataset", lines25); ("2024_prior", lines24)]) ∧
    Forall2 line_of (category_files "2025_dataset" ms) lines25 ∧
    Forall2 line_of (category_files "2024_prior" ms) lines24.
Proof.
  intros ms line_of.
  assert (∀ p, p ∈ all_output_files ms → is_Some (summary_line ms p)) as Hsize.
  { intros p Hp. subst ms. unfold main, main_loop in *.
    rewrite main_loop_jobs in *.
    destruct (main_jobs_outputs inputs (jobs csv_files)
                {| all_output_files := []; parquet_dir := disk0; messages := [] |})
      as [_ Hex]; [by vm_compute|apply NoDup_nil_2|by intros q ?%elem_of_nil|].
    destruct (Hex p Hp) as (f & Hf & _). unfold summary_line. rewrite Hf. by eexists. }
  assert (all_output_files ms =
            category_files "2025_dataset" ms ++ category_files "2024_prior" ms) as Hsplit.
  { unfold category_files. subst ms. unfold main, main_loop.
    rewrite main_loop_jobs.
    destruct (main_jobs_owned inputs (jobs csv_files)
                {| all_output_files := []; parquet_dir := disk0; messages := [] |})
      as (contributions & -> & Hown).
    change (jobs csv_files) with
      [ ("2025_dataset", "data/2025_dataset/collision-provisional-2025.csv");
        ("2025_dataset", "data/2025_dataset/vehicle-provisional-2025.csv");
        ("2025_dataset", "data/2025_dataset/casualty-provisional-2025.csv");
        ("2024_prior", "data/2024_prior/collision-1979-2024.csv");
        ("2024_prior", "data/2024_prior/vehicle-1979-2024.csv");
        ("2024_prior", "data/2024_prior/casualty-1979-2024.csv") ] in Hown.
    repeat (apply Forall2_cons_inv_l in Hown as (? & ? & ? & Hown & ->)).
    apply Forall2_nil_inv_l in Hown as ->.
    cbn [all_output_files concat app]. rewrite !List.filter_app. simpl.
    repeat match goal with
    | H : ∀ p, p ∈ ?o → owned (?c, ?f) p
      |- context [List.filter (contains ("parquet/" +:+ ?c +:+ "/")) ?o] =>
        rewrite (filter_every (contains ("parquet/" +:+ c +:+ "/")) o)
          by (intros q Hq; apply (owned_contains (c, f)), H, Hq)
    end.
    repeat match goal with
    | H : ∀ p, p ∈ ?o → owned (?c, ?f) p
      |- context [List.filter (contains ("parquet/" +:+ ?c' +:+ "/")) ?o] =>
        rewrite (filter_none (contains ("parquet/" +:+ c' +:+ "/")) o)
          by (intros q Hq;
              apply (owned_not_contains (c, f) ("parquet/" +:+ c')); [by apply H|done..])
    end.
    by rewrite !app_nil_r, <- !app_assoc. }
  split; [done|].
  assert (∀ c, is_Some (mapM (summary_line ms) (category_files c ms))) as Hlines.
  { intros c. apply mapM_is_Some_2, Forall_forall. intros p Hp. apply Hsize.
    unfold category_files in Hp. by apply list_elem_of_In, List.filter_In in Hp as [?%list_elem_of_In _]. }
  destruct (Hlines "2025_dataset") as [lines25 H25].
  destruct (Hlines "2024_prior") as [lines24 H24].
  exists lines25, lines24. split; [|split].
  - unfold summary. cbn [mapM]. rewrite H25, H24. done.
  - apply mapM_Some_1 in H25. eapply Forall2_impl; [exact H25|].
    intros f line Hline. unfold summary_line in Hline.
    destruct (parquet_dir ms !! f) as [file|] eqn:Hfile; [|done].
    exists file. split; [done|]. simpl in Hline. by injection Hline as <-.
  - apply mapM_Some_1 in H24. eapply Forall2_impl; [exact H24|].
    intros f line Hline. unfold summary_line in Hline.
    destruct (parquet_dir ms !! f) as [file|] eqn:Hfile; [|done].
    exists file. split; [done|]. simpl in Hline. by injection Hline as <-.
Qed.

End MoreFacts.

(** * Further sample runs *)

Lemma chunked_converter_touches_only_its_parts_witness :
  let run := convert_large_csv_chunked (ext := sample_externals)
               sample_path sample_source "out" (Some (2015, 2024)) stale_directory in
  disk run.1 !! "out/collision-1979-2024_part07.parquet" =
    stale_directory !! "out/collision-1979-2024_part07.parquet".
Proof.
  intros run.
  refine (proj1 (chunked_converter_touches_only_its_parts (ext := sample_externals)
                   sample_path sample_source "out" (Some (2015, 2024)) stale_directory)
                "out/collision-1979-2024_part07.parquet" _).
  refine (bool_decide_unpack _ _). vm_compute. exact I.
Defined.

Lemma chunked_converter_counts_every_row_witness :
  let run := convert_large_csv_chunked (ext := sample_externals)
               sample_path sample_source "out" (Some (2015, 2024)) ∅ in
  total_rows run.1 = 5%nat ∧ filtered_rows run.1 = 3%nat ∧
  (total_rows run.1 + filtered_rows run.1 =
   length (chunk_rows (chunks sample_source)))%nat.
Proof.
  intros run. split; [vm_compute; reflexivity|]. split; [vm_compute; reflexivity|].
  refine (proj1 (proj2 (chunked_converter_counts_every_row (ext := sample_externals)
                          sample_path sample_source "out" (Some (2015, 2024)) ∅ run.1
                          [ "out/collision-1979-2024_part01.parquet";
                            "out/collision-1979-2024_part02.parquet" ] _))).
  vm_compute. reflexivity.
Defined.

Lemma chunked_converter_shard_sizes_witness :
  let run := convert_large_csv_chunked (ext := sample_externals)
               sample_path sample_source "out" (Some (2015, 2024)) ∅ in
  ∃ f0 tbl,
    disk run.1 !! "out/collision-1979-2024_part01.parquet" =
      Some (finalize (append_group tbl f0)) ∧
    reached (ext := sample_externals) (append_group tbl f0) = true.
Proof.
  intros run.
  destruct (chunked_converter_shard_sizes (ext := sample_externals)
              sample_path sample_source "out" (Some (2015, 2024)) ∅ run.1
              [ "out/collision-1979-2024_part01.parquet";
                "out/collision-1979-2024_part02.parquet" ]
              0 "out/collision-1979-2024_part01.parquet")
    as (f0 & tbl & Hfile & _ & Hreached & _).
  - vm_compute. reflexivity.
  - reflexivity.
  - exists f0, tbl. split; [exact Hfile|]. apply Hreached. simpl. lia.
Defined.

Lemma chunked_converter_ignores_old_files_witness :
  (convert_large_csv_chunked (ext := sample_externals)
     sample_path sample_source "out" (Some (2015, 2024)) ∅).2 =
  (convert_large_csv_chunked (ext := sample_externals)
     sample_path sample_source "out" (Some (2015, 2024)) stale_directory).2.
Proof.
  exact (proj1 (chunked_converter_ignores_old_files (ext := sample_externals)
                  sample_path sample_source "out" (Some (2015, 2024))
                  ∅ stale_directory)).
Defined.

Lemma year_filter_needs_year_column_witness :
  convert_large_csv_chunked (ext := sample_externals)
    "data/2024_prior/vehicle-1979-2024.csv" vehicle_source "out" (Some (2015, 2024)) ∅ =
  convert_large_csv_chunked (ext := sample_externals)
    "data/2024_prior/vehicle-1979-2024.csv" vehicle_source "out" None ∅.
Proof.
  apply (year_filter_needs_year_column (ext := sample_externals)).
  intros chunk Hin. apply list_elem_of_singleton in Hin. injection Hin as ->.
  vm_compute. reflexivity.
Defined.

Lemma small_inputs_are_not_year_filtered_witness :
  ∃ outs,
    (convert (ext := sample_externals) sample_path small_source "out"
             (Some (2015, 2024)) ∅).2 = Ok outs ∧
    concat (rows_at (convert (ext := sample_externals) sample_path small_source "out"
                             (Some (2015, 2024)) ∅).1 <$> outs) =
      values sample_frame.
Proof.
  apply (small_inputs_are_not_year_filtered (ext := sample_externals)).
  - simpl. lia.
  - reflexivity.
Defined.

(** A lookup table whose first code is 2^63: the loop raises
    [OverflowError]. *)
Lemma labels_failures_have_a_cause_witness :
  replace_labels (ext := sample_externals) sample_accidents huge_code_lookups =
    Raise OverflowError ∧
  ∃ f r, f ∈ field_names ∧ r ∈ field_rows huge_code_lookups f ∧
         too_large (ext := sample_externals) (default NA (r !! 2%nat)).
Proof.
  assert (replace_labels (ext := sample_externals) sample_accidents huge_code_lookups =
            Raise OverflowError) as Hrun by (vm_compute; reflexivity).
  split; [exact Hrun|].
  destruct (labels_failures_have_a_cause (ext := sample_externals)
              sample_accidents huge_code_lookups OverflowError Hrun)
    as [[He _]|[[He _]|[[He _]|(_ & _ & H)]]];
    [discriminate He..|exact H].
Defined.



Lemma field_without_lookup_rows_is_left_alone_witness :
  let lookups := {| columns := ["table"; "field name"; "code/format"; "label"];
                    values := [ [Text "Accident"; Text "road_type"; Text "1"; Text "One"] ] |} in
  get_labels_easy (ext := sample_externals) lookups "day_of_week" = Ok ∅ ∧
  replace_field (ext := sample_externals) lookups sample_accidents "day_of_week" =
    Ok sample_accidents.
Proof.
  intros lookups.
  apply (field_without_lookup_rows_is_left_alone (ext := sample_externals)
           sample_accidents lookups "day_of_week").
  - reflexivity.
  - simpl. lia.
  - reflexivity.
  - reflexivity.
Defined.

Lemma main_outputs_exist_witness :
  NoDup (all_output_files (main (ext := sample_externals) sample_inputs stale_directory)).
Proof.
  exact (proj1 (main_outputs_exist (ext := sample_externals)
                  sample_inputs stale_directory)).
Defined.

Lemma summary_lists_every_output_witness :
  let ms := main (ext := sample_externals) sample_inputs ∅ in
  all_output_files ms =
    category_files "2025_dataset" ms ++ category_files "2024_prior" ms ∧
  category_files "2025_dataset" ms =
    [ "data/parquet/2025_dataset/vehicle-provisional-2025_part01.parquet";
      "data/parquet/2025_dataset/vehicle-provisional-2025_part02.parquet" ].
Proof.
  intros ms. split; [|vm_compute; reflexivity].
  exact (proj1 (summary_lists_every_output (ext := sample_externals) sample_inputs ∅)).
Defined.

Lemma chunked_converter_returns_witness :
  ∃ outs,
    (convert_large_csv_chunked (ext := sample_externals)
       sample_path sample_source "out" (Some (2015, 2024)) ∅).2 = Ok outs.
Proof.
  apply (chunked_converter_returns (ext := sample_externals)
           sample_path sample_source "out" (Some (2015, 2024)) ∅ sample_schema).
  - reflexivity.
  - refine (bool_decide_unpack _ _). vm_compute. exact I.
  - intros e He.
    repeat (apply elem_of_cons in He as [He|He]; [discriminate He|]).
    by apply elem_of_nil in He.
  - intros chunk Hin.
    repeat (apply elem_of_cons in Hin as [Hin|Hin]; [injection Hin as ->|]);
      [..|by apply elem_of_nil in Hin];
      (split; [|intros _ t Ht; vm_compute in Ht; injection Ht as <-; by left]);
      intros f Hf;
      repeat (apply elem_of_cons in Hf as [->|Hf]);
      try (by apply elem_of_nil in Hf);
      (split; [discriminate|]); (split; [reflexivity|]);
      intros r Hr;
      repeat (apply elem_of_cons in Hr as [->|Hr]);
      try (by apply elem_of_nil in Hr);
      match goal with
      | |- convertible ?b ?t ?c =>
          let b' := eval vm_compute in b in
          let t' := eval vm_compute in t in
          let c' := eval vm_compute in c in
          change (convertible (ext := sample_externals) b' t' c')
      end;
      cbv beta iota delta [convertible];
      try match goal with
          | |- match ?x with _ => _ end =>
              let x' := eval vm_compute in x in change x with x'
          end;
      cbv beta iota;
      first [ exact I
            | split; [vm_compute; reflexivity | intros Ht; discriminate Ht]
            | intros Hb; discriminate Hb
            | intros Hb z Hz; vm_compute in Hz;
              first [ discriminate Hz | injection Hz as <-; vm_compute; reflexivity ] ].
Defined.

Lemma main_keeps_what_conversions_return_witness :
  let job := ("2025_dataset", "data/2025_dataset/vehicle-provisional-2025.csv") in
  let p := "data/parquet/2025_dataset/vehicle-provisional-2025_part01.parquet" in
  parquet_dir (main (ext := sample_externals) sample_inputs ∅) !! p =
    (convert (ext := sample_externals) job.2 small_source ("data/parquet/" +:+ job.1)
             (year_filter_of job.1) ∅).1 !! p.
Proof.
  intros job p.
  refine (main_keeps_what_conversions_return (ext := sample_externals)
            sample_inputs ∅
            [("2025_dataset", "data/2025_dataset/collision-provisional-2025.csv")]
            [ ("2025_dataset", "data/2025_dataset/casualty-provisional-2025.csv");
              ("2024_prior", "data/2024_prior/collision-1979-2024.csv");
              ("2024_prior", "data/2024_prior/vehicle-1979-2024.csv");
              ("2024_prior", "data/2024_prior/casualty-1979-2024.csv") ]
            job small_source
            [ "data/parquet/2025_dataset/vehicle-provisional-2025_part01.parquet";
              "data/parquet/2025_dataset/vehicle-provisional-2025_part02.parquet" ]
            p _ _ _ _).
  - reflexivity.
  - reflexivity.
  - vm_compute. reflexivity.
  - by left.
Defined.
